(** * The mines-server board engine

    A shallow embedding of the two board engines of the repository,
    package [mines] (src/mines/game.go, the engine the server runs, which
    keeps one copy of the tile grid per recorded turn) and package [game]
    (src/game/game.go, its predecessor with a single live grid), together
    with the properties of the game rules that hold of them.

    Conventions.
    - Go's [uint8] and [uint16] values are integers of [Z] with the
      wrap-around written out ([u8], [u16]); Go's [int] is [Z].
    - A slice is a [list]; an index outside it is a run-time panic.
    - [time.Time] is [option Z]: [None] is the zero time, [Some t] a reading
      of the clock, which never is the zero time.
    - [math/rand] is a supply of raw draws, one consumed by each call of
      [rand.Intn]; the engine threads it next to the game.
    - [uuid.NewUUID] is taken to succeed: identifiers are opaque labels
      that no rule of the game reads. *)

From Stdlib Require Import ZArith Lia.
From stdpp Require Import gmap list strings pretty.

Local Open Scope Z_scope.

(** ** Machine integers and slices *)

Definition u8 (z : Z) : Z := z mod 256.
Definition u16 (z : Z) : Z := z mod 65536.

(** [l[i]] of Go, for an [int] or unsigned index. *)
Definition idx {A} (l : list A) (i : Z) : option A :=
  if i <? 0 then None else l !! Z.to_nat i.

(** [make([]T, n)] *)
Definition make {A} (zero : A) (n : Z) : list A := replicate (Z.to_nat n) zero.

(** [copy(dst, src)]: the first [min(len(dst), len(src))] elements. *)
Definition copy {A} (dst src : list A) : list A :=
  take (length dst) src ++ drop (length src) dst.

(** ** Time *)

Definition Time : Type := option Z.
Definition IsZero (t : Time) : bool := if t is Some _ then false else true.

(** ** Outcomes of a run *)

(** [Panic] is a Go run-time panic; [Exhausted] and [Starved] are the two
    ways the embedding can give up: the recursion budget or the supply of
    random draws is used up. *)
Inductive res (S A : Type) : Type :=
| Ret (a : A) (s : S)
| Panic
| Exhausted
| Starved.
Arguments Ret {S A} a s.
Arguments Panic {S A}.
Arguments Exhausted {S A}.
Arguments Starved {S A}.

(** ** Tiles *)

Record tile : Type := Tile { value : Z; flagged : bool; clicked : bool }.

Definition zero_tile : tile := Tile 0 false false.

Definition set_value (v : Z) (t : tile) : tile := Tile v (flagged t) (clicked t).
Definition set_flagged (b : bool) (t : tile) : tile := Tile (value t) b (clicked t).
Definition set_clicked (b : bool) (t : tile) : tile := Tile (value t) (flagged t) b.

Definition isMine (t : tile) : bool := 9 =? value t.

(** The double loop [for j := -1; j < 2; j++ { for i := -1; i < 2; i++ {
    if 0 == i && 0 == j { continue } ... } }], as the list of the [(i, j)]
    it visits, in order. *)
Definition offsets : list (Z * Z) :=
  j ← [-1; 0; 1];
  i ← [-1; 0; 1];
  if (0 =? i) && (0 =? j) then [] else [(i, j)].

(** [0 > x2 || 0 > y2 || x2 >= w || y2 >= h] *)
Definition outside (w h x2 y2 : Z) : bool :=
  (0 >? x2) || (0 >? y2) || (x2 >=? w) || (y2 >=? h).

(** [rand.Intn(n)] on the raw draw [r]; it panics when [n <= 0]. *)
Definition Intn (n r : Z) : option Z :=
  if n <=? 0 then None else Some (r mod n).

(** The win scan: the number of tiles that are clicked or a mine. *)
Definition scan (ts : list tile) : Z :=
  foldl (fun total t => if clicked t || isMine t then total + 1 else total) 0 ts.

(** ** The rendered view

    The object [JSON] hands to [json.Marshal]: the key [ended_at] is there
    once the game has ended, the key [won] only after a win. *)
Record view : Type := View {
  v_started_at : Time;
  v_mines : Z;
  v_height : Z;
  v_width : Z;
  v_flags : Z;
  v_ended_at : Time;
  v_won : option bool;
  v_grid : list string
}.

(** The label of one tile, the [if ... else if ...] chain of [JSON]. *)
Definition label (lost won : bool) (t : tile) : string :=
  if lost && isMine t && negb (flagged t) then "9"
  else if lost && negb (isMine t) && flagged t then "X"
  else if flagged t || (won && isMine t) then "!"
  else if negb (clicked t) then "?"
  else if 0 =? value t then ""
  else pretty (value t).

(** [grid := make([]string, n); for i := 0; i < len(ts); i++ { grid[i] = val }]:
    writing past the end of [grid] panics. *)
Definition labels (lost won : bool) (n : Z) (ts : list tile) : option (list string) :=
  if Z.of_nat (length ts) <=? Z.of_nat (length (make "" n))
  then Some (copy (make "" n) (label lost won <$> ts))
  else None.

(** [for _, a := range l { body }] over a state that a panic ([None]) ends. *)
Fixpoint for_each {A S} (l : list A) (body : A -> S -> option S) (s : S) : option S :=
  match l with
  | [] => Some s
  | a :: l' => match body a s with
               | Some s' => for_each l' body s'
               | None => None
               end
  end.

(** The same loop for a body that runs in a world and may give up. *)
Fixpoint for_each_res {A S} (l : list A) (body : A -> S -> res S unit) (s : S) : res S unit :=
  match l with
  | [] => Ret tt s
  | a :: l' => match body a s with
               | Ret _ s' => for_each_res l' body s'
               | Panic => Panic
               | Exhausted => Exhausted
               | Starved => Starved
               end
  end.

(** [w*y + x] in [int] arithmetic, and in [uint16] arithmetic. *)
Definition index (w x y : Z) : Z := w * y + x.
Definition index16 (w x y : Z) : Z := u16 (u16 (w * y) + x).

(** * Package mines (src/mines/game.go) *)

Module Mines.

(** A turn taken in the game; [newTurn] leaves [tiles] to its caller. *)
Record turn : Type := Turn {
  turn_x : Z;
  turn_y : Z;
  turn_flag : bool;
  takenAt : Time;
  tiles : list tile
}.

Definition zero_turn : turn := Turn 0 0 false None [].

(** [history] is Go's [map[int]turn]; [grid] is declared and never
    assigned. *)
Record Game : Type := mkGame {
  uid : Z;
  width : Z;
  height : Z;
  mines : Z;
  flags : Z;
  startedAt : Time;
  endedAt : Time;
  grid : list tile;
  won : bool;
  history : gmap Z turn
}.

Definition set_flags (n : Z) (g : Game) : Game :=
  mkGame (uid g) (width g) (height g) (mines g) n (startedAt g) (endedAt g)
         (grid g) (won g) (history g).
Definition set_endedAt (t : Time) (g : Game) : Game :=
  mkGame (uid g) (width g) (height g) (mines g) (flags g) (startedAt g) t
         (grid g) (won g) (history g).
Definition set_won (b : bool) (g : Game) : Game :=
  mkGame (uid g) (width g) (height g) (mines g) (flags g) (startedAt g) (endedAt g)
         (grid g) b (history g).
Definition set_history (h : gmap Z turn) (g : Game) : Game :=
  mkGame (uid g) (width g) (height g) (mines g) (flags g) (startedAt g) (endedAt g)
         (grid g) (won g) h.

(** [len(g.history)], and [g.history[k]]: a key that is not in a Go map
    reads as the zero value. *)
Definition hlen (g : Game) : Z := Z.of_nat (size (history g)).
Definition turn_at (g : Game) (k : Z) : turn := default zero_turn (history g !! k).

(** The tiles the next turn starts from and the view shows:
    [g.history[len(g.history)-1].tiles]. *)
Definition latest (g : Game) : list tile := tiles (turn_at g (hlen g - 1)).

(** [turn.tiles[i] = f(turn.tiles[i])] for the turn stored under key [k]:
    the turn and the map entry share the slice. *)
Definition set_tiles (ts : list tile) (t : turn) : turn :=
  Turn (turn_x t) (turn_y t) (turn_flag t) (takenAt t) ts.
Definition upd_tile (k : Z) (i : Z) (f : tile -> tile) (g : Game) : Game :=
  set_history (alter (fun t => set_tiles (alter f (Z.to_nat i) (tiles t)) t) k (history g)) g.

(** The game and the random source it draws from. *)
Record world : Type := World { game : Game; rand : list Z }.

Definition on_game (f : Game -> Game) (s : world) : world := World (f (game s)) (rand s).

(** ** NewGame *)

Definition NewGame (uid now : Z) (w h m : Z) : string + Game :=
  let maxW := 250 in
  let maxH := 250 in
  let maxM := w * h - 2 in
  if maxW <? w then inl "width exceeds max"
  else if maxH <? h then inl "height exceeds max"
  else if maxM <? m then inl "mines exceed tiles"
  else inr (mkGame uid w h m 0 (Some now) None [] false ∅).

(** ** End *)

(** [func (g *Game) End(won bool)]: the parameter is not read. *)
Definition End (won : bool) (now : Z) (g : Game) : Game :=
  set_won true (set_endedAt (Some now) g).

(** ** generateTiles *)

(** The loop [for mines < g.mines { ... }]. *)
Fixpoint placeMines (g : Game) (ignoreX ignoreY : Z) (placed : Z) (ts : list tile)
    (rs : list Z) {struct rs} : res (list Z) (list tile) :=
  if placed <? mines g then
    match rs with
    | [] => Starved
    | rx :: rs1 =>
      match Intn (width g) rx with
      | None => Panic
      | Some x0 =>
        match rs1 with
        | [] => Starved
        | ry :: rs2 =>
          match Intn (height g) ry with
          | None => Panic
          | Some y0 =>
            let x := u16 x0 in
            let y := u16 y0 in
            if (x =? ignoreX) && (y =? ignoreY) then
              placeMines g ignoreX ignoreY placed ts rs2
            else
              match idx ts (index16 (width g) x y) with
              | None => Panic
              | Some t =>
                if negb (value t =? 9) then
                  placeMines g ignoreX ignoreY (u16 (placed + 1))
                    (<[Z.to_nat (index16 (width g) x y) := set_value 9 t]> ts) rs2
                else placeMines g ignoreX ignoreY placed ts rs2
              end
          end
        end
      end
    end
  else Ret ts rs.

(** One round of the loop around the tile at [(tileX, tileY)], for the
    offset [(i, j)]: [if 9 == tiles[w*y2+x2].value { tiles[idx].value++ }]. *)
Definition addMine (w h : Z) (tileX tileY : Z) (ij : Z * Z) (ts : list tile)
    : option (list tile) :=
  let '(i, j) := ij in
  let i0 := index w tileX tileY in
  let y2 := tileY + j in
  let x2 := tileX + i in
  if outside w h x2 y2 then Some ts
  else
    match idx ts (index w x2 y2) with
    | None => None
    | Some t2 =>
      if 9 =? value t2 then
        match idx ts i0 with
        | None => None
        | Some t0 => Some (<[Z.to_nat i0 := set_value (u8 (value t0 + 1)) t0]> ts)
        end
      else Some ts
    end.

(** The body of the numbering loops for the tile at [(tileX, tileY)]. *)
Definition numberTile (w h : Z) (tileX tileY : Z) (ts : list tile) : option (list tile) :=
  let i0 := index w tileX tileY in
  match idx ts i0 with
  | None => None
  | Some t =>
    if 9 =? value t then Some ts
    else for_each offsets (addMine w h tileX tileY) ts
  end.

(** [for tileX := 0; tileX < w; tileX++ { for tileY := 0; tileY < h; tileY++ *)
Definition numberTiles (w h : Z) (ts : list tile) : option (list tile) :=
  for_each (seqZ 0 w) (fun tileX ts =>
    for_each (seqZ 0 h) (fun tileY ts => numberTile w h tileX tileY ts) ts) ts.

Definition generateTiles (g : Game) (ignoreX ignoreY : Z) (rs : list Z)
    : res (list Z) (list tile) :=
  match placeMines g ignoreX ignoreY 0 (make zero_tile (u16 (height g * width g))) rs with
  | Ret ts rs' =>
    match numberTiles (width g) (height g) ts with
    | Some ts' => Ret ts' rs'
    | None => Panic
    end
  | Panic => Panic
  | Exhausted => Exhausted
  | Starved => Starved
  end.

(** ** countFlags *)

Definition countFlags (g : Game) (x y : Z) : option Z :=
  let h := height g in
  let w := width g in
  let ts := latest g in
  for_each offsets (fun '(i, j) total =>
    let y2 := y + j in
    let x2 := x + i in
    if outside w h x2 y2 then Some total
    else
      match idx ts (index w x2 y2) with
      | None => None
      | Some t => if flagged t then Some (u8 (total + 1)) else Some total
      end) 0.

(** ** clickNeighbors and ClickTile *)

Section Recursion.

(** [g.ClickTile], as [clickNeighbors] calls it. *)
Variable ClickTile : Z -> Z -> bool -> world -> res world (option string).

(** One round of the loop of [clickNeighbors], for the offset [(i, j)].
    [tiles] is the slice of the turn that is the last one when
    [clickNeighbors] is entered, the one stored under key [k]; the loop
    reads that turn, whatever turns the calls of [ClickTile] add after it.
    The error a call returns is dropped. *)
Definition clickNeighbor (w h k : Z) (x y : Z) (ij : Z * Z) (s : world) : res world unit :=
  let '(i, j) := ij in
  let y2 := y + j in
  let x2 := x + i in
  if outside w h x2 y2 then Ret tt s
  else
    match idx (tiles (turn_at (game s) k)) (index16 (width (game s)) (u16 x2) (u16 y2)) with
    | None => Panic
    | Some t =>
      if negb (clicked t) && negb (flagged t) then
        match ClickTile (u16 x2) (u16 y2) false s with
        | Ret _ s' => Ret tt s'
        | Panic => Panic
        | Exhausted => Exhausted
        | Starved => Starved
        end
      else Ret tt s
    end.

Definition clickNeighbors (x y : Z) (s : world) : res world unit :=
  let h := height (game s) in
  let w := width (game s) in
  let k := hlen (game s) - 1 in
  for_each_res offsets (clickNeighbor w h k x y) s.

(** The win check at the end of [ClickTile], on the tiles of this call's
    turn, stored under key [k]. *)
Definition winCheck (now : Z) (k : Z) (g : Game) : Game :=
  if IsZero (endedAt g) then
    let ts := tiles (turn_at g k) in
    if scan ts =? Z.of_nat (length ts) then End true now g else g
  else g.

(** [ClickTile] from [tile := &turn.tiles[g.width*y+x]] on; [k] is the key
    of this call's turn. *)
Definition act (now : Z) (k : Z) (x y : Z) (flag : bool) (s : world)
    : res world (option string) :=
  let i := index16 (width (game s)) x y in
  match idx (tiles (turn_at (game s) k)) i with
  | None => Panic
  | Some t =>
    let r :=
      if clicked t then
        if negb flag then
          match countFlags (game s) x y with
          | None => Panic
          | Some f => if f =? value t then clickNeighbors x y s else Ret tt s
          end
        else Ret tt s
      else if negb (flagged t) then
        if flag then
          Ret tt (on_game (fun g => set_flags (u16 (flags g + 1))
                                      (upd_tile k i (set_flagged true) g)) s)
        else
          let s2 := on_game (upd_tile k i (set_clicked true)) s in
          if 9 =? value t then Ret tt (on_game (set_endedAt (Some now)) s2)
          else if 0 =? value t then clickNeighbors x y s2
          else Ret tt s2
      else if flagged t && flag then
        Ret tt (on_game (fun g => set_flags (u16 (flags g - 1))
                                    (upd_tile k i (set_flagged false) g)) s)
      else Ret tt s
    in
    match r with
    | Ret _ s3 => Ret None (on_game (winCheck now k) s3)
    | Panic => Panic
    | Exhausted => Exhausted
    | Starved => Starved
    end
  end.

(** The tiles of a new turn: generated on the first turn, copied from the
    last turn after it. *)
Definition turnTiles (g : Game) (x y : Z) (rs : list Z) : res (list Z) (list tile) :=
  if 0 =? hlen g then generateTiles g x y rs
  else Ret (copy (make zero_tile (u16 (height g * width g))) (latest g)) rs.

Definition ClickTile_body (now : Z) (x y : Z) (flag : bool) (s : world)
    : res world (option string) :=
  let g := game s in
  if width g <=? x then Ret (Some "X cannot be larger than the board width") s
  else if height g <=? y then Ret (Some "Y cannot be larger than the board height") s
  else
    match turnTiles g x y (rand s) with
    | Ret ts rs' =>
      let k := hlen g in
      let s1 := World (set_history (<[k := Turn x y flag (Some now) ts]> (history g)) g) rs' in
      if negb (IsZero (endedAt g)) then Ret (Some "Game is not active") s1
      else act now k x y flag s1
    | Panic => Panic
    | Exhausted => Exhausted
    | Starved => Starved
    end.

End Recursion.

(** [ClickTile] with a budget for the depth of its recursion through
    [clickNeighbors]. *)
Fixpoint ClickTile (fuel : nat) (now : Z) (x y : Z) (flag : bool) (s : world)
    : res world (option string) :=
  match fuel with
  | O => Exhausted
  | S fuel' => ClickTile_body (ClickTile fuel' now) now x y flag s
  end.

(** ** JSON *)

Definition JSON (g : Game) : option view :=
  let ended := negb (IsZero (endedAt g)) in
  let lost := negb (won g) && ended in
  match labels lost (won g) (u16 (height g * width g)) (latest g) with
  | None => None
  | Some grid =>
    Some (View (startedAt g) (mines g) (height g) (width g)
               (if ended && won g then mines g else flags g)
               (if ended then endedAt g else None)
               (if ended && won g then Some true else None)
               grid)
  end.

End Mines.

(** * Package game (src/game/game.go) *)

Module Game.

(** One live grid; it is empty until the first turn. *)
Record Game : Type := mkGame {
  uid : Z;
  totalMines : Z;
  boardWidth : Z;
  boardHeight : Z;
  flags : Z;
  grid : list tile;
  startTime : Time;
  endTime : Time;
  won : bool
}.

Definition set_flags (n : Z) (g : Game) : Game :=
  mkGame (uid g) (totalMines g) (boardWidth g) (boardHeight g) n (grid g)
         (startTime g) (endTime g) (won g).
Definition set_grid (ts : list tile) (g : Game) : Game :=
  mkGame (uid g) (totalMines g) (boardWidth g) (boardHeight g) (flags g) ts
         (startTime g) (endTime g) (won g).
Definition set_endTime (t : Time) (g : Game) : Game :=
  mkGame (uid g) (totalMines g) (boardWidth g) (boardHeight g) (flags g) (grid g)
         (startTime g) t (won g).
Definition set_won (b : bool) (g : Game) : Game :=
  mkGame (uid g) (totalMines g) (boardWidth g) (boardHeight g) (flags g) (grid g)
         (startTime g) (endTime g) b.

(** [g.grid[i] = f(g.grid[i])] *)
Definition upd_tile (i : Z) (f : tile -> tile) (g : Game) : Game :=
  set_grid (alter f (Z.to_nat i) (grid g)) g.

Record world : Type := World { game : Game; rand : list Z }.

Definition on_game (f : Game -> Game) (s : world) : world := World (f (game s)) (rand s).

(** ** NewGame *)

Definition NewGame (uid now : Z) (w h m : Z) : string + Game :=
  let maxW := 250 in
  let maxH := 250 in
  let maxM := w * h - 2 in
  if maxW <? w then inl "width exceeds max"
  else if maxH <? h then inl "height exceeds max"
  else if maxM <? m then inl "mines exceed tiles"
  else inr (mkGame uid m w h 0 [] (Some now) None false).

(** ** End *)

(** [func (g *Game) End(won bool)]: the parameter is not read. *)
Definition End (won : bool) (now : Z) (g : Game) : Game :=
  set_won true (set_endTime (Some now) g).

(** ** addMinesToGrid *)

(** [setGridValue]: the new grid and whether the value changed. *)
Definition setGridValue (v : Z) (x y : Z) (g : Game) : option (Game * bool) :=
  let w := boardWidth g in
  match idx (grid g) (index16 w x y) with
  | None => None
  | Some t =>
    if negb (value t =? v)
    then Some (set_grid (<[Z.to_nat (index16 w x y) := set_value v t]> (grid g)) g, true)
    else Some (g, false)
  end.

(** The loop [for mines < g.totalMines { ... }]. *)
Fixpoint placeMines (ignoreX ignoreY : Z) (placed : Z) (g : Game)
    (rs : list Z) {struct rs} : res (list Z) Game :=
  if placed <? totalMines g then
    match rs with
    | [] => Starved
    | rx :: rs1 =>
      match Intn (boardWidth g) rx with
      | None => Panic
      | Some x0 =>
        match rs1 with
        | [] => Starved
        | ry :: rs2 =>
          match Intn (boardHeight g) ry with
          | None => Panic
          | Some y0 =>
            let x := u16 x0 in
            let y := u16 y0 in
            if (x =? ignoreX) && (y =? ignoreY) then
              placeMines ignoreX ignoreY placed g rs2
            else
              match setGridValue 9 x y g with
              | None => Panic
              | Some (g', true) => placeMines ignoreX ignoreY (u16 (placed + 1)) g' rs2
              | Some (g', false) => placeMines ignoreX ignoreY placed g' rs2
              end
          end
        end
      end
    end
  else Ret g rs.

(** [countMines] around a tile *)
Definition countMines (g : Game) (x y : Z) : option Z :=
  let h := boardHeight g in
  let w := boardWidth g in
  for_each offsets (fun '(i, j) total =>
    let y2 := y + j in
    let x2 := x + i in
    if outside w h x2 y2 then Some total
    else
      match idx (grid g) (index w x2 y2) with
      | None => None
      | Some t => if 9 =? value t then Some (u8 (total + 1)) else Some total
      end) 0.

(** [numberGrid] sets grid values from 1-8 *)
Definition numberGrid (g : Game) : option Game :=
  let h := boardHeight g in
  let w := boardWidth g in
  for_each (seqZ 0 w) (fun x g =>
    for_each (seqZ 0 h) (fun y g =>
      let i := index w x y in
      match idx (grid g) i with
      | None => None
      | Some t =>
        if 9 =? value t then Some g
        else
          match countMines g (u16 x) (u16 y) with
          | None => None
          | Some n => Some (upd_tile i (set_value n) g)
          end
      end) g) g.

Definition addMinesToGrid (ignoreX ignoreY : Z) (s : world) : res world unit :=
  let g := set_grid (make zero_tile (u16 (boardHeight (game s) * boardWidth (game s)))) (game s) in
  match placeMines ignoreX ignoreY 0 g (rand s) with
  | Ret g' rs' =>
    match numberGrid g' with
    | Some g'' => Ret tt (World g'' rs')
    | None => Panic
    end
  | Panic => Panic
  | Exhausted => Exhausted
  | Starved => Starved
  end.

(** ** countFlags *)

Definition countFlags (g : Game) (x y : Z) : option Z :=
  let h := boardHeight g in
  let w := boardWidth g in
  for_each offsets (fun '(i, j) total =>
    let y2 := y + j in
    let x2 := x + i in
    if outside w h x2 y2 then Some total
    else
      match idx (grid g) (index w x2 y2) with
      | None => None
      | Some t => if flagged t then Some (u8 (total + 1)) else Some total
      end) 0.

(** ** clickNeighbors and ClickTile *)

Section Recursion.

(** [g.ClickTile], as [clickNeighbors] calls it. *)
Variable ClickTile : Z -> Z -> bool -> world -> res world (option string).

(** One round of the loop of [clickNeighbors], for the offset [(i, j)]:
    the neighbor is read from the live grid; the error a call returns is
    dropped. *)
Definition clickNeighbor (w h : Z) (x y : Z) (ij : Z * Z) (s : world) : res world unit :=
  let '(i, j) := ij in
  let y2 := y + j in
  let x2 := x + i in
  if outside w h x2 y2 then Ret tt s
  else
    match idx (grid (game s)) (index16 (boardWidth (game s)) (u16 x2) (u16 y2)) with
    | None => Panic
    | Some t =>
      if negb (clicked t) && negb (flagged t) then
        match ClickTile (u16 x2) (u16 y2) false s with
        | Ret _ s' => Ret tt s'
        | Panic => Panic
        | Exhausted => Exhausted
        | Starved => Starved
        end
      else Ret tt s
    end.

Definition clickNeighbors (x y : Z) (s : world) : res world unit :=
  let h := boardHeight (game s) in
  let w := boardWidth (game s) in
  for_each_res offsets (clickNeighbor w h x y) s.

(** The win check at the end of [ClickTile]. *)
Definition winCheck (now : Z) (g : Game) : Game :=
  if IsZero (endTime g) then
    if scan (grid g) =? Z.of_nat (length (grid g)) then End true now g else g
  else g.

(** [ClickTile] from [tile := &g.grid[g.boardWidth*y+x]] on. *)
Definition act (now : Z) (x y : Z) (flag : bool) (s : world)
    : res world (option string) :=
  let i := index16 (boardWidth (game s)) x y in
  match idx (grid (game s)) i with
  | None => Panic
  | Some t =>
    let r :=
      if clicked t then
        if negb flag then
          match countFlags (game s) x y with
          | None => Panic
          | Some f => if f =? value t then clickNeighbors x y s else Ret tt s
          end
        else Ret tt s
      else if negb (flagged t) then
        if flag then
          Ret tt (on_game (fun g => set_flags (u16 (flags g + 1))
                                      (upd_tile i (set_flagged true) g)) s)
        else
          let s2 := on_game (upd_tile i (set_clicked true)) s in
          if 9 =? value t then Ret tt (on_game (set_endTime (Some now)) s2)
          else if 0 =? value t then clickNeighbors x y s2
          else Ret tt s2
      else if flagged t && flag then
        Ret tt (on_game (fun g => set_flags (u16 (flags g - 1))
                                    (upd_tile i (set_flagged false) g)) s)
      else Ret tt s
    in
    match r with
    | Ret _ s3 => Ret None (on_game (winCheck now) s3)
    | Panic => Panic
    | Exhausted => Exhausted
    | Starved => Starved
    end
  end.

Definition ClickTile_body (now : Z) (x y : Z) (flag : bool) (s : world)
    : res world (option string) :=
  let g := game s in
  if boardWidth g <=? x then Ret (Some "X cannot be larger than the board width") s
  else if boardHeight g <=? y then Ret (Some "Y cannot be larger than the board height") s
  else
    match (if 0 =? Z.of_nat (length (grid g)) then addMinesToGrid x y s else Ret tt s) with
    | Ret _ s1 =>
      if negb (IsZero (endTime (game s1))) then Ret (Some "Game is not active") s1
      else act now x y flag s1
    | Panic => Panic
    | Exhausted => Exhausted
    | Starved => Starved
    end.

End Recursion.

(** [ClickTile] with a budget for the depth of its recursion through
    [clickNeighbors]. *)
Fixpoint ClickTile (fuel : nat) (now : Z) (x y : Z) (flag : bool) (s : world)
    : res world (option string) :=
  match fuel with
  | O => Exhausted
  | S fuel' => ClickTile_body (ClickTile fuel' now) now x y flag s
  end.

(** ** JSON *)

Definition JSON (g : Game) : option view :=
  let ended := negb (IsZero (endTime g)) in
  let lost := negb (won g) && ended in
  match labels lost (won g) (u16 (boardHeight g * boardWidth g)) (grid g) with
  | None => None
  | Some grid =>
    Some (View (startTime g) (totalMines g) (boardHeight g) (boardWidth g)
               (if ended && won g then totalMines g else flags g)
               (if ended then endTime g else None)
               (if ended && won g then Some true else None)
               grid)
  end.

End Game.

(** * Notions the properties are stated with *)

(** Counting the elements of a slice that pass a test. *)
Fixpoint countb {A} (p : A -> bool) (l : list A) : nat :=
  match l with
  | [] => 0
  | a :: l' => if p a then S (countb p l') else countb p l'
  end.

(** The win scan counts; it reaches the length exactly when every tile
    is clicked or a mine. *)
Definition done_tile (t : tile) : bool := clicked t || isMine t.

(** A tile may only gain its click while neighbors are opened. *)
Definition tile_le (t t' : tile) : Prop :=
  value t = value t' /\ flagged t = flagged t' /\ (clicked t = true -> clicked t' = true).

(** The tiles that are not clicked yet. *)
Definition unclicked (ts : list tile) : nat := countb (fun t => negb (clicked t)) ts.

(** ** The disclosure table of the view *)

Inductive outcome : Type := InProgress | Won | Lost.

Inductive symbol : Type :=
| RevealedMine
| IncorrectFlag
| Marker
| Hidden
| EmptyOpened
| Count (n : Z).

(** How the view writes a symbol. *)
Definition encode (s : symbol) : string :=
  match s with
  | RevealedMine => "9"
  | IncorrectFlag => "X"
  | Marker => "!"
  | Hidden => "?"
  | EmptyOpened => ""
  | Count n => pretty n
  end.

(** The rows of the table, each with the rows above it excluded. *)
Inductive disclosure (o : outcome) (t : tile) : symbol -> Prop :=
| row_mine :
    o = Lost -> value t = 9 -> flagged t = false ->
    disclosure o t RevealedMine
| row_wrong :
    o = Lost -> value t <> 9 -> flagged t = true ->
    disclosure o t IncorrectFlag
| row_marker :
    flagged t = true \/ (o = Won /\ value t = 9) ->
    ~ (o = Lost /\ value t = 9 /\ flagged t = false) ->
    ~ (o = Lost /\ value t <> 9 /\ flagged t = true) ->
    disclosure o t Marker
| row_hidden :
    clicked t = false ->
    flagged t = false -> ~ (o = Won /\ value t = 9) ->
    ~ (o = Lost /\ value t = 9) ->
    disclosure o t Hidden
| row_empty :
    clicked t = true -> value t = 0 ->
    flagged t = false ->
    disclosure o t EmptyOpened
| row_count :
    clicked t = true -> 1 <= value t <= 8 ->
    flagged t = false ->
    disclosure o t (Count (value t)).

Module MinesSpec.
Import Mines.

(** The outcome of a game: in progress until [endedAt] is set, then won
    or lost by the flag [won]. *)
Definition outcome_of (g : Game) : outcome :=
  if IsZero (endedAt g) then InProgress else if won g then Won else Lost.

Definition ended (g : Game) : Prop := endedAt g <> None.

(** The keys of the history are [0 .. len-1]. *)
Definition contiguous (h : gmap Z turn) : Prop :=
  forall k, is_Some (h !! k) <-> 0 <= k < Z.of_nat (size h).

(** The shape of a game: dimensions within the limits of [NewGame], turns
    stored under consecutive keys, each with a full grid. *)
Record WF (g : Game) : Prop := {
  wf_width : 1 <= width g <= 250;
  wf_height : 1 <= height g <= 250;
  wf_mines : 0 <= mines g <= width g * height g - 2;
  wf_keys : contiguous (history g);
  wf_tiles : forall k t, history g !! k = Some t ->
             Z.of_nat (length (tiles t)) = width g * height g
}.

(** [g.history[len(g.history)] = t] *)
Definition push (t : turn) (g : Game) : Game :=
  set_history (<[hlen g := t]> (history g)) g.

(** What one call of [ClickTile] that opens tiles does to the game, step
    by step: it records a turn that copies the last one, clicks a tile of
    that turn, ends the game on a mine, or ends it as won. *)
Inductive rstep : Game -> Game -> Prop :=
| rs_push g x y flag now :
    0 < hlen g ->
    rstep g (push (Turn x y flag (Some now) (latest g)) g)
| rs_click g i t :
    endedAt g = None -> idx (latest g) i = Some t ->
    clicked t = false -> flagged t = false -> value t <> 9 ->
    rstep g (upd_tile (hlen g - 1) i (set_clicked true) g)
| rs_boom g i t now :
    endedAt g = None -> idx (latest g) i = Some t ->
    clicked t = false -> flagged t = false -> value t = 9 ->
    rstep g (set_endedAt (Some now) (upd_tile (hlen g - 1) i (set_clicked true) g))
| rs_win g now :
    endedAt g = None ->
    rstep g (End true now g).

Definition rsteps : Game -> Game -> Prop := rtc rstep.

(** What a run of such steps keeps and what it may only extend. *)
Record ext (g g' : Game) : Prop := {
  ext_uid : uid g' = uid g;
  ext_width : width g' = width g;
  ext_height : height g' = height g;
  ext_mines : mines g' = mines g;
  ext_flags : flags g' = flags g;
  ext_startedAt : startedAt g' = startedAt g;
  ext_grid : grid g' = grid g;
  ext_hlen : hlen g <= hlen g';
  ext_history : forall k, k < hlen g - 1 -> history g' !! k = history g !! k;
  ext_latest : Forall2 tile_le (latest g) (latest g');
  ext_endedAt : forall t, endedAt g = Some t -> endedAt g' = Some t;
  ext_won : won g = true -> won g' = true
}.

(** What any call keeps of a game with turns: the dimensions, the
    turns below the last one, and the value of every tile. *)
Record grows (g g' : Game) : Prop := {
  gr_width : width g' = width g;
  gr_height : height g' = height g;
  gr_mines : mines g' = mines g;
  gr_hlen : hlen g <= hlen g';
  gr_history : forall k, k < hlen g - 1 -> history g' !! k = history g !! k;
  gr_values : value <$> latest g' = value <$> latest g;
  gr_clicked : Forall2 (fun t t' => clicked t = true -> clicked t' = true)
                       (latest g) (latest g')
}.

(** The invariant of the game that every step keeps. *)
Record Inv0 (g : Game) : Prop := {
  inv_wf : WF g;
  inv_values : Forall (fun t => 0 <= value t <= 9) (latest g);
  inv_flags : flags g = Z.of_nat (countb flagged (latest g));
  inv_won : won g = true -> ended g;
  inv_boom : forall t, t ∈ latest g -> clicked t = true -> value t = 9 -> ended g;
  inv_lost : ended g -> won g = false ->
             exists t, t ∈ latest g /\ clicked t = true /\ value t = 9
}.

(** The win check has run: a game that goes on has a tile left that is
    neither clicked nor a mine. *)
Definition settled (g : Game) : Prop :=
  ended g \/ scan (latest g) <> Z.of_nat (length (latest g)).

Definition checked (g : Game) : Prop := 0 < hlen g -> settled g.

(** The tile at [(x, y)] of the last turn. *)
Definition tile_at (g : Game) (x y : Z) : option tile :=
  idx (latest g) (index (width g) x y).

(** Whether the tile at [(x2, y2)] is on the board and flagged. *)
Definition flagged_at (g : Game) (x2 y2 : Z) : bool :=
  if outside (width g) (height g) x2 y2 then false
  else match tile_at g x2 y2 with
       | Some t => flagged t
       | None => false
       end.

(** The number of flagged neighbors of [(x, y)]. *)
Definition flag_count (g : Game) (x y : Z) : Z :=
  Z.of_nat (countb (fun '(i, j) => flagged_at g (x + i) (y + j)) offsets).

(** The turns recorded in [g] are kept as they are in [g']. *)
Definition frame (g g' : Game) : Prop :=
  forall k, k < hlen g -> history g' !! k = history g !! k.

Definition Inv (g : Game) : Prop := Inv0 g /\ checked g.

(** The worlds a server can be in: a new game, then any calls of
    [ClickTile] that return, and of [End]. *)
Inductive reachable : world -> Prop :=
| reach_new uid now w h m g rs :
    0 <= w < 65536 -> 0 <= h < 65536 -> 0 <= m < 65536 ->
    NewGame uid now w h m = inr g ->
    reachable (World g rs)
| reach_click s fuel now x y flag e s' :
    reachable s -> 0 <= x < 65536 -> 0 <= y < 65536 ->
    ClickTile fuel now x y flag s = Ret e s' ->
    reachable s'
| reach_end s b now :
    reachable s ->
    reachable (on_game (End b now) s).

End MinesSpec.

(** * Facts about slices, machine integers and loops *)

Lemma u16_small z : 0 <= z < 65536 -> u16 z = z.
Proof. intros H. unfold u16. apply Z.mod_small. exact H. Qed.

Lemma u8_small z : 0 <= z < 256 -> u8 z = z.
Proof. intros H. unfold u8. apply Z.mod_small. exact H. Qed.

Lemma index_bound w h x y :
  0 <= x < w -> 0 <= y < h -> 0 <= index w x y < w * h.
Proof. unfold index. nia. Qed.

Lemma index16_small w h x y :
  0 < w <= 250 -> 0 < h <= 250 -> 0 <= x < w -> 0 <= y < h ->
  index16 w x y = index w x y.
Proof.
  intros Hw Hh Hx Hy. unfold index16, index.
  rewrite (u16_small (w * y)) by nia. apply u16_small. nia.
Qed.

Lemma index_inj w x y x' y' :
  0 <= x < w -> 0 <= x' < w -> index w x y = index w x' y' -> x = x' /\ y = y'.
Proof. unfold index. intros Hx Hx' H. assert (y = y') by nia. split; [nia | done]. Qed.

Lemma idx_lookup {A} (l : list A) i : 0 <= i -> idx l i = l !! Z.to_nat i.
Proof. intros H. unfold idx. destruct (Z.ltb_spec i 0); [lia | done]. Qed.

Lemma idx_is_Some {A} (l : list A) i :
  0 <= i < Z.of_nat (length l) -> is_Some (idx l i).
Proof.
  intros H. rewrite idx_lookup by lia. apply lookup_lt_is_Some. lia.
Qed.

Lemma idx_Some_inv {A} (l : list A) i a :
  idx l i = Some a -> 0 <= i < Z.of_nat (length l) /\ l !! Z.to_nat i = Some a.
Proof.
  unfold idx. destruct (Z.ltb_spec i 0) as [Hneg | Hpos]; [done |]. intros Hl.
  split; [| done]. apply lookup_lt_Some in Hl. lia.
Qed.

Lemma length_make {A} (a : A) n : length (make a n) = Z.to_nat n.
Proof. apply length_replicate. Qed.

Lemma copy_same_length {A} (dst src : list A) :
  length dst = length src -> copy dst src = src.
Proof.
  intros H. unfold copy. rewrite take_ge by lia. rewrite drop_ge by lia.
  apply app_nil_r.
Qed.

Lemma offsets_eq :
  offsets = [(-1, -1); (0, -1); (1, -1); (-1, 0); (1, 0); (-1, 1); (0, 1); (1, 1)].
Proof. reflexivity. Qed.

Lemma offsets_spec i j :
  (i, j) ∈ offsets <-> -1 <= i <= 1 /\ -1 <= j <= 1 /\ (i, j) <> (0, 0).
Proof.
  rewrite offsets_eq. rewrite !elem_of_cons, elem_of_nil. split.
  - intros H.
    repeat (destruct H as [H | H];
            [inversion H; subst; repeat split; (lia || congruence) |]).
    done.
  - intros (Hi & Hj & Hne).
    assert (i = -1 \/ i = 0 \/ i = 1) as [-> | [-> | ->]] by lia;
    assert (j = -1 \/ j = 0 \/ j = 1) as [-> | [-> | ->]] by lia; tauto.
Qed.

Lemma outside_false w h x y : outside w h x y = false <-> 0 <= x < w /\ 0 <= y < h.
Proof.
  unfold outside. rewrite !orb_false_iff, !Z.gtb_ltb, !Z.geb_leb.
  rewrite !Z.ltb_ge, !Z.leb_gt. intuition lia.
Qed.

Lemma countb_le {A} (p : A -> bool) l : (countb p l <= length l)%nat.
Proof. induction l as [| a l IH]; simpl; [lia |]. destruct (p a); lia. Qed.

Lemma countb_all {A} (p : A -> bool) l :
  countb p l = length l <-> Forall (fun a => p a = true) l.
Proof.
  induction l as [| a l IH]; simpl.
  - split; [constructor | done].
  - pose proof (countb_le p l). destruct (p a) eqn:E.
    + rewrite Forall_cons. split; [intros H1; split; [done | apply IH; lia] |].
      intros [_ H1]. f_equal. by apply IH.
    + split; [lia |]. intros H1. apply Forall_cons in H1 as [H1 _]. congruence.
Qed.

Lemma countb_app {A} (p : A -> bool) l1 l2 :
  countb p (l1 ++ l2) = (countb p l1 + countb p l2)%nat.
Proof. induction l1 as [| a l1 IH]; simpl; [done |]. destruct (p a); lia. Qed.

Lemma scan_from n ts :
  foldl (fun total t => if clicked t || isMine t then total + 1 else total) n ts
  = n + Z.of_nat (countb done_tile ts).
Proof.
  revert n. induction ts as [| t ts IH]; intros n; simpl; [lia |].
  rewrite IH. fold (done_tile t). destruct (done_tile t); lia.
Qed.

Lemma scan_count ts : scan ts = Z.of_nat (countb done_tile ts).
Proof. unfold scan. rewrite scan_from. lia. Qed.

Lemma scan_all ts :
  scan ts = Z.of_nat (length ts) <-> Forall (fun t => done_tile t = true) ts.
Proof.
  rewrite scan_count, <- countb_all. split; [apply Nat2Z.inj | congruence].
Qed.

(** * Package mines: the history and the steps of a call *)

Module MinesHist.
Import Mines MinesSpec.

Lemma contiguous_empty : contiguous ∅.
Proof.
  intros k. rewrite lookup_empty, map_size_empty. split; [by intros [? ?] | simpl; lia].
Qed.

Lemma contiguous_fresh (h : gmap Z turn) :
  contiguous h -> h !! Z.of_nat (size h) = None.
Proof.
  intros Hc. apply eq_None_not_Some. intros H. apply Hc in H. lia.
Qed.

Lemma size_push (h : gmap Z turn) t :
  contiguous h -> size (<[Z.of_nat (size h) := t]> h) = S (size h).
Proof. intros Hc. apply map_size_insert_None. by apply contiguous_fresh. Qed.

Lemma contiguous_push (h : gmap Z turn) t :
  contiguous h -> contiguous (<[Z.of_nat (size h) := t]> h).
Proof.
  intros Hc k. rewrite size_push by done. rewrite lookup_insert_is_Some, (Hc k).
  destruct (decide (Z.of_nat (size h) = k)); lia.
Qed.

Lemma size_alter (h : gmap Z turn) f k : size (alter f k h) = size h.
Proof. rewrite <- !size_dom. by rewrite dom_alter_L. Qed.

Lemma contiguous_alter (h : gmap Z turn) f k :
  contiguous h -> contiguous (alter f k h).
Proof.
  intros Hc j. rewrite size_alter, <- (Hc j). by rewrite lookup_alter_is_Some.
Qed.

Lemma hlen_nonneg g : 0 <= hlen g.
Proof. unfold hlen. lia. Qed.

Lemma hlen_push g t : contiguous (history g) -> hlen (push t g) = hlen g + 1.
Proof. intros Hc. unfold hlen, push. simpl. fold (hlen g). unfold hlen. rewrite size_push by done. lia. Qed.

Lemma turn_at_push g t k :
  turn_at (push t g) k = if decide (k = hlen g) then t else turn_at g k.
Proof.
  unfold turn_at, push. simpl. destruct (decide (k = hlen g)) as [-> | Hne].
  - by rewrite lookup_insert_eq.
  - by rewrite lookup_insert_ne.
Qed.

Lemma latest_push g t : contiguous (history g) -> latest (push t g) = tiles t.
Proof.
  intros Hc. unfold latest. rewrite hlen_push by done. rewrite turn_at_push.
  destruct (decide (hlen g + 1 - 1 = hlen g)); [done | lia].
Qed.

Lemma hlen_upd_tile k i f g : hlen (upd_tile k i f g) = hlen g.
Proof. unfold hlen, upd_tile. simpl. by rewrite size_alter. Qed.

Lemma tiles_upd_tile k i f g k' :
  tiles (turn_at (upd_tile k i f g) k')
  = if decide (k = k') then alter f (Z.to_nat i) (tiles (turn_at g k))
    else tiles (turn_at g k').
Proof.
  unfold turn_at, upd_tile. simpl. destruct (decide (k = k')) as [<- | Hne].
  - rewrite lookup_alter_eq. by destruct (history g !! k).
  - by rewrite lookup_alter_ne.
Qed.

Lemma latest_upd_tile i f g :
  latest (upd_tile (hlen g - 1) i f g) = alter f (Z.to_nat i) (latest g).
Proof.
  unfold latest. rewrite hlen_upd_tile, tiles_upd_tile.
  by destruct (decide (hlen g - 1 = hlen g - 1)).
Qed.

Lemma history_upd_tile_ne k i f g k' :
  k <> k' -> history (upd_tile k i f g) !! k' = history g !! k'.
Proof. intros Hne. unfold upd_tile. simpl. by rewrite lookup_alter_ne. Qed.

Lemma history_push_ne g t k :
  k <> hlen g -> history (push t g) !! k = history g !! k.
Proof. intros Hne. unfold push. simpl. by rewrite lookup_insert_ne. Qed.

Lemma latest_length g : WF g -> 0 < hlen g ->
  Z.of_nat (length (latest g)) = width g * height g.
Proof.
  intros Hwf Hl. unfold latest, turn_at.
  destruct (wf_keys _ Hwf (hlen g - 1)) as [_ Hk].
  destruct Hk as [t Ht]; [unfold hlen in *; lia |].
  rewrite Ht. simpl. by apply (wf_tiles _ Hwf) in Ht.
Qed.

Lemma turn_at_length g k : WF g -> 0 <= k < hlen g ->
  Z.of_nat (length (tiles (turn_at g k))) = width g * height g.
Proof.
  intros Hwf Hl. unfold turn_at.
  destruct (wf_keys _ Hwf k) as [_ Hk].
  destruct Hk as [t Ht]; [unfold hlen in *; lia |].
  rewrite Ht. simpl. by apply (wf_tiles _ Hwf) in Ht.
Qed.

(** ** The shape is kept *)

Lemma WF_push g t :
  WF g -> Z.of_nat (length (tiles t)) = width g * height g -> WF (push t g).
Proof.
  intros [Hw Hh Hm Hk Ht] Hlen. split; simpl; try done.
  - by apply contiguous_push.
  - intros k t'. unfold hlen. rewrite lookup_insert_Some.
    intros [[_ <-] | [_ H]]; [done | by eapply Ht].
Qed.

Lemma WF_upd_tile g k i f : WF g -> WF (upd_tile k i f g).
Proof.
  intros [Hw Hh Hm Hk Ht]. split; simpl; try done.
  - by apply contiguous_alter.
  - intros k' t'. rewrite lookup_alter_Some.
    intros [(_ & t0 & H0 & ->) | [_ H]]; [| by eapply Ht].
    simpl. rewrite length_alter. by eapply Ht.
Qed.

Lemma WF_set_endedAt g t : WF g -> WF (set_endedAt t g).
Proof. intros [Hw Hh Hm Hk Ht]. by split. Qed.

Lemma WF_set_won g b : WF g -> WF (set_won b g).
Proof. intros [Hw Hh Hm Hk Ht]. by split. Qed.

Lemma WF_set_flags g n : WF g -> WF (set_flags n g).
Proof. intros [Hw Hh Hm Hk Ht]. by split. Qed.

Lemma WF_End g b now : WF g -> WF (End b now g).
Proof. intros H. unfold End. by apply WF_set_won, WF_set_endedAt. Qed.

Lemma rstep_WF g g' : rstep g g' -> WF g -> WF g'.
Proof.
  intros Hs Hwf. destruct Hs.
  - apply WF_push; [done |]. simpl. by apply latest_length.
  - by apply WF_upd_tile.
  - by apply WF_set_endedAt, WF_upd_tile.
  - by apply WF_End.
Qed.

Lemma rsteps_WF g g' : rsteps g g' -> WF g -> WF g'.
Proof. induction 1; eauto using rstep_WF. Qed.

End MinesHist.

(** * Tiles that only gain clicks *)

Lemma tile_le_refl t : tile_le t t.
Proof. by repeat split. Qed.

Lemma tile_le_trans t1 t2 t3 : tile_le t1 t2 -> tile_le t2 t3 -> tile_le t1 t3.
Proof.
  intros (Hv1 & Hf1 & Hc1) (Hv2 & Hf2 & Hc2). repeat split; [congruence .. | auto].
Qed.

Lemma tiles_le_refl ts : Forall2 tile_le ts ts.
Proof. apply Forall_Forall2_diag, Forall_forall. intros. apply tile_le_refl. Qed.

Lemma tiles_le_trans ts1 ts2 ts3 :
  Forall2 tile_le ts1 ts2 -> Forall2 tile_le ts2 ts3 -> Forall2 tile_le ts1 ts3.
Proof. apply Forall2_trans. exact tile_le_trans. Qed.

Lemma tiles_le_click ts i :
  Forall2 tile_le ts (alter (set_clicked true) i ts).
Proof.
  apply Forall2_alter_r; [apply tiles_le_refl |].
  intros x y _ _ (Hv & Hf & Hc). by repeat split.
Qed.

Lemma tiles_le_unclicked ts ts' :
  Forall2 tile_le ts ts' -> (unclicked ts' <= unclicked ts)%nat.
Proof.
  unfold unclicked. induction 1 as [| t t' ts ts' (_ & _ & Hc) _ IH]; simpl; [lia |].
  destruct (clicked t) eqn:E; simpl.
  - rewrite Hc by done. simpl. lia.
  - destruct (clicked t'); simpl; lia.
Qed.

Lemma tiles_le_unclicked_lt ts ts' i t t' :
  Forall2 tile_le ts ts' -> ts !! i = Some t -> ts' !! i = Some t' ->
  clicked t = false -> clicked t' = true ->
  (unclicked ts' < unclicked ts)%nat.
Proof.
  unfold unclicked. intros H. revert i.
  induction H as [| t0 t0' ts ts' (_ & _ & Hc) Hall IH]; intros i Hi Hi' E E'; [done |].
  destruct i as [| i]; simpl in *.
  - injection Hi as ->. injection Hi' as ->. rewrite E, E'. simpl.
    apply tiles_le_unclicked in Hall. unfold unclicked in Hall. lia.
  - specialize (IH i Hi Hi' E E').
    destruct (clicked t0) eqn:E0; simpl.
    + rewrite Hc by done. simpl. lia.
    + destruct (clicked t0'); simpl; lia.
Qed.

Lemma tiles_le_flagged ts ts' :
  Forall2 tile_le ts ts' -> countb flagged ts' = countb flagged ts.
Proof.
  induction 1 as [| t t' ts ts' (_ & Hf & _) _ IH]; simpl; [done |].
  by rewrite <- Hf, IH.
Qed.

Lemma tiles_le_mines ts ts' :
  Forall2 tile_le ts ts' -> countb isMine ts' = countb isMine ts.
Proof.
  induction 1 as [| t t' ts ts' (Hv & _ & _) _ IH]; simpl; [done |].
  assert (isMine t' = isMine t) as -> by (unfold isMine; congruence).
  by rewrite IH.
Qed.

Lemma tiles_le_values ts ts' (P : Z -> Prop) :
  Forall2 tile_le ts ts' -> Forall (fun t => P (value t)) ts ->
  Forall (fun t => P (value t)) ts'.
Proof.
  induction 1 as [| t t' ts ts' (Hv & _ & _) _ IH]; [done |].
  rewrite !Forall_cons. intros [H1 H2]. split; [by rewrite <- Hv | auto].
Qed.

Lemma tiles_le_lookup ts ts' i t :
  Forall2 tile_le ts ts' -> ts !! i = Some t ->
  exists t', ts' !! i = Some t' /\ tile_le t t'.
Proof. intros H Hi. by eapply Forall2_lookup_l. Qed.

Lemma tiles_le_done ts ts' :
  Forall2 tile_le ts ts' -> Forall (fun t => done_tile t = true) ts ->
  Forall (fun t => done_tile t = true) ts'.
Proof.
  induction 1 as [| t t' ts ts' (Hv & _ & Hc) _ IH]; [done |].
  rewrite !Forall_cons. intros [H1 H2]. split; [| auto].
  unfold done_tile, isMine in *. rewrite <- Hv.
  apply orb_true_iff in H1 as [H1 | H1]; [rewrite Hc by done; done |].
  rewrite H1. apply orb_true_r.
Qed.

Lemma elem_of_alter {A} (f : A -> A) i (l : list A) a :
  a ∈ alter f i l -> a ∈ l \/ exists a0, l !! i = Some a0 /\ a = f a0.
Proof.
  intros H. apply list_elem_of_lookup in H as [j Hj].
  destruct (decide (i = j)) as [-> | Hne].
  - rewrite list_lookup_alter_eq in Hj. destruct (l !! j) as [a0 |] eqn:E; [| done].
    injection Hj as <-. right. eauto.
  - rewrite list_lookup_alter_ne in Hj by done. left. eapply list_elem_of_lookup_2, Hj.
Qed.

(** * Package mines: what the steps of a call keep *)

Module MinesSteps.
Import Mines MinesSpec MinesHist.

Lemma rsteps_refl g : rsteps g g.
Proof. apply rtc_refl. Qed.

Lemma rsteps_once g g' : rstep g g' -> rsteps g g'.
Proof. apply rtc_once. Qed.

Lemma rsteps_trans g1 g2 g3 : rsteps g1 g2 -> rsteps g2 g3 -> rsteps g1 g3.
Proof. apply rtc_trans. Qed.

Lemma rsteps_r g1 g2 g3 : rsteps g1 g2 -> rstep g2 g3 -> rsteps g1 g3.
Proof. apply rtc_r. Qed.

Lemma ext_refl g : ext g g.
Proof. split; try done; first [lia | apply tiles_le_refl]. Qed.

Lemma ext_trans g1 g2 g3 : ext g1 g2 -> ext g2 g3 -> ext g1 g3.
Proof.
  intros H1 H2. destruct H1, H2. split; try congruence.
  - lia.
  - intros k Hk. rewrite ext_history1 by lia. by apply ext_history0.
  - by eapply tiles_le_trans.
  - auto.
  - auto.
Qed.

Lemma rstep_ext g g' : WF g -> rstep g g' -> ext g g'.
Proof.
  intros Hwf Hs. pose proof (wf_keys _ Hwf) as Hc. pose proof (hlen_nonneg g).
  destruct Hs; split; simpl; try done; try congruence.
  all: try (intros k Hk; first [apply history_push_ne | apply history_upd_tile_ne]; lia).
  all: try (rewrite hlen_push by done; lia).
  all: try (rewrite hlen_upd_tile; lia).
  all: try (change (hlen (set_endedAt ?t ?g)) with (hlen g); rewrite hlen_upd_tile; lia).
  all: try (change (hlen (End ?b ?t ?g)) with (hlen g); lia).
  all: try change (latest (set_endedAt ?t ?g)) with (latest g).
  all: try change (latest (End ?b ?t ?g)) with (latest g).
  all: try (rewrite latest_push by done; apply tiles_le_refl).
  all: try (rewrite latest_upd_tile; apply tiles_le_click).
  all: try apply tiles_le_refl.
Qed.

Lemma rsteps_ext g g' : WF g -> rsteps g g' -> ext g g'.
Proof.
  intros Hwf H. induction H as [| g1 g2 g3 H12 H23 IH]; [apply ext_refl |].
  eapply ext_trans; [by apply rstep_ext | apply IH]. by eapply rstep_WF.
Qed.

Lemma frame_refl g : frame g g.
Proof. by intros k. Qed.

Lemma frame_trans g1 g2 g3 :
  hlen g1 <= hlen g2 -> frame g1 g2 -> frame g2 g3 -> frame g1 g3.
Proof. intros Hl H1 H2 k Hk. rewrite H2 by lia. by apply H1. Qed.

Lemma frame_push_ext g t g' :
  WF g -> ext (push t g) g' -> frame g g'.
Proof.
  intros Hwf He k Hk. rewrite (ext_history _ _ He).
  - apply history_push_ne. lia.
  - rewrite hlen_push by apply Hwf. lia.
Qed.

Lemma frame_turn_at g g' k : frame g g' -> k < hlen g -> turn_at g' k = turn_at g k.
Proof. intros H Hk. unfold turn_at. by rewrite H. Qed.

(** ** The invariant is kept *)

Lemma ext_ended g g' : ext g g' -> ended g -> ended g'.
Proof.
  intros He. unfold ended. destruct (endedAt g) as [t |] eqn:E; [| done].
  rewrite (ext_endedAt _ _ He t) by done. done.
Qed.

Lemma rstep_Inv0 g g' : rstep g g' -> Inv0 g -> Inv0 g'.
Proof.
  intros Hs HI. pose proof (inv_wf _ HI) as Hwf.
  pose proof (rstep_ext _ _ Hwf Hs) as He.
  split.
  - by eapply rstep_WF.
  - eapply (tiles_le_values _ _ (fun v => 0 <= v <= 9)); [apply He | apply HI].
  - rewrite (ext_flags _ _ He), (tiles_le_flagged _ _ (ext_latest _ _ He)). apply HI.
  - destruct Hs; simpl; try done; apply HI.
  - destruct Hs; try done.
    + rewrite latest_push by apply Hwf. apply HI.
    + rewrite latest_upd_tile. intros t0 Ht0 Hc Hv.
      apply elem_of_alter in Ht0 as [Ht0 | (t1 & Ht1 & ->)].
      * exfalso. by apply (inv_boom _ HI t0 Ht0 Hc Hv).
      * exfalso. apply idx_Some_inv in H0 as [_ H0]. simpl in Hv. congruence.
  - destruct Hs.
    + rewrite latest_push by apply Hwf. apply HI.
    + intros Hen. exfalso. apply Hen. done.
    + intros _ _. change (latest (set_endedAt (Some now) ?g)) with (latest g).
      rewrite latest_upd_tile. apply idx_Some_inv in H0 as [_ H0].
      exists (set_clicked true t). split; [| by split].
      eapply list_elem_of_lookup_2. rewrite list_lookup_alter_eq, H0. done.
    + simpl. done.
Qed.

Lemma rsteps_Inv0 g g' : rsteps g g' -> Inv0 g -> Inv0 g'.
Proof. induction 1; eauto using rstep_Inv0. Qed.

Lemma ext_unclicked g g' : ext g g' -> (unclicked (latest g') <= unclicked (latest g))%nat.
Proof. intros He. apply tiles_le_unclicked, He. Qed.

End MinesSteps.

(** * Package mines: a call that opens tiles *)

Module MinesRun.
Import Mines MinesSpec MinesHist MinesSteps.

Lemma tile_at_is_Some g x y :
  WF g -> 0 < hlen g -> 0 <= x < width g -> 0 <= y < height g ->
  is_Some (tile_at g x y).
Proof.
  intros Hwf Hl Hx Hy. unfold tile_at. apply idx_is_Some.
  rewrite latest_length by done. by apply index_bound.
Qed.

Lemma ext_tile_at g g' x y t :
  ext g g' -> tile_at g x y = Some t ->
  exists t', tile_at g' x y = Some t' /\ tile_le t t'.
Proof.
  intros He. unfold tile_at. rewrite (ext_width _ _ He).
  intros H. apply idx_Some_inv in H as [Hr H].
  rewrite idx_lookup by lia. eapply tiles_le_lookup; [apply He | done].
Qed.

Lemma ext_clicked_at g g' x y :
  ext g g' ->
  (exists t, tile_at g x y = Some t /\ clicked t = true) ->
  exists t', tile_at g' x y = Some t' /\ clicked t' = true.
Proof.
  intros He (t & Ht & Hc). destruct (ext_tile_at _ _ _ _ _ He Ht) as (t' & Ht' & _ & _ & Hle).
  eauto.
Qed.

Lemma unclicked_pos ts i t :
  ts !! i = Some t -> clicked t = false -> (0 < unclicked ts)%nat.
Proof.
  unfold unclicked. revert i. induction ts as [| t0 ts IH]; intros i Hi Hc; [done |].
  simpl. destruct i as [| i]; simpl in Hi.
  - injection Hi as ->. rewrite Hc. simpl. lia.
  - specialize (IH i Hi Hc). destruct (clicked t0); simpl; lia.
Qed.

Lemma ext_unclicked_lt g g' x y t :
  ext g g' -> tile_at g x y = Some t -> clicked t = false ->
  (exists t', tile_at g' x y = Some t' /\ clicked t' = true) ->
  (unclicked (latest g') < unclicked (latest g))%nat.
Proof.
  intros He Ht Hc (t' & Ht' & Hc'). unfold tile_at in *.
  rewrite (ext_width _ _ He) in Ht'.
  apply idx_Some_inv in Ht as [_ Ht]. apply idx_Some_inv in Ht' as [_ Ht'].
  eapply tiles_le_unclicked_lt; [apply He | done ..].
Qed.

(** What a call [click x y false] does when its budget covers the tiles
    that are left: it returns, by steps of the game that keep the turns
    recorded before it, with the win check run, and with the tile clicked
    unless it carries a flag or the game had ended. *)
Record post (g : Game) (x y : Z) (e : option string) (g' : Game) : Prop := {
  post_steps : rsteps g g';
  post_frame : frame g g';
  post_hlen : hlen g < hlen g';
  post_settled : settled g';
  post_error : endedAt g = None -> e = None;
  post_clicked : endedAt g = None ->
    forall t, tile_at g x y = Some t -> flagged t = false ->
    exists t', tile_at g' x y = Some t' /\ clicked t' = true
}.

Definition click_ok (n : nat)
    (click : Z -> Z -> bool -> world -> res world (option string)) : Prop :=
  forall g rs x y,
    WF g -> 0 < hlen g -> 0 <= x < width g -> 0 <= y < height g ->
    ((unclicked (latest g) < n)%nat \/
     ((unclicked (latest g) <= n)%nat /\ endedAt g = None /\
      exists t, tile_at g x y = Some t /\ clicked t = false /\ flagged t = false)) ->
    exists e g', click x y false (World g rs) = Ret e (World g' rs) /\ post g x y e g'.

Section Neighbors.

Variable n : nat.
Variable click : Z -> Z -> bool -> world -> res world (option string).
Hypothesis Hclick : click_ok n click.

Variables (g0 : Game) (rs : list Z) (x y : Z).
Hypothesis Hwf0 : WF g0.
Hypothesis Hlen0 : 0 < hlen g0.
Hypothesis Hx : 0 <= x < width g0.
Hypothesis Hy : 0 <= y < height g0.
Hypothesis Hact : endedAt g0 = None.
Hypothesis Hn : (unclicked (latest g0) <= n)%nat.

(** The state of the loop: nothing has happened yet, or a call has
    clicked a tile and left the win check run. *)
Definition loop_inv (g : Game) : Prop :=
  g = g0 \/ ((unclicked (latest g) < n)%nat /\ settled g).

Lemma clickNeighbor_loop l : forall g,
  rsteps g0 g -> frame g0 g -> loop_inv g ->
  exists g',
    for_each_res l (clickNeighbor click (width g0) (height g0) (hlen g0 - 1) x y)
                 (World g rs) = Ret tt (World g' rs)
    /\ rsteps g g' /\ frame g0 g' /\ loop_inv g'
    /\ forall i j t, (i, j) ∈ l ->
         tile_at g0 (x + i) (y + j) = Some t ->
         0 <= x + i < width g0 -> 0 <= y + j < height g0 ->
         clicked t = false -> flagged t = false ->
         ended g' \/ exists t', tile_at g' (x + i) (y + j) = Some t' /\ clicked t' = true.
Proof.
  induction l as [| [i j] l IH]; intros g Hsteps Hframe Hinv.
  { exists g. repeat split; try done. intros i j t Hin. by apply elem_of_nil in Hin. }
  pose proof (rsteps_WF _ _ Hsteps Hwf0) as Hwf.
  pose proof (rsteps_ext _ _ Hwf0 Hsteps) as Hext.
  simpl. unfold clickNeighbor at 1.
  destruct (outside (width g0) (height g0) (x + i) (y + j)) eqn:Hout.
  { destruct (IH g Hsteps Hframe Hinv) as (g' & Hrun & Hst & Hfr & Hin' & Hnb).
    exists g'. repeat split; try done.
    intros i' j' t Hin Ht Hxi Hyj Hc Hf. apply elem_of_cons in Hin as [Heq | Hin].
    - injection Heq as -> ->.
      assert (outside (width g0) (height g0) (x + i) (y + j) = false) as E
        by (by apply outside_false).
      congruence.
    - by eapply Hnb. }
  apply outside_false in Hout as [Hxi Hyj]. simpl.
  pose proof (wf_width _ Hwf0) as Hw0. pose proof (wf_height _ Hwf0) as Hh0.
  rewrite (ext_width _ _ Hext).
  rewrite !u16_small by lia.
  rewrite (index16_small _ (height g0)) by lia.
  rewrite (frame_turn_at g0 g) by (done || lia).
  fold (latest g0). fold (tile_at g0 (x + i) (y + j)).
  destruct (tile_at_is_Some g0 (x + i) (y + j)) as [t Ht]; try done.
  rewrite Ht.
  destruct (negb (clicked t) && negb (flagged t)) eqn:Hcond.
  2: { destruct (IH g Hsteps Hframe Hinv) as (g' & Hrun & Hst & Hfr & Hin' & Hnb).
       exists g'. repeat split; try done.
       intros i' j' t' Hin Ht' Hxi' Hyj' Hc Hf. apply elem_of_cons in Hin as [Heq | Hin].
       - injection Heq as -> ->. assert (t' = t) as -> by congruence.
         rewrite Hc, Hf in Hcond. done.
       - by eapply Hnb. }
  apply andb_true_iff in Hcond as [Hc Hf].
  apply negb_true_iff in Hc. apply negb_true_iff in Hf.
  destruct (ext_tile_at _ _ _ _ _ Hext Ht) as (tg & Htg & Htv & Htf & Htc).
  destruct (Hclick g rs (x + i) (y + j)) as (e & g2 & Hcall & Hpost).
  { done. }
  { pose proof (ext_hlen _ _ Hext). lia. }
  { rewrite (ext_width _ _ Hext). done. }
  { rewrite (ext_height _ _ Hext). done. }
  { destruct Hinv as [-> | [Hlt _]]; [right | by left].
    split; [done |]. split; [done |]. exists t. done. }
  rewrite Hcall.
  pose proof (rsteps_WF _ _ (post_steps _ _ _ _ _ Hpost) Hwf) as Hwf2.
  pose proof (rsteps_ext _ _ Hwf (post_steps _ _ _ _ _ Hpost)) as Hext2.
  assert (rsteps g0 g2) as Hsteps2 by (eapply rsteps_trans; [done | apply Hpost]).
  assert (frame g0 g2) as Hframe2.
  { eapply frame_trans; [apply Hext | done | apply Hpost]. }
  assert (loop_inv g2) as Hinv2.
  { right. split; [| apply Hpost].
    destruct Hinv as [-> | [Hlt _]].
    - eapply Nat.lt_le_trans; [| apply Hn].
      apply (ext_unclicked_lt g0 g2 (x + i) (y + j) t); [done | done | done |].
      by apply (post_clicked _ _ _ _ _ Hpost Hact t).
    - eapply Nat.le_lt_trans; [| apply Hlt]. by apply ext_unclicked. }
  destruct (IH g2 Hsteps2 Hframe2 Hinv2) as (g' & Hrun & Hst & Hfr & Hin' & Hnb).
  exists g'. split; [done |]. split; [eapply rsteps_trans; [apply Hpost | done] |].
  split; [done |]. split; [done |].
  pose proof (rsteps_ext _ _ Hwf2 Hst) as Hext3.
  intros i' j' t' Hin Ht' Hxi' Hyj' Hc' Hf'. apply elem_of_cons in Hin as [Heq | Hin].
  - injection Heq as -> ->.
    destruct (endedAt g) as [tm |] eqn:Hen.
    + left. eapply ext_ended; [exact Hext3 |]. eapply ext_ended; [exact Hext2 |].
      unfold ended. congruence.
    + right. eapply ext_clicked_at; [exact Hext3 |].
      eapply (post_clicked _ _ _ _ _ Hpost); [done | done | congruence].
  - by eapply Hnb.
Qed.

End Neighbors.


(** ** countFlags *)

Lemma countFlags_loop g x y l :
  WF g -> 0 < hlen g ->
  forall total, 0 <= total -> total + Z.of_nat (length l) < 256 ->
  for_each l (fun '(i, j) total =>
    let y2 := y + j in
    let x2 := x + i in
    if outside (width g) (height g) x2 y2 then Some total
    else
      match idx (latest g) (index (width g) x2 y2) with
      | None => None
      | Some t => if flagged t then Some (u8 (total + 1)) else Some total
      end) total
  = Some (total + Z.of_nat (countb (fun '(i, j) => flagged_at g (x + i) (y + j)) l)).
Proof.
  intros Hwf Hl. induction l as [| [i j] l IH]; intros total Ht Hb; simpl.
  { f_equal. lia. }
  simpl in Hb. unfold flagged_at at 1.
  destruct (outside (width g) (height g) (x + i) (y + j)) eqn:Hout.
  { rewrite IH by lia. done. }
  apply outside_false in Hout as [Hxi Hyj].
  fold (tile_at g (x + i) (y + j)).
  destruct (tile_at_is_Some g (x + i) (y + j)) as [t Htile]; try done.
  rewrite Htile. destruct (flagged t).
  - rewrite u8_small by lia. rewrite IH by lia. f_equal. lia.
  - rewrite IH by lia. done.
Qed.

Lemma countFlags_count g x y :
  WF g -> 0 < hlen g -> countFlags g x y = Some (flag_count g x y).
Proof.
  intros Hwf Hl. unfold flag_count.
  transitivity (Some (0 + Z.of_nat (countb (fun '(i, j) => flagged_at g (x + i) (y + j)) offsets)));
    [| f_equal; lia].
  apply (countFlags_loop g x y offsets Hwf Hl 0); [lia |].
  rewrite offsets_eq. simpl. lia.
Qed.

(** ** The win check *)

Lemma latest_winCheck now k g : latest (winCheck now k g) = latest g.
Proof.
  unfold winCheck. destruct (IsZero (endedAt g)); [| done].
  by destruct (scan (tiles (turn_at g k)) =? Z.of_nat (length (tiles (turn_at g k)))).
Qed.

Lemma width_winCheck now k g : width (winCheck now k g) = width g.
Proof.
  unfold winCheck. destruct (IsZero (endedAt g)); [| done].
  by destruct (scan (tiles (turn_at g k)) =? Z.of_nat (length (tiles (turn_at g k)))).
Qed.

Lemma tile_at_winCheck now k g x y : tile_at (winCheck now k g) x y = tile_at g x y.
Proof. unfold tile_at. by rewrite latest_winCheck, width_winCheck. Qed.

Lemma hlen_winCheck now k g : hlen (winCheck now k g) = hlen g.
Proof.
  unfold winCheck. destruct (IsZero (endedAt g)); [| done].
  by destruct (scan (tiles (turn_at g k)) =? Z.of_nat (length (tiles (turn_at g k)))).
Qed.

Lemma winCheck_steps now k g : rsteps g (winCheck now k g).
Proof.
  unfold winCheck. destruct (endedAt g) eqn:E; simpl; [apply rsteps_refl |].
  destruct (scan (tiles (turn_at g k)) =? Z.of_nat (length (tiles (turn_at g k))));
    [| apply rsteps_refl].
  apply rsteps_once. by constructor.
Qed.

Lemma winCheck_settled now k g :
  tiles (turn_at g k) = latest g \/ settled g -> settled (winCheck now k g).
Proof.
  intros H. unfold winCheck. destruct (endedAt g) eqn:E; simpl.
  { left. unfold ended. congruence. }
  destruct (Z.eqb_spec (scan (tiles (turn_at g k))) (Z.of_nat (length (tiles (turn_at g k)))))
    as [Heq | Hne].
  { left. unfold ended. done. }
  destruct H as [H | H]; [| done]. right. by rewrite <- H.
Qed.

(** ** act, for a click that is no flag *)

Section Act.

Variable n : nat.
Variable click : Z -> Z -> bool -> world -> res world (option string).
Hypothesis Hclick : click_ok n click.

Lemma clickNeighbors_ok g0 rs x y :
  WF g0 -> 0 < hlen g0 -> 0 <= x < width g0 -> 0 <= y < height g0 ->
  endedAt g0 = None -> (unclicked (latest g0) <= n)%nat ->
  exists g',
    clickNeighbors click x y (World g0 rs) = Ret tt (World g' rs)
    /\ rsteps g0 g' /\ frame g0 g' /\ (g' = g0 \/ settled g')
    /\ forall i j t, (i, j) ∈ offsets ->
         tile_at g0 (x + i) (y + j) = Some t ->
         0 <= x + i < width g0 -> 0 <= y + j < height g0 ->
         clicked t = false -> flagged t = false ->
         ended g' \/ exists t', tile_at g' (x + i) (y + j) = Some t' /\ clicked t' = true.
Proof.
  intros Hwf Hl Hx Hy Hact Hn.
  destruct (clickNeighbor_loop n click Hclick g0 rs x y Hwf Hl Hact Hn offsets g0)
    as (g' & Hrun & Hst & Hfr & Hinv & Hnb).
  - apply rsteps_refl.
  - apply frame_refl.
  - by left.
  - exists g'. split; [exact Hrun |]. split; [done |]. split; [done |].
    split; [| done]. destruct Hinv as [-> | [_ H]]; [by left | by right].
Qed.

Lemma act_reveal_ok g1 rs now x y t :
  WF g1 -> 0 < hlen g1 -> 0 <= x < width g1 -> 0 <= y < height g1 ->
  endedAt g1 = None -> tile_at g1 x y = Some t ->
  ((unclicked (latest g1) <= n)%nat \/
   ((unclicked (latest g1) <= S n)%nat /\ clicked t = false /\ flagged t = false)) ->
  exists g',
    act click now (hlen g1 - 1) x y false (World g1 rs) = Ret None (World g' rs)
    /\ rsteps g1 g' /\ settled g'
    /\ (flagged t = false -> exists t', tile_at g' x y = Some t' /\ clicked t' = true).
Proof.
  intros Hwf Hl Hx Hy Hact Ht Hm.
  pose proof (wf_width _ Hwf) as Hw. pose proof (wf_height _ Hwf) as Hh.
  unfold act, on_game. cbn [game rand].
  rewrite (index16_small _ (height g1)) by lia.
  fold (latest g1). fold (tile_at g1 x y). rewrite Ht.
  assert (forall g3, tiles (turn_at g3 (hlen g1 - 1)) = latest g3 \/ settled g3 ->
            rsteps g1 g3 ->
            (flagged t = false -> exists t', tile_at g3 x y = Some t' /\ clicked t' = true) ->
            exists g',
              Ret (S := world) (@None string) (World (winCheck now (hlen g1 - 1) g3) rs)
              = Ret None (World g' rs)
              /\ rsteps g1 g' /\ settled g'
              /\ (flagged t = false ->
                   exists t', tile_at g' x y = Some t' /\ clicked t' = true)) as Hfin.
  { intros g3 H3 Hst3 Hc3. exists (winCheck now (hlen g1 - 1) g3).
    split; [done |]. split; [eapply rsteps_trans; [done | apply winCheck_steps] |].
    split; [by apply winCheck_settled |].
    intros Hf0. rewrite tile_at_winCheck. by apply Hc3. }
  destruct (clicked t) eqn:Hc; cbn [negb andb].
  - (* a clicked tile: the chord *)
    rewrite countFlags_count by done.
    assert ((unclicked (latest g1) <= n)%nat) as Hn.
    { destruct Hm as [Hm | (_ & Hc0 & _)]; [done | congruence]. }
    destruct (flag_count g1 x y =? value t).
    + destruct (clickNeighbors_ok g1 rs x y) as (g' & Hrun & Hst & Hfr & Hinv & _); try done.
      rewrite Hrun. apply (Hfin g'); [| done |].
      * destruct Hinv as [-> | Hs]; [by left | by right].
      * intros _. eapply ext_clicked_at; [by apply rsteps_ext |].
        exists t. done.
    + apply (Hfin g1); [by left | apply rsteps_refl |].
      intros _. exists t. done.
  - destruct (flagged t) eqn:Hf; cbn [negb andb].
    + (* a flagged tile is left alone *)
      apply (Hfin g1); [by left | apply rsteps_refl | done].
    + (* the tile is clicked *)
      remember (upd_tile (hlen g1 - 1) (index (width g1) x y) (set_clicked true) g1)
        as g2 eqn:Eg2.
      assert (latest g2 = alter (set_clicked true) (Z.to_nat (index (width g1) x y)) (latest g1))
        as Hl2 by (subst g2; apply latest_upd_tile).
      assert (exists t', tile_at g2 x y = Some t' /\ clicked t' = true) as Hc2.
      { exists (set_clicked true t). split; [| done]. unfold tile_at in *. rewrite Hl2.
        assert (width g2 = width g1) as -> by (by subst g2).
        apply idx_Some_inv in Ht as [Hr Ht]. rewrite idx_lookup by lia.
        by rewrite list_lookup_alter_eq, Ht. }
      destruct (Z.eqb_spec 9 (value t)) as [H9 | H9].
      * (* a mine *)
        assert (rstep g1 (set_endedAt (Some now) g2)) as Hstep
          by (subst g2; eapply rs_boom; [done | exact Ht | done | done | done]).
        apply (Hfin (set_endedAt (Some now) g2)).
        -- right. by left.
        -- by apply rsteps_once.
        -- intros _. exact Hc2.
      * assert (rstep g1 g2) as Hstep
          by (subst g2; eapply rs_click; [done | exact Ht | done | done | congruence]).
        assert (WF g2) as Hwf2 by (by eapply rstep_WF).
        assert (hlen g2 = hlen g1) as Hlen2 by (subst g2; apply hlen_upd_tile).
        destruct (Z.eqb_spec 0 (value t)) as [H0 | H0].
        -- (* no mine around: the neighbors are opened *)
           assert (width g2 = width g1) as Hw2 by (by subst g2).
           assert (height g2 = height g1) as Hh2 by (by subst g2).
           assert (endedAt g2 = None) as Hact2 by (by subst g2).
           assert ((unclicked (latest g2) <= n)%nat) as Hn2.
           { assert ((unclicked (latest g2) < unclicked (latest g1))%nat) as Hlt.
             { eapply ext_unclicked_lt; [apply rstep_ext; done | exact Ht | done | exact Hc2]. }
             destruct Hm as [Hm | [Hm _]]; lia. }
           destruct (clickNeighbors_ok g2 rs x y) as (g' & Hrun & Hst & Hfr & Hinv & _);
             [done | lia | lia | lia | done | done |].
           rewrite Hrun.
           apply (Hfin g').
           ++ destruct Hinv as [-> | Hs]; [left | by right].
              unfold latest. by rewrite Hlen2.
           ++ eapply rsteps_trans; [by apply rsteps_once | done].
           ++ intros _. eapply ext_clicked_at; [by apply rsteps_ext | exact Hc2].
        -- apply (Hfin g2).
           ++ left. unfold latest. by rewrite Hlen2.
           ++ by apply rsteps_once.
           ++ intros _. exact Hc2.
Qed.

End Act.


(** ** ClickTile on a game that has turns *)

Lemma turnTiles_copy g x y rs :
  WF g -> 0 < hlen g -> turnTiles g x y rs = Ret (latest g) rs.
Proof.
  intros Hwf Hl. unfold turnTiles.
  destruct (Z.eqb_spec 0 (hlen g)) as [E | _]; [lia |].
  f_equal. apply copy_same_length. rewrite length_make.
  pose proof (wf_width _ Hwf). pose proof (wf_height _ Hwf).
  rewrite u16_small by nia. pose proof (latest_length g Hwf Hl). lia.
Qed.

Lemma tile_at_push g t x y :
  WF g -> tiles t = latest g -> tile_at (push t g) x y = tile_at g x y.
Proof.
  intros Hwf Ht. unfold tile_at. rewrite latest_push by apply Hwf. by rewrite Ht.
Qed.

Lemma ClickTile_unfold fuel now x y flag s :
  ClickTile (S fuel) now x y flag s
  = ClickTile_body (ClickTile fuel now) now x y flag s.
Proof. done. Qed.

(** A call on a board with mines placed, in bounds: the part of
    [ClickTile] before [act]. *)
Lemma ClickTile_body_push click now x y flag g rs :
  WF g -> 0 < hlen g -> 0 <= x < width g -> 0 <= y < height g ->
  ClickTile_body click now x y flag (World g rs)
  = let g1 := push (Turn x y flag (Some now) (latest g)) g in
    if negb (IsZero (endedAt g)) then Ret (Some "Game is not active") (World g1 rs)
    else act click now (hlen g) x y flag (World g1 rs).
Proof.
  intros Hwf Hl Hx Hy. unfold ClickTile_body. cbn [game rand].
  destruct (Z.leb_spec (width g) x); [lia |].
  destruct (Z.leb_spec (height g) y); [lia |].
  by rewrite turnTiles_copy.
Qed.

Theorem ClickTile_ok now n : click_ok n (ClickTile n now).
Proof.
  induction n as [| n IH]; intros g rs x y Hwf Hl Hx Hy Hm.
  { exfalso. destruct Hm as [Hm | (Hm & _ & t & Ht & Hc & _)]; [lia |].
    apply idx_Some_inv in Ht as [_ Ht].
    pose proof (unclicked_pos _ _ _ Ht Hc). lia. }
  rewrite ClickTile_unfold, ClickTile_body_push by done. cbv zeta.
  set (tn := Turn x y false (Some now) (latest g)).
  assert (rstep g (push tn g)) as Hpush by (by constructor).
  assert (WF (push tn g)) as Hwf1 by (by eapply rstep_WF).
  assert (hlen (push tn g) = hlen g + 1) as Hl1 by (apply hlen_push, Hwf).
  destruct (endedAt g) as [tm |] eqn:Hen; cbn [IsZero negb].
  - exists (Some "Game is not active"), (push tn g). split; [done |]. split.
    + by apply rsteps_once.
    + eapply frame_push_ext; [done | apply ext_refl].
    + lia.
    + left. unfold ended. simpl. congruence.
    + congruence.
    + congruence.
  - destruct (tile_at_is_Some g x y) as [t Ht]; try done.
    destruct (act_reveal_ok n (ClickTile n now) IH (push tn g) rs now x y t)
      as (g' & Hrun & Hst & Hset & Hcl); try done.
    { lia. }
    { by rewrite tile_at_push. }
    { rewrite latest_push by apply Hwf. simpl.
      destruct Hm as [Hm | (Hm & _ & t0 & Ht0 & Hc0 & Hf0)]; [left; lia | right].
      assert (t0 = t) as -> by congruence. done. }
    exists None, g'. split.
    { rewrite <- Hrun. f_equal. lia. }
    pose proof (rsteps_ext _ _ Hwf1 Hst) as Hext.
    split.
    + eapply rsteps_trans; [by apply rsteps_once | done].
    + by eapply frame_push_ext.
    + pose proof (ext_hlen _ _ Hext). lia.
    + done.
    + done.
    + intros _ t0 Ht0 Hf0. assert (t0 = t) as -> by congruence. by apply Hcl.
Qed.

End MinesRun.

(** * Package mines: generateTiles *)

Lemma countb_insert {A} (p : A -> bool) (l : list A) i a a' :
  l !! i = Some a ->
  (countb p (<[i := a']> l) + (if p a then 1 else 0)
   = countb p l + (if p a' then 1 else 0))%nat.
Proof.
  revert i. induction l as [| b l IH]; intros i Hi; [done |].
  destruct i as [| i]; simpl in *.
  - injection Hi as ->. destruct (p a), (p a'); lia.
  - specialize (IH i Hi). destruct (p b); lia.
Qed.

Lemma Intn_Some n r : 0 < n -> exists v, Intn n r = Some v /\ 0 <= v < n.
Proof.
  intros Hn. unfold Intn. destruct (Z.leb_spec n 0); [lia |].
  eexists. split; [done |]. by apply Z.mod_pos_bound.
Qed.

(** A tile as [make] leaves it, or with a mine put on it. *)
Definition pristine (t : tile) : Prop :=
  (value t = 0 \/ value t = 9) /\ flagged t = false /\ clicked t = false.

(** A tile of the generated grid against the tile the mines loop left. *)
Definition painted (t0 t : tile) : Prop :=
  flagged t = flagged t0 /\ clicked t = clicked t0 /\ isMine t = isMine t0
  /\ 0 <= value t <= 9.

Module MinesGenerate.
Import Mines MinesSpec MinesHist.

Section Place.

Variable g : Game.
Variables ix iy : Z.
Hypothesis Hw : 1 <= width g <= 250.
Hypothesis Hh : 1 <= height g <= 250.
Hypothesis Hm : 0 <= mines g < 65536.
Hypothesis Hix : 0 <= ix < width g.
Hypothesis Hiy : 0 <= iy < height g.

(** What the mines loop keeps: a full grid of pristine tiles, as many
    mines as it has counted, none on the cell to ignore. *)
Record placing (placed : Z) (ts : list tile) : Prop := {
  pl_length : Z.of_nat (length ts) = width g * height g;
  pl_pristine : Forall pristine ts;
  pl_count : placed = Z.of_nat (countb isMine ts);
  pl_ignore : exists t, idx ts (index (width g) ix iy) = Some t /\ value t = 0
}.

Lemma placeMines_post n : forall rs placed ts,
  (length rs <= n)%nat -> placed <= mines g -> placing placed ts ->
  match placeMines g ix iy placed ts rs with
  | Ret ts' rs' => placing (mines g) ts'
  | Starved => True
  | Panic | Exhausted => False
  end.
Proof.
  induction n as [| n IH]; intros rs placed ts Hlen Hle Hpl.
  { destruct rs; [| simpl in Hlen; lia]. cbn [placeMines].
    destruct (Z.ltb_spec placed (mines g)); [done |].
    by replace (mines g) with placed by lia. }
  destruct rs as [| rx [| ry rs2]]; cbn [placeMines];
    destruct (Z.ltb_spec placed (mines g)) as [Hlt | Hge];
    try done; try (by replace (mines g) with placed by lia).
  { destruct (Intn_Some (width g) rx) as (x0 & -> & Hx0); [lia | done]. }
  destruct (Intn_Some (width g) rx) as (x0 & -> & Hx0); [lia |].
  destruct (Intn_Some (height g) ry) as (y0 & -> & Hy0); [lia |].
  cbv zeta. rewrite !u16_small by lia.
  simpl in Hlen.
  destruct ((x0 =? ix) && (y0 =? iy)) eqn:Hig.
  { apply IH; [lia | done | done]. }
  rewrite (index16_small _ (height g)) by lia.
  destruct (idx_is_Some ts (index (width g) x0 y0)) as [t Ht].
  { rewrite (pl_length _ _ Hpl). by apply index_bound. }
  rewrite Ht. apply idx_Some_inv in Ht as [Hr Ht].
  destruct (Z.eqb_spec (value t) 9) as [H9 | H9]; cbn [negb].
  { apply IH; [lia | done | done]. }
  pose proof (pl_count _ _ Hpl) as Hcnt.
  rewrite u16_small by lia.
  apply IH; [lia | lia |].
  destruct Hpl as [Hl Hp Hc (ti & Hti & Hvi)]. split.
  - by rewrite length_insert.
  - apply Forall_insert; [done |].
    pose proof (Forall_lookup_1 _ _ _ _ Hp Ht) as (_ & Hf & Hcl).
    split; [by right | done].
  - pose proof (countb_insert isMine ts _ t (set_value 9 t) Ht) as E.
    assert (isMine t = false) as E1
      by (unfold isMine; destruct (Z.eqb_spec 9 (value t)); congruence).
    assert (isMine (set_value 9 t) = true) as E2 by done.
    rewrite E1, E2 in E. lia.
  - exists ti. split; [| done].
    apply idx_Some_inv in Hti as [Hri Hti]. rewrite idx_lookup by lia.
    rewrite list_lookup_insert_ne; [done |].
    intros E. apply Z2Nat.inj in E; [| lia | lia].
    apply index_inj in E as [-> ->]; [| lia | lia].
    rewrite !Z.eqb_refl in Hig. done.
Qed.

End Place.


Section Number.

Variables w h : Z.
Hypothesis Hw : 1 <= w <= 250.
Hypothesis Hh : 1 <= h <= 250.

Lemma addMine_loop X Y :
  0 <= X < w -> 0 <= Y < h ->
  forall l ts t,
    Z.of_nat (length ts) = w * h ->
    ts !! Z.to_nat (index w X Y) = Some t ->
    0 <= value t -> value t + Z.of_nat (length l) <= 8 ->
    exists t',
      for_each l (addMine w h X Y) ts = Some (<[Z.to_nat (index w X Y) := t']> ts)
      /\ flagged t' = flagged t /\ clicked t' = clicked t
      /\ value t <= value t' <= value t + Z.of_nat (length l).
Proof.
  intros HX HY. pose proof (index_bound w h X Y HX HY) as Hi0.
  induction l as [| [i j] l IH]; intros ts t Hlen Ht Hv Hb.
  { exists t. simpl. rewrite list_insert_id by done. repeat split; lia. }
  cbn [for_each length] in *. unfold addMine at 1.
  destruct (outside w h (X + i) (Y + j)) eqn:Hout.
  { destruct (IH ts t) as (t' & Hrun & Hf & Hc & Hr); try done; [lia |].
    exists t'. repeat split; try done; lia. }
  apply outside_false in Hout as [Hxi Hyj].
  destruct (idx_is_Some ts (index w (X + i) (Y + j))) as [t2 Ht2].
  { rewrite Hlen. by apply index_bound. }
  rewrite Ht2. destruct (9 =? value t2).
  2: { destruct (IH ts t) as (t' & Hrun & Hf & Hc & Hr); try done; [lia |].
       exists t'. repeat split; try done; lia. }
  rewrite idx_lookup by lia. rewrite Ht. rewrite u8_small by lia.
  set (t1 := set_value (value t + 1) t).
  destruct (IH (<[Z.to_nat (index w X Y) := t1]> ts) t1) as (t' & Hrun & Hf & Hc & Hr).
  - by rewrite length_insert.
  - apply list_lookup_insert_eq. lia.
  - simpl. lia.
  - simpl. lia.
  - exists t'. rewrite Hrun, list_insert_insert_eq. simpl in Hr.
    repeat split; try done; lia.
Qed.

Lemma numberTile_step X Y ts0 ts t :
  0 <= X < w -> 0 <= Y < h ->
  Z.of_nat (length ts) = w * h ->
  Forall2 painted ts0 ts ->
  ts !! Z.to_nat (index w X Y) = Some t -> value t = 0 \/ value t = 9 ->
  exists ts',
    numberTile w h X Y ts = Some ts'
    /\ Z.of_nat (length ts') = w * h
    /\ Forall2 painted ts0 ts'
    /\ forall i, i <> Z.to_nat (index w X Y) -> ts' !! i = ts !! i.
Proof.
  intros HX HY Hlen Hp Ht Hv. pose proof (index_bound w h X Y HX HY) as Hi0.
  unfold numberTile. rewrite idx_lookup by lia. rewrite Ht.
  destruct (Z.eqb_spec 9 (value t)) as [H9 | H9].
  { exists ts. done. }
  destruct Hv as [Hv | Hv]; [| congruence].
  destruct (addMine_loop X Y HX HY offsets ts t) as (t' & Hrun & Hf & Hc & Hr);
    [done | done | lia | rewrite offsets_eq; simpl; lia |].
  rewrite offsets_eq in Hr. simpl in Hr.
  exists (<[Z.to_nat (index w X Y) := t']> ts). split; [done |].
  split; [by rewrite length_insert |]. split.
  - destruct (Forall2_lookup_r _ _ _ _ _ Hp Ht) as (t0 & Ht0 & Hf0 & Hc0 & Hm0 & Hr0).
    rewrite <- (list_insert_id ts0 _ t0 Ht0). apply Forall2_insert; [done |].
    repeat split; [congruence | congruence | | lia | lia].
    rewrite <- Hm0. unfold isMine.
    destruct (Z.eqb_spec 9 (value t')), (Z.eqb_spec 9 (value t)); (done || lia).
  - intros i Hne. by rewrite list_lookup_insert_ne.
Qed.

(** The tiles the loops have not come to yet are as the mines loop left
    them. *)
Definition pending (P : Z -> Z -> Prop) (ts : list tile) : Prop :=
  forall x y, 0 <= x < w -> 0 <= y < h -> P x y ->
  exists t, ts !! Z.to_nat (index w x y) = Some t /\ (value t = 0 \/ value t = 9).

Lemma number_column ts0 X : 0 <= X < w ->
  forall n Y ts,
    0 <= Y -> Y + Z.of_nat n = h ->
    Z.of_nat (length ts) = w * h -> Forall2 painted ts0 ts ->
    pending (fun x y => X < x \/ (x = X /\ Y <= y)) ts ->
    exists ts',
      for_each (seqZ Y (Z.of_nat n)) (numberTile w h X) ts = Some ts'
      /\ Z.of_nat (length ts') = w * h /\ Forall2 painted ts0 ts'
      /\ pending (fun x y => X < x) ts'.
Proof.
  intros HX. induction n as [| n IH]; intros Y ts HY Hn Hlen Hp Hpend.
  { exists ts. repeat split; try done. intros x y Hx Hy Hlt. apply Hpend; [done .. | by left]. }
  rewrite seqZ_cons by lia. cbn [for_each].
  destruct (Hpend X Y) as (t & Ht & Hv); [lia | lia | right; lia |].
  destruct (numberTile_step X Y ts0 ts t) as (ts1 & -> & Hlen1 & Hp1 & Hsame); try done; [lia |].
  replace (Z.pred (Z.of_nat (S n))) with (Z.of_nat n) by lia.
  apply (IH (Z.succ Y)); try done; [lia | lia |].
  intros x y Hx Hy Hxy. rewrite Hsame.
  - apply Hpend; [done | done | lia].
  - intros E. apply Z2Nat.inj in E.
    + apply index_inj in E; lia.
    + pose proof (index_bound w h x y Hx Hy). lia.
    + pose proof (index_bound w h X Y). lia.
Qed.

Lemma number_columns ts0 :
  forall n X ts,
    0 <= X -> X + Z.of_nat n = w ->
    Z.of_nat (length ts) = w * h -> Forall2 painted ts0 ts ->
    pending (fun x y => X <= x) ts ->
    exists ts',
      for_each (seqZ X (Z.of_nat n))
        (fun tileX ts => for_each (seqZ 0 h) (fun tileY ts => numberTile w h tileX tileY ts) ts)
        ts = Some ts'
      /\ Z.of_nat (length ts') = w * h /\ Forall2 painted ts0 ts'.
Proof.
  induction n as [| n IH]; intros X ts HX Hn Hlen Hp Hpend.
  { exists ts. done. }
  rewrite seqZ_cons by lia. cbn [for_each].
  destruct (number_column ts0 X) with (n := Z.to_nat h) (Y := 0) (ts := ts)
    as (ts1 & Hrun & Hlen1 & Hp1 & Hpend1); try done; try lia.
  { intros x y Hx Hy Hxy. apply Hpend; [done | done | lia]. }
  rewrite Z2Nat.id in Hrun by lia.
  change (fun tileY ts => numberTile w h X tileY ts) with (numberTile w h X).
  rewrite Hrun.
  replace (Z.pred (Z.of_nat (S n))) with (Z.of_nat n) by lia.
  apply (IH (Z.succ X)); try done; [lia | lia |].
  intros x y Hx Hy Hxy. apply Hpend1; [done | done | lia].
Qed.

Lemma numberTiles_post ts :
  Z.of_nat (length ts) = w * h -> Forall pristine ts ->
  exists ts', numberTiles w h ts = Some ts'
    /\ Z.of_nat (length ts') = w * h /\ Forall2 painted ts ts'.
Proof.
  intros Hlen Hp. unfold numberTiles.
  destruct (number_columns ts (Z.to_nat w) 0 ts) as (ts' & Hrun & Hlen' & Hp'); try done; try lia.
  - apply Forall_Forall2_diag. eapply Forall_impl; [exact Hp |].
    intros t ([Hv | Hv] & _ & _); repeat split; lia.
  - intros x y Hx Hy _.
    destruct (lookup_lt_is_Some_2 ts (Z.to_nat (index w x y))) as [t Ht].
    { pose proof (index_bound w h x y Hx Hy). lia. }
    exists t. split; [done |]. by destruct (Forall_lookup_1 _ _ _ _ Hp Ht) as (Hv & _).
  - rewrite Z2Nat.id in Hrun by lia. eauto.
Qed.

End Number.

(** ** The generated grid *)

(** A full grid, nothing flagged or clicked, [mines g] mines, none of
    them at [(ix, iy)]. *)
Record generated (g : Game) (ix iy : Z) (ts : list tile) : Prop := {
  gen_length : Z.of_nat (length ts) = width g * height g;
  gen_fresh : Forall (fun t => flagged t = false /\ clicked t = false) ts;
  gen_values : Forall (fun t => 0 <= value t <= 9) ts;
  gen_count : Z.of_nat (countb isMine ts) = mines g;
  gen_ignore : exists t, idx ts (index (width g) ix iy) = Some t /\ isMine t = false
}.

Lemma countb_replicate {A} (p : A -> bool) n a :
  p a = false -> countb p (replicate n a) = 0%nat.
Proof. intros H. induction n as [| n IH]; simpl; [done |]. by rewrite H. Qed.

Lemma painted_mines ts0 ts :
  Forall2 painted ts0 ts -> countb isMine ts = countb isMine ts0.
Proof.
  induction 1 as [| t0 t ts0 ts (_ & _ & Hm & _) _ IH]; simpl; [done |].
  by rewrite Hm, IH.
Qed.

Lemma placing_make g ix iy :
  1 <= width g <= 250 -> 1 <= height g <= 250 ->
  0 <= ix < width g -> 0 <= iy < height g ->
  placing g ix iy 0 (make zero_tile (u16 (height g * width g))).
Proof.
  intros Hw Hh Hix Hiy. rewrite u16_small by nia. split.
  - rewrite length_make. lia.
  - apply Forall_replicate. split; [by left | done].
  - unfold make. by rewrite countb_replicate.
  - exists zero_tile. split; [| done]. pose proof (index_bound _ _ _ _ Hix Hiy).
    rewrite idx_lookup by lia. apply lookup_replicate_2. lia.
Qed.

Lemma generateTiles_post g ix iy rs :
  1 <= width g <= 250 -> 1 <= height g <= 250 -> 0 <= mines g < 65536 ->
  0 <= ix < width g -> 0 <= iy < height g ->
  match generateTiles g ix iy rs with
  | Ret ts rs' => generated g ix iy ts
  | Starved => True
  | Panic | Exhausted => False
  end.
Proof.
  intros Hw Hh Hm Hix Hiy. unfold generateTiles.
  pose proof (placeMines_post g ix iy Hw Hh Hm Hix (length rs) rs 0
                (make zero_tile (u16 (height g * width g)))
                (le_n _) (proj1 Hm) (placing_make g ix iy Hw Hh Hix Hiy)) as Hpl.
  destruct (placeMines g ix iy 0 (make zero_tile (u16 (height g * width g))) rs)
    as [ts1 rs1 | | |]; try done.
  destruct Hpl as [Hl1 Hp1 Hc1 (ti & Hti & Hvi)].
  destruct (numberTiles_post (width g) (height g) Hw Hh ts1) as (ts2 & -> & Hl2 & Hp2);
    [done | done |].
  split.
  - done.
  - apply Forall_forall. intros t Hin.
    apply list_elem_of_lookup in Hin as [i Hi].
    destruct (Forall2_lookup_r _ _ _ _ _ Hp2 Hi) as (t0 & Ht0 & Hf & Hc & _).
    destruct (Forall_lookup_1 _ _ _ _ Hp1 Ht0) as (_ & Hf0 & Hc0). split; congruence.
  - apply Forall_forall. intros t Hin.
    apply list_elem_of_lookup in Hin as [i Hi].
    by destruct (Forall2_lookup_r _ _ _ _ _ Hp2 Hi) as (t0 & Ht0 & _ & _ & _ & Hr).
  - by rewrite (painted_mines _ _ Hp2).
  - apply idx_Some_inv in Hti as [Hri Hti].
    destruct (Forall2_lookup_l _ _ _ _ _ Hp2 Hti) as (t & Ht & _ & _ & Hmi & _).
    exists t. split; [by rewrite idx_lookup by lia |].
    rewrite Hmi. unfold isMine. by rewrite Hvi.
Qed.

End MinesGenerate.

(** * A larger budget changes no result *)

Lemma for_each_res_mono {A S} (body body' : A -> S -> res S unit) :
  (forall a s u s', body a s = Ret u s' -> body' a s = Ret u s') ->
  forall l s u s', for_each_res l body s = Ret u s' -> for_each_res l body' s = Ret u s'.
Proof.
  intros Hb. induction l as [| a l IH]; intros s u s' H; simpl in *; [done |].
  destruct (body a s) as [u1 s1 | | |] eqn:E; try done.
  rewrite (Hb _ _ _ _ E). by apply IH.
Qed.

Module MinesMono.
Import Mines.

Definition click_le (c c' : Z -> Z -> bool -> world -> res world (option string)) : Prop :=
  forall x y f s r s', c x y f s = Ret r s' -> c' x y f s = Ret r s'.

Section Mono.

Variables c c' : Z -> Z -> bool -> world -> res world (option string).
Hypothesis Hle : click_le c c'.

Lemma clickNeighbor_mono w h k x y ij s u s' :
  clickNeighbor c w h k x y ij s = Ret u s' ->
  clickNeighbor c' w h k x y ij s = Ret u s'.
Proof.
  unfold clickNeighbor. destruct ij as [i j].
  destruct (outside w h (x + i) (y + j)); [done |].
  destruct (idx _ _) as [t |]; [| done].
  destruct (negb (clicked t) && negb (flagged t)); [| done].
  destruct (c (u16 (x + i)) (u16 (y + j)) false s) as [r s1 | | |] eqn:E; try done.
  by rewrite (Hle _ _ _ _ _ _ E).
Qed.

Lemma clickNeighbors_mono x y s u s' :
  clickNeighbors c x y s = Ret u s' -> clickNeighbors c' x y s = Ret u s'.
Proof.
  unfold clickNeighbors. apply for_each_res_mono.
  intros a s0 u0 s0'. apply clickNeighbor_mono.
Qed.

Lemma act_mono now k x y flag s r s' :
  act c now k x y flag s = Ret r s' -> act c' now k x y flag s = Ret r s'.
Proof.
  unfold act. destruct (idx _ _) as [t |]; [| done].
  destruct (clicked t).
  - destruct (negb flag); [| done].
    destruct (countFlags (game s) x y) as [f |]; [| done].
    destruct (f =? value t); [| done].
    destruct (clickNeighbors c x y s) as [u s1 | | |] eqn:E; try done.
    by rewrite (clickNeighbors_mono _ _ _ _ _ E).
  - destruct (negb (flagged t)); [| done].
    destruct flag; [done |].
    destruct (9 =? value t); [done |].
    destruct (0 =? value t); [| done].
    destruct (clickNeighbors c x y _) as [u s1 | | |] eqn:E; try done.
    by rewrite (clickNeighbors_mono _ _ _ _ _ E).
Qed.

Lemma ClickTile_body_mono now x y flag s r s' :
  ClickTile_body c now x y flag s = Ret r s' ->
  ClickTile_body c' now x y flag s = Ret r s'.
Proof.
  unfold ClickTile_body.
  destruct (width (game s) <=? x); [done |].
  destruct (height (game s) <=? y); [done |].
  destruct (turnTiles (game s) x y (rand s)) as [ts rs' | | |]; try done.
  destruct (negb (IsZero (endedAt (game s)))); [done |].
  apply act_mono.
Qed.

End Mono.

Lemma ClickTile_mono now f : forall f', (f <= f')%nat ->
  click_le (ClickTile f now) (ClickTile f' now).
Proof.
  induction f as [| f IH]; intros f' Hf x y flag s r s' H; [done |].
  destruct f' as [| f']; [lia |].
  simpl in *. eapply ClickTile_body_mono; [| exact H].
  apply IH. lia.
Qed.

End MinesMono.

(** * Package mines: the invariant of the game *)

Lemma countb_alter {A} (p : A -> bool) (f : A -> A) (l : list A) i a :
  l !! i = Some a ->
  (countb p (alter f i l) + (if p a then 1 else 0)
   = countb p l + (if p (f a) then 1 else 0))%nat.
Proof.
  revert i. induction l as [| b l IH]; intros i Hi; [done |].
  destruct i as [| i]; simpl in *.
  - injection Hi as ->. destruct (p a) eqn:E1; destruct (p (f a)) eqn:E2; lia.
  - specialize (IH i Hi). change (list_alter f i l) with (alter f i l).
    destruct (p b); lia.
Qed.

Module MinesTop.
Import Mines MinesSpec MinesHist MinesSteps MinesRun MinesGenerate MinesMono.

Lemma latest_empty g : contiguous (history g) -> hlen g = 0 -> latest g = [].
Proof.
  intros Hc Hl. unfold latest, turn_at. rewrite Hl.
  destruct (history g !! (0 - 1)) as [t |] eqn:E; [| done].
  assert (is_Some (history g !! (0 - 1))) as H by eauto. apply Hc in H. lia.
Qed.

Lemma NewGame_Inv uid now w h m g :
  0 <= w -> 0 <= h -> 0 <= m -> NewGame uid now w h m = inr g -> Inv g.
Proof.
  intros Hw Hh Hm. unfold NewGame.
  destruct (Z.ltb_spec 250 w); [done |].
  destruct (Z.ltb_spec 250 h); [done |].
  destruct (Z.ltb_spec (w * h - 2) m); [done |].
  intros [= <-]. split; [split |].
  - split; simpl; try nia. { apply contiguous_empty. } intros k t. by rewrite lookup_empty.
  - by rewrite latest_empty by (done || apply contiguous_empty).
  - by rewrite latest_empty by (done || apply contiguous_empty).
  - done.
  - rewrite latest_empty by (done || apply contiguous_empty). intros t Ht. by apply elem_of_nil in Ht.
  - intros He. by destruct He.
  - intros Hl. unfold hlen in Hl. simpl in Hl. rewrite map_size_empty in Hl. lia.
Qed.

Lemma End_Inv b now g : Inv g -> Inv (End b now g).
Proof.
  intros [HI Hc]. assert (ended (End b now g)) as He by (by unfold ended).
  split; [split |].
  - apply WF_End, HI.
  - apply HI.
  - apply HI.
  - done.
  - done.
  - simpl. done.
  - intros _. by left.
Qed.

(** ** The first turn *)

Lemma first_turn_Inv0 g x y flag now ts :
  Inv0 g -> hlen g = 0 -> generated g x y ts ->
  Inv0 (push (Turn x y flag (Some now) ts) g).
Proof.
  intros HI Hl Hg. pose proof (inv_wf _ HI) as Hwf.
  pose proof (latest_empty g (wf_keys _ Hwf) Hl) as Hle.
  assert (latest (push (Turn x y flag (Some now) ts) g) = ts) as E
    by (by rewrite latest_push by apply Hwf).
  split; rewrite ?E.
  - apply WF_push; [done |]. apply Hg.
  - apply Hg.
  - simpl. rewrite (inv_flags _ HI), Hle. simpl. f_equal.
    pose proof (gen_fresh _ _ _ _ Hg) as Hf. clear -Hf.
    induction Hf as [| t ts' [Hfl _] _ IH]; simpl; [done |]. by rewrite Hfl.
  - apply HI.
  - intros t Ht Hc. pose proof (gen_fresh _ _ _ _ Hg) as Hf.
    rewrite Forall_forall in Hf. destruct (Hf t Ht). congruence.
  - intros He Hw. destruct (inv_lost _ HI He Hw) as (t & Ht & _).
    rewrite Hle in Ht. by apply elem_of_nil in Ht.
Qed.

(** ** Toggling a flag *)

Lemma hlen_set_flags n g : hlen (set_flags n g) = hlen g.
Proof. done. Qed.

Lemma flag_Inv0 g i t b :
  Inv0 g -> 0 < hlen g -> endedAt g = None ->
  idx (latest g) i = Some t -> clicked t = false -> flagged t = negb b ->
  Inv0 (set_flags (u16 (flags g + (if b then 1 else -1)))
          (upd_tile (hlen g - 1) i (set_flagged b) g)).
Proof.
  intros HI Hl Hen Ht Hc Hf. pose proof (inv_wf _ HI) as Hwf.
  apply idx_Some_inv in Ht as [Hr Ht].
  assert (latest (set_flags (u16 (flags g + (if b then 1 else -1)))
                    (upd_tile (hlen g - 1) i (set_flagged b) g))
          = alter (set_flagged b) (Z.to_nat i) (latest g)) as E
    by apply latest_upd_tile.
  split; rewrite ?E.
  - by apply WF_set_flags, WF_upd_tile.
  - apply Forall_alter; [apply HI | done].
  - simpl. rewrite (inv_flags _ HI).
    pose proof (countb_alter flagged (set_flagged b) _ _ _ Ht) as Hcount.
    pose proof (countb_le flagged (alter (set_flagged b) (Z.to_nat i) (latest g))) as Hle.
    rewrite length_alter in Hle.
    pose proof (latest_length g Hwf Hl) as Hlen.
    pose proof (wf_width _ Hwf). pose proof (wf_height _ Hwf).
    rewrite Hf in Hcount. simpl in Hcount.
    destruct b; simpl in Hcount; rewrite u16_small by nia; lia.
  - apply HI.
  - intros t0 Ht0 Hc0 Hv0. apply elem_of_alter in Ht0 as [Ht0 | (t1 & Ht1 & ->)].
    + by apply (inv_boom _ HI t0).
    + simpl in Hc0. congruence.
  - intros He. exfalso. by apply He.
Qed.

(** ** After the turn is recorded *)

Lemma tiles_le_fmap_value ts ts' :
  Forall2 tile_le ts ts' -> value <$> ts' = value <$> ts.
Proof.
  induction 1 as [| t t' ts ts' (Hv & _ & _) _ IH]; simpl; [done |].
  rewrite Hv. f_equal. exact IH.
Qed.

Lemma fmap_value_alter (f : tile -> tile) (i : nat) (ts : list tile) :
  (forall t, value (f t) = value t) -> value <$> alter f i ts = value <$> ts.
Proof.
  intros Hf. revert i. induction ts as [| t ts IH]; intros [| i]; simpl; try done.
  - by rewrite Hf.
  - f_equal. apply IH.
Qed.

Lemma stays_clicked_refl ts :
  Forall2 (fun t t' : tile => clicked t = true -> clicked t' = true) ts ts.
Proof. apply Forall_Forall2_diag, Forall_forall. auto. Qed.

Lemma stays_clicked_alter (f : tile -> tile) (i : nat) (ts : list tile) :
  (forall t, clicked (f t) = clicked t) ->
  Forall2 (fun t t' => clicked t = true -> clicked t' = true) ts (alter f i ts).
Proof.
  intros Hf. apply Forall2_alter_r; [apply stays_clicked_refl |].
  intros t t' _ _ H Hc. rewrite Hf. auto.
Qed.

Lemma stays_clicked_unclicked ts ts' :
  Forall2 (fun t t' => clicked t = true -> clicked t' = true) ts ts' ->
  (unclicked ts' <= unclicked ts)%nat.
Proof.
  unfold unclicked. induction 1 as [| t t' ts ts' Hc _ IH]; simpl; [lia |].
  destruct (clicked t) eqn:E; simpl.
  - rewrite Hc by done. simpl. lia.
  - destruct (clicked t'); simpl; lia.
Qed.

Lemma grows_refl g : grows g g.
Proof. split; try done; first [lia | apply stays_clicked_refl]. Qed.

Lemma grows_trans g1 g2 g3 : grows g1 g2 -> grows g2 g3 -> grows g1 g3.
Proof.
  intros H1 H2. destruct H1, H2. split; try congruence.
  - lia.
  - intros k Hk. rewrite gr_history1 by lia. by apply gr_history0.
  - eapply Forall2_trans; [| done | done]. auto.
Qed.

Lemma ext_grows g g' : ext g g' -> grows g g'.
Proof.
  intros He. destruct He. split; try done.
  - by apply tiles_le_fmap_value.
  - eapply Forall2_impl; [done |]. by intros t t' (_ & _ & Hc).
Qed.

Lemma flag_grows g n i b :
  grows g (set_flags n (upd_tile (hlen g - 1) i (set_flagged b) g)).
Proof.
  split; try done.
  - rewrite hlen_set_flags, hlen_upd_tile. lia.
  - intros k Hk. simpl. apply history_upd_tile_ne. lia.
  - change (latest (set_flags n ?g)) with (latest g). rewrite latest_upd_tile.
    by apply fmap_value_alter.
  - change (latest (set_flags n ?g)) with (latest g). rewrite latest_upd_tile.
    by apply stays_clicked_alter.
Qed.

Lemma winCheck_grows now k g : WF g -> grows g (winCheck now k g).
Proof. intros Hwf. apply ext_grows, rsteps_ext; [done | apply winCheck_steps]. Qed.

Lemma winCheck_Inv now k g :
  Inv0 g -> 0 < hlen g -> k = hlen g - 1 -> Inv (winCheck now k g).
Proof.
  intros HI Hl ->. split.
  - eapply rsteps_Inv0; [apply winCheck_steps | done].
  - intros _. apply winCheck_settled. by left.
Qed.

Lemma settled_Inv g : Inv0 g -> settled g -> Inv g.
Proof. intros HI Hs. split; [done | by intros _]. Qed.

Lemma Inv_WF g : Inv g -> WF g.
Proof. intros [HI _]. apply HI. Qed.

Lemma unclicked_le_length ts : (unclicked ts <= length ts)%nat.
Proof. apply countb_le. Qed.

Lemma on_game_World f g rs : on_game f (World g rs) = World (f g) rs.
Proof. done. Qed.

Lemma act_flag_ok click g1 rs now x y :
  Inv0 g1 -> 0 < hlen g1 -> 0 <= x < width g1 -> 0 <= y < height g1 ->
  endedAt g1 = None ->
  exists g', act click now (hlen g1 - 1) x y true (World g1 rs) = Ret None (World g' rs)
             /\ Inv g' /\ grows g1 g'.
Proof.
  intros HI Hl Hx Hy Hen. pose proof (inv_wf _ HI) as Hwf.
  pose proof (wf_width _ Hwf) as Hw. pose proof (wf_height _ Hwf) as Hh.
  unfold act. cbn [game rand].
  rewrite (index16_small _ (height g1)) by lia.
  fold (latest g1). fold (tile_at g1 x y).
  destruct (tile_at_is_Some g1 x y) as [t Ht]; try done.
  rewrite Ht. cbn [negb].
  destruct (clicked t) eqn:Hc.
  { eexists. rewrite on_game_World. split; [done |].
    split; [by apply winCheck_Inv | by apply winCheck_grows]. }
  destruct (flagged t) eqn:Hf; cbn [negb andb].
  - eexists. rewrite !on_game_World. split; [done |].
    pose proof (flag_Inv0 g1 _ t false HI Hl Hen Ht Hc Hf) as HI2.
    split.
    + apply winCheck_Inv; [done | |]; rewrite hlen_set_flags, hlen_upd_tile; done.
    + eapply grows_trans; [apply flag_grows | apply winCheck_grows, HI2].
  - eexists. rewrite !on_game_World. split; [done |].
    pose proof (flag_Inv0 g1 _ t true HI Hl Hen Ht Hc Hf) as HI2.
    split.
    + apply winCheck_Inv; [done | |]; rewrite hlen_set_flags, hlen_upd_tile; done.
    + eapply grows_trans; [apply flag_grows | apply winCheck_grows, HI2].
Qed.

Lemma act_ok now n g1 rs x y flag :
  Inv0 g1 -> 0 < hlen g1 -> 0 <= x < width g1 -> 0 <= y < height g1 ->
  endedAt g1 = None -> (unclicked (latest g1) <= n)%nat ->
  exists g', act (ClickTile n now) now (hlen g1 - 1) x y flag (World g1 rs)
             = Ret None (World g' rs)
             /\ Inv g' /\ grows g1 g'.
Proof.
  intros HI Hl Hx Hy Hen Hn. destruct flag; [by apply act_flag_ok |].
  destruct (tile_at_is_Some g1 x y) as [t Ht]; try done; [apply HI |].
  destruct (act_reveal_ok n (ClickTile n now) (ClickTile_ok now n) g1 rs now x y t)
    as (g' & Hrun & Hst & Hset & _); try done; [apply HI | by left |].
  exists g'. split; [done |]. split.
  - apply settled_Inv; [| done]. by eapply rsteps_Inv0.
  - apply ext_grows, rsteps_ext; [apply HI | done].
Qed.

(** The part of [ClickTile] after the turn is recorded: the game [g1]
    has the new turn as its last one. *)
Definition rest (now : Z) (n : nat) (x y : Z) (flag : bool) (g1 : Game) (rs : list Z)
    : res world (option string) :=
  if negb (IsZero (endedAt g1)) then Ret (Some "Game is not active") (World g1 rs)
  else act (ClickTile n now) now (hlen g1 - 1) x y flag (World g1 rs).

Lemma rest_ok now n g1 rs x y flag :
  Inv0 g1 -> 0 < hlen g1 -> 0 <= x < width g1 -> 0 <= y < height g1 ->
  (unclicked (latest g1) <= n)%nat ->
  exists e g', rest now n x y flag g1 rs = Ret e (World g' rs)
    /\ Inv g' /\ grows g1 g'
    /\ (endedAt g1 = None -> e = None)
    /\ (endedAt g1 <> None -> e = Some "Game is not active" /\ g' = g1).
Proof.
  intros HI Hl Hx Hy Hn. unfold rest.
  destruct (endedAt g1) as [tm |] eqn:Hen; cbn [IsZero negb].
  - exists (Some "Game is not active"), g1. split; [done |]. split.
    { apply settled_Inv; [done |]. left. unfold ended. congruence. }
    split; [apply grows_refl |]. split; [congruence |]. done.
  - destruct (act_ok now n g1 rs x y flag) as (g' & Hrun & HI' & Hgr); try done.
    exists None, g'. split; [done |]. split; [done |]. split; [done |].
    split; [done |]. intros Hne. by destruct Hne.
Qed.

(** ** A call of ClickTile *)

Lemma ClickTile_outside fuel now x y flag s :
  width (game s) <= x \/ height (game s) <= y ->
  exists msg, ClickTile (S fuel) now x y flag s = Ret (Some msg) s.
Proof.
  intros Hout. rewrite ClickTile_unfold. unfold ClickTile_body.
  destruct (Z.leb_spec (width (game s)) x); [eauto |].
  destruct (Z.leb_spec (height (game s)) y); [eauto | lia].
Qed.

(** A call in bounds on a game with turns: it returns. *)
Theorem ClickTile_placed fuel now x y flag g rs :
  Inv g -> 0 < hlen g -> 0 <= x < width g -> 0 <= y < height g ->
  (unclicked (latest g) < fuel)%nat ->
  exists e g',
    ClickTile fuel now x y flag (World g rs) = Ret e (World g' rs)
    /\ Inv g' /\ grows g g' /\ frame g g' /\ hlen g < hlen g'
    /\ (endedAt g = None -> e = None)
    /\ (endedAt g <> None ->
        e = Some "Game is not active"
        /\ g' = push (Turn x y flag (Some now) (latest g)) g).
Proof.
  intros [HI _] Hl Hx Hy Hfuel. pose proof (inv_wf _ HI) as Hwf.
  destruct fuel as [| n]; [lia |].
  rewrite ClickTile_unfold, ClickTile_body_push by done. cbv zeta.
  set (g1 := push (Turn x y flag (Some now) (latest g)) g).
  assert (rstep g g1) as Hstep by (by constructor).
  assert (hlen g1 = hlen g + 1) as Hl1 by apply hlen_push, Hwf.
  assert (latest g1 = latest g) as Hla by (by apply latest_push, Hwf).
  destruct (rest_ok now n g1 rs x y flag) as (e & g' & Hrun & HI' & Hgr & He1 & He2);
    try done; try lia.
  { by eapply rstep_Inv0. }
  { rewrite Hla. lia. }
  unfold rest in Hrun. rewrite Hl1 in Hrun.
  replace (hlen g + 1 - 1) with (hlen g) in Hrun by lia.
  exists e, g'. split; [exact Hrun |]. split; [done |].
  split; [eapply grows_trans; [apply ext_grows, rstep_ext; done | done] |].
  split.
  { intros k Hk. rewrite (gr_history _ _ Hgr) by lia. apply history_push_ne. lia. }
  split; [pose proof (gr_hlen _ _ Hgr); lia |].
  split; [done |]. intros Hen. by apply He2.
Qed.

(** The first call in bounds: it returns unless the supply of random
    draws runs out, on a grid with the mines placed away from [(x, y)]. *)
Theorem ClickTile_first fuel now x y flag g rs :
  Inv g -> hlen g = 0 -> 0 <= x < width g -> 0 <= y < height g ->
  width g * height g < Z.of_nat fuel ->
  match ClickTile fuel now x y flag (World g rs) with
  | Ret e s' =>
      Inv (game s') /\ 0 < hlen (game s') /\ width (game s') = width g
      /\ (endedAt g = None -> e = None)
      /\ exists ts, generated g x y ts
           /\ value <$> latest (game s') = value <$> ts
           /\ (endedAt g <> None ->
               e = Some "Game is not active"
               /\ game s' = push (Turn x y flag (Some now) ts) g)
  | Starved => True
  | Panic | Exhausted => False
  end.
Proof.
  intros [HI _] Hl Hx Hy Hfuel. pose proof (inv_wf _ HI) as Hwf.
  pose proof (wf_width _ Hwf) as Hw. pose proof (wf_height _ Hwf) as Hh.
  pose proof (wf_mines _ Hwf) as Hm.
  destruct fuel as [| n]; [nia |]. rewrite ClickTile_unfold.
  unfold ClickTile_body. cbn [game rand].
  destruct (Z.leb_spec (width g) x); [lia |].
  destruct (Z.leb_spec (height g) y); [lia |].
  unfold turnTiles. destruct (Z.eqb_spec 0 (hlen g)) as [_ | Hne]; [| lia].
  pose proof (generateTiles_post g x y rs Hw Hh ltac:(nia) Hx Hy) as Hg.
  destruct (generateTiles g x y rs) as [ts rs' | | |]; [| done | done | done].
  set (g1 := push (Turn x y flag (Some now) ts) g).
  assert (hlen g1 = 1) as Hl1 by (unfold g1; rewrite hlen_push by apply Hwf; lia).
  assert (latest g1 = ts) as Hla by (by apply latest_push, Hwf).
  destruct (rest_ok now n g1 rs' x y flag) as (e & g' & Hrun & HI' & Hgr & He1 & He2);
    try done; try lia.
  { by apply first_turn_Inv0. }
  { rewrite Hla. pose proof (unclicked_le_length ts).
    pose proof (gen_length _ _ _ _ Hg). nia. }
  unfold rest in Hrun. rewrite Hl1 in Hrun.
  replace (1 - 1) with (hlen g) in Hrun by lia.
  change (endedAt g1) with (endedAt g) in *.
  change (set_history _ g) with g1.
  rewrite Hrun. cbn [game].
  split; [done |]. split; [pose proof (gr_hlen _ _ Hgr); lia |].
  split; [apply Hgr |].
  split; [done |]. exists ts. split; [done |].
  split; [by rewrite (gr_values _ _ Hgr), Hla |].
  intros Hen. by apply He2.
Qed.

Theorem ClickTile_Inv_total fuel now x y flag g rs :
  Inv g -> 0 <= x -> 0 <= y -> width g * height g < Z.of_nat fuel ->
  match ClickTile fuel now x y flag (World g rs) with
  | Ret e s' => Inv (game s')
  | Starved => hlen g = 0
  | Panic | Exhausted => False
  end.
Proof.
  intros HI Hx0 Hy0 Hfuel. pose proof (Inv_WF _ HI) as Hwf.
  pose proof (wf_width _ Hwf) as Hw. pose proof (wf_height _ Hwf) as Hh.
  destruct (Z.le_gt_cases (width g) x) as [Hx | Hx].
  { destruct fuel as [| n]; [nia |].
    destruct (ClickTile_outside n now x y flag (World g rs)) as [msg ->]; [by left | done]. }
  destruct (Z.le_gt_cases (height g) y) as [Hy | Hy].
  { destruct fuel as [| n]; [nia |].
    destruct (ClickTile_outside n now x y flag (World g rs)) as [msg ->]; [by right | done]. }
  pose proof (hlen_nonneg g).
  destruct (Z.eq_dec (hlen g) 0) as [Hl | Hl].
  - pose proof (ClickTile_first fuel now x y flag g rs HI Hl ltac:(lia) ltac:(lia) Hfuel) as H1.
    destruct (ClickTile fuel now x y flag (World g rs)); try done. apply H1.
  - destruct (ClickTile_placed fuel now x y flag g rs) as (e & g' & -> & HI' & _);
      try done; try lia.
    pose proof (unclicked_le_length (latest g)).
    pose proof (latest_length g Hwf). nia.
Qed.

Theorem ClickTile_Inv fuel now x y flag s e s' :
  Inv (game s) -> 0 <= x -> 0 <= y ->
  ClickTile fuel now x y flag s = Ret e s' -> Inv (game s').
Proof.
  intros HI Hx Hy Hrun. destruct s as [g rs].
  set (big := (fuel + S (Z.to_nat (width g * height g)))%nat).
  pose proof (ClickTile_mono now fuel big ltac:(lia) _ _ _ _ _ _ Hrun) as Hbig.
  pose proof (ClickTile_Inv_total big now x y flag g rs HI Hx Hy ltac:(lia)) as Htot.
  by rewrite Hbig in Htot.
Qed.

Theorem reachable_Inv s : reachable s -> Inv (game s).
Proof.
  induction 1 as [uid now w h m g rs Hw Hh Hm Hnew | s fuel now x y flag e s' _ IH Hx Hy Hrun
                 | s b now _ IH].
  - eapply NewGame_Inv; [| | | exact Hnew]; lia.
  - eapply ClickTile_Inv; [exact IH | | | exact Hrun]; lia.
  - by apply End_Inv.
Qed.

End MinesTop.

(** * Package mines: the supply of random draws

    [math/rand] never runs out; a list of draws does. The mines loop of
    [generateTiles] draws cells until it has placed [g.mines] mines, so it
    returns on a list exactly as far as the list names enough different
    cells. *)

(** The cells the mines loop draws from the raw draws [rs], in order:
    [x := rand.Intn(w); y := rand.Intn(h)]. *)
Fixpoint cells (w h : Z) (rs : list Z) : list (Z * Z) :=
  match rs with
  | rx :: ry :: rs' => (rx mod w, ry mod h) :: cells w h rs'
  | _ => []
  end.

(** The draws name at least [m] different cells besides [(ix, iy)]. *)
Definition enough_draws (w h m ix iy : Z) (rs : list Z) : Prop :=
  exists l : list (Z * Z),
    NoDup l /\ m <= Z.of_nat (length l)
    /\ forall c, c ∈ l -> c ∈ cells w h rs /\ c <> (ix, iy).

Lemma cells_bound w h rs c :
  0 < w -> 0 < h -> c ∈ cells w h rs -> 0 <= c.1 < w /\ 0 <= c.2 < h.
Proof.
  intros Hw Hh. remember (length rs) as n eqn:En.
  assert (length rs <= n)%nat as Hn by lia. clear En. revert rs Hn.
  induction n as [| n IH]; intros rs Hn Hc.
  { destruct rs; [by apply elem_of_nil in Hc | simpl in Hn; lia]. }
  destruct rs as [| rx [| ry rs2]]; cbn [cells] in Hc; try (by apply elem_of_nil in Hc).
  apply elem_of_cons in Hc as [-> | Hc].
  - cbn [fst snd]. split; by apply Z.mod_pos_bound.
  - apply (IH rs2); [simpl in Hn; lia | done].
Qed.

Module MinesDraws.
Import Mines MinesSpec MinesHist MinesSteps MinesRun MinesGenerate MinesTop.

Section Place.

Variable g : Game.
Variables ix iy : Z.
Hypothesis Hw : 1 <= width g <= 250.
Hypothesis Hh : 1 <= height g <= 250.
Hypothesis Hm : 0 <= mines g < 65536.

(** The cell carries no mine yet. *)
Definition vacant (ts : list tile) (c : Z * Z) : Prop :=
  exists t, ts !! Z.to_nat (index (width g) c.1 c.2) = Some t /\ value t <> 9.

(** The mines loop returns when the draws name as many vacant cells,
    all different and none of them the cell to ignore, as there are
    mines left to place. *)
Lemma placeMines_returns n : forall rs placed ts l,
  (length rs <= n)%nat -> 0 <= placed ->
  Z.of_nat (length ts) = width g * height g ->
  NoDup l -> mines g - placed <= Z.of_nat (length l) ->
  (forall c, c ∈ l -> c ∈ cells (width g) (height g) rs /\ c <> (ix, iy) /\ vacant ts c) ->
  exists ts' rs', placeMines g ix iy placed ts rs = Ret ts' rs'.
Proof.
  induction n as [| n IH]; intros rs placed ts l Hlen Hp Hts Hnd Hl Hin.
  { destruct rs; [| simpl in Hlen; lia]. cbn [placeMines].
    destruct (Z.ltb_spec placed (mines g)) as [Hlt | Hge]; [| by eauto].
    destruct l as [| c l]; [simpl in Hl; lia |].
    destruct (Hin c) as (Hc & _); [by left |]. by apply elem_of_nil in Hc. }
  destruct (Z.ltb_spec placed (mines g)) as [Hlt | Hge].
  2: { destruct rs as [| rx [| ry rs2]]; cbn [placeMines];
         destruct (Z.ltb_spec placed (mines g)); (lia || eauto). }
  destruct l as [| c1 l1] eqn:El; [simpl in Hl; lia |]. rewrite <- El in *.
  assert (c1 ∈ l) as Hc1 by (rewrite El; by left).
  destruct rs as [| rx [| ry rs2]];
    try (destruct (Hin c1 Hc1) as (Hc & _); simpl in Hc; by apply elem_of_nil in Hc).
  cbn [placeMines]. destruct (Z.ltb_spec placed (mines g)) as [_ | ?]; [| lia].
  destruct (Intn_Some (width g) rx) as (x0 & Ex & Hx0); [lia |].
  destruct (Intn_Some (height g) ry) as (y0 & Ey & Hy0); [lia |].
  rewrite Ex, Ey. cbv zeta. rewrite !u16_small by lia.
  assert (x0 = rx mod width g /\ y0 = ry mod height g) as [Ex0 Ey0].
  { unfold Intn in Ex, Ey. destruct (width g <=? 0), (height g <=? 0); try done.
    by injection Ex as <-; injection Ey as <-. }
  simpl in Hlen.
  assert (forall c, c ∈ l -> c <> (x0, y0) -> c ∈ cells (width g) (height g) rs2) as Hrest.
  { intros c Hc Hne. destruct (Hin c Hc) as (Hcell & _). cbn [cells] in Hcell.
    apply elem_of_cons in Hcell as [-> | Hcell]; [| done]. by subst x0 y0. }
  destruct ((x0 =? ix) && (y0 =? iy)) eqn:Hig.
  { apply andb_true_iff in Hig as [E1 E2]. apply Z.eqb_eq in E1, E2. subst ix iy.
    apply (IH rs2 placed ts l); try done; [lia |].
    intros c Hc. destruct (Hin c Hc) as (_ & Hne & Hv). split; [by apply Hrest | done]. }
  rewrite (index16_small _ (height g)) by lia.
  destruct (idx_is_Some ts (index (width g) x0 y0)) as [t Ht].
  { rewrite Hts. by apply index_bound. }
  rewrite Ht. apply idx_Some_inv in Ht as [Hr Ht].
  destruct (Z.eqb_spec (value t) 9) as [H9 | H9]; cbn [negb].
  { apply (IH rs2 placed ts l); try done; [lia |].
    intros c Hc. destruct (Hin c Hc) as (_ & Hne & Hv). split; [| done].
    apply Hrest; [done |]. intros ->. destruct Hv as (t' & Ht' & Hv'). simpl in Ht'.
    congruence. }
  (* the mine is placed: the cell is taken off the list *)
  assert (exists l', NoDup l' /\ Z.of_nat (length l) <= Z.of_nat (length l') + 1
                     /\ forall c, c ∈ l' -> c ∈ l /\ c <> (x0, y0)) as (l' & Hnd' & Hl' & Hin').
  { destruct (decide ((x0, y0) ∈ l)) as [Hmem | Hnot].
    - apply elem_of_Permutation in Hmem as [k Hk].
      rewrite Hk in Hnd. apply NoDup_cons in Hnd as [Hnk Hndk].
      exists k. split; [done |]. split; [rewrite Hk; simpl; lia |].
      intros c Hc. split; [rewrite Hk; by right | intros ->; done].
    - exists l. split; [done |]. split; [lia |]. intros c Hc. split; [done | by intros ->]. }
  apply (IH rs2 (placed + 1) _ l'); try done; try lia.
  - by rewrite length_insert.
  - intros c Hc. destruct (Hin' c Hc) as [Hcl Hne]. destruct (Hin c Hcl) as (Hcell & Hni & Hv).
    split; [by apply Hrest |]. split; [done |].
    destruct Hv as (t' & Ht' & Hv'). exists t'. split; [| done].
    rewrite list_lookup_insert_ne; [done |].
    destruct (cells_bound (width g) (height g) _ c ltac:(lia) ltac:(lia) Hcell) as [Hcx Hcy].
    intros E. apply Z2Nat.inj in E.
    + apply index_inj in E as [E1 E2]; [| lia | lia]. apply Hne. destruct c. simpl in *.
      by subst.
    + lia.
    + pose proof (index_bound _ _ _ _ Hcx Hcy). lia.
Qed.

(** Every mine the loop places costs two draws at least. *)
Lemma placeMines_consumes n : forall rs placed ts ts' rs',
  (length rs <= n)%nat -> 0 <= placed ->
  placeMines g ix iy placed ts rs = Ret ts' rs' ->
  Z.of_nat (length rs') + 2 * (mines g - placed) <= Z.of_nat (length rs)
  \/ (mines g <= placed /\ rs' = rs).
Proof.
  induction n as [| n IH]; intros rs placed ts ts' rs' Hlen Hp Hrun.
  { destruct rs; [| simpl in Hlen; lia]. cbn [placeMines] in Hrun.
    destruct (Z.ltb_spec placed (mines g)); [done |]. injection Hrun as _ <-. by right. }
  destruct (Z.ltb_spec placed (mines g)) as [Hlt | Hge].
  2: { right. split; [done |].
       destruct rs as [| rx [| ry rs2]]; cbn [placeMines] in Hrun;
         destruct (Z.ltb_spec placed (mines g)); try lia; by injection Hrun as _ <-. }
  left. destruct rs as [| rx [| ry rs2]]; cbn [placeMines] in Hrun;
    destruct (Z.ltb_spec placed (mines g)) as [_ | ?]; try lia; try done.
  { by destruct (Intn (width g) rx). }
  destruct (Intn (width g) rx) as [x0 |]; [| done].
  destruct (Intn (height g) ry) as [y0 |]; [| done].
  cbv zeta in Hrun. simpl in Hlen. cbn [length].
  assert (forall p, placed <= p <= placed + 1 ->
            forall ts0, placeMines g ix iy p ts0 rs2 = Ret ts' rs' ->
            Z.of_nat (length rs') + 2 * (mines g - placed)
            <= Z.of_nat (S (S (length rs2)))) as Hstep.
  { intros p Hpp ts0 Hrun0.
    destruct (IH rs2 p ts0 ts' rs' ltac:(lia) ltac:(lia) Hrun0) as [H | [H ->]]; lia. }
  destruct ((u16 x0 =? ix) && (u16 y0 =? iy)); [by apply (Hstep placed ltac:(lia) ts) |].
  destruct (idx ts (index16 (width g) (u16 x0) (u16 y0))) as [t |]; [| done].
  destruct (negb (value t =? 9)).
  - rewrite u16_small in Hrun by lia. by eapply (Hstep (placed + 1) ltac:(lia)).
  - by apply (Hstep placed ltac:(lia) ts).
Qed.

End Place.

(** The draws that name the cells of [l], in order. *)
Fixpoint draws_of (l : list (Z * Z)) : list Z :=
  match l with
  | [] => []
  | c :: l' => c.1 :: c.2 :: draws_of l'
  end.

Lemma cells_of_draws w h (l : list (Z * Z)) :
  Forall (fun c => 0 <= c.1 < w /\ 0 <= c.2 < h) l ->
  cells w h (draws_of l) = l.
Proof.
  induction 1 as [| [cx cy] l [Hx Hy] _ IH]; [done |].
  cbn [draws_of cells fst snd] in *. rewrite IH. by rewrite !Z.mod_small by done.
Qed.

(** For every board and every cell of it there is a supply of draws
    that is enough. *)
Lemma enough_draws_exist w h m ix iy :
  1 <= w -> 1 <= h -> m <= w * h - 1 ->
  exists rs, enough_draws w h m ix iy rs.
Proof.
  intros Hw Hh Hm.
  set (cell := fun i : Z => (i mod w, i / w)).
  set (L := cell <$> seqZ 0 (w * h)).
  assert (Forall (fun c => 0 <= c.1 < w /\ 0 <= c.2 < h) L) as Hrange.
  { apply Forall_fmap, Forall_forall. intros i Hi. apply elem_of_seqZ in Hi.
    unfold cell. cbn [fst snd]. split; [apply Z.mod_pos_bound; lia |].
    split; [apply Z.div_pos; lia | apply Z.div_lt_upper_bound; lia]. }
  assert (NoDup L) as Hnd.
  { apply NoDup_fmap_2_strong; [| apply NoDup_seqZ].
    intros i j _ _ [= E1 E2].
    rewrite (Z.div_mod i w), (Z.div_mod j w) by lia. by rewrite E1, E2. }
  assert (Z.of_nat (length L) = w * h) as Hlen.
  { unfold L. rewrite length_fmap, length_seqZ. nia. }
  exists (draws_of L). unfold enough_draws. rewrite cells_of_draws by done.
  destruct (decide ((ix, iy) ∈ L)) as [Hmem | Hnot].
  - pose proof Hmem as Hmem'. apply elem_of_Permutation in Hmem' as [k Hk].
    pose proof Hnd as Hnd'. rewrite Hk in Hnd'. apply NoDup_cons in Hnd' as [Hnk Hndk].
    exists k. split; [done |]. split.
    + rewrite Hk in Hlen. simpl in Hlen. lia.
    + intros c Hc. split; [rewrite Hk; by right | intros ->; done].
  - exists L. split; [done |]. split; [lia |]. intros c Hc. split; [done | by intros ->].
Qed.

(** [generateTiles] returns when the draws are enough. *)
Lemma generateTiles_returns g ix iy rs :
  WF g -> 0 <= ix < width g -> 0 <= iy < height g ->
  enough_draws (width g) (height g) (mines g) ix iy rs ->
  exists ts rs', generateTiles g ix iy rs = Ret ts rs' /\ generated g ix iy ts
    /\ Z.of_nat (length rs') + 2 * mines g <= Z.of_nat (length rs).
Proof.
  intros Hwf Hix Hiy (l & Hnd & Hl & Hin).
  pose proof (wf_width _ Hwf) as Hw. pose proof (wf_height _ Hwf) as Hh.
  pose proof (wf_mines _ Hwf) as Hm.
  pose proof (generateTiles_post g ix iy rs Hw Hh ltac:(nia) Hix Hiy) as Hpost.
  unfold generateTiles in *.
  destruct (placeMines_returns g ix iy Hw Hh ltac:(nia) (length rs) rs 0
              (make zero_tile (u16 (height g * width g))) l) as (ts1 & rs1 & Hrun);
    try done; try lia.
  { rewrite u16_small by nia. rewrite length_make. lia. }
  { intros c Hc. destruct (Hin c Hc) as [Hcell Hne]. split; [done |]. split; [done |].
    destruct (cells_bound (width g) (height g) _ c ltac:(lia) ltac:(lia) Hcell) as [Hcx Hcy].
    exists zero_tile. split; [| done]. rewrite u16_small by nia.
    apply lookup_replicate_2. pose proof (index_bound _ _ _ _ Hcx Hcy). lia. }
  rewrite Hrun in *.
  destruct (numberTiles (width g) (height g) ts1) as [ts2 |]; [| done].
  exists ts2, rs1. split; [done |]. split; [done |].
  destruct (placeMines_consumes g ix iy ltac:(nia) (length rs) rs 0 _ ts1 rs1 (le_n _)
              ltac:(lia) Hrun) as [H | [H ->]]; lia.
Qed.

(** The first call in bounds returns when the draws are enough. *)
Theorem ClickTile_first_returns fuel now x y flag g rs :
  Inv g -> hlen g = 0 -> 0 <= x < width g -> 0 <= y < height g ->
  width g * height g < Z.of_nat fuel ->
  enough_draws (width g) (height g) (mines g) x y rs ->
  exists e s' ts,
    ClickTile fuel now x y flag (World g rs) = Ret e s'
    /\ generateTiles g x y rs = Ret ts (rand s')
    /\ generated g x y ts
    /\ (endedAt g <> None ->
        e = Some "Game is not active" /\ game s' = push (Turn x y flag (Some now) ts) g).
Proof.
  intros [HI Hch] Hl Hx Hy Hfuel Hen. pose proof (inv_wf _ HI) as Hwf.
  pose proof (wf_width _ Hwf) as Hw. pose proof (wf_height _ Hwf) as Hh.
  destruct (generateTiles_returns g x y rs Hwf Hx Hy Hen) as (ts & rs' & Hgen & Hg & _).
  destruct fuel as [| n]; [nia |]. rewrite ClickTile_unfold.
  unfold ClickTile_body. cbn [game rand].
  destruct (Z.leb_spec (width g) x); [lia |].
  destruct (Z.leb_spec (height g) y); [lia |].
  unfold turnTiles. destruct (Z.eqb_spec 0 (hlen g)) as [_ | Hne]; [| lia].
  rewrite Hgen.
  set (g1 := push (Turn x y flag (Some now) ts) g).
  assert (hlen g1 = 1) as Hl1 by (unfold g1; rewrite hlen_push by apply Hwf; lia).
  assert (latest g1 = ts) as Hla by (by apply latest_push, Hwf).
  destruct (rest_ok now n g1 rs' x y flag) as (e & g' & Hrun & HI' & Hgr & He1 & He2);
    try done; try lia.
  { by apply first_turn_Inv0. }
  { rewrite Hla. pose proof (unclicked_le_length ts).
    pose proof (gen_length _ _ _ _ Hg). nia. }
  unfold rest in Hrun. rewrite Hl1 in Hrun.
  replace (1 - 1) with (hlen g) in Hrun by lia.
  change (endedAt g1) with (endedAt g) in *.
  change (set_history _ g) with g1.
  exists e, (World g' rs'), ts. split; [exact Hrun |]. split; [done |]. split; [done |].
  intros Hne. by apply He2.
Qed.

End MinesDraws.

(** * Package mines: the properties of the rules *)

Lemma label_disclosure (o : outcome) (lost won : bool) (t : tile) :
  lost = (if o is Lost then true else false) ->
  won = (if o is Won then true else false) ->
  0 <= value t <= 9 ->
  (clicked t = true -> value t = 9 -> o <> InProgress) ->
  exists sym, disclosure o t sym /\ label lost won t = encode sym.
Proof.
  intros -> -> Hv Hboom. unfold label, isMine.
  destruct (Z.eqb_spec 9 (value t)) as [H9 | H9];
    destruct (flagged t) eqn:Hf; destruct (clicked t) eqn:Hc;
    destruct o; cbn [andb orb negb];
    try (exfalso; by apply Hboom);
    try (exists RevealedMine; split; [by apply row_mine | done]);
    try (exists IncorrectFlag; split; [by apply row_wrong | done]);
    try (exists Marker; split; [apply row_marker; intuition congruence | done]);
    try (exists Hidden; split; [apply row_hidden; intuition congruence | done]).
  all: destruct (Z.eqb_spec 0 (value t)) as [H0 | H0];
    [exists EmptyOpened; split; [by apply row_empty | done] |].
  all: exists (Count (value t)); split; [apply row_count; (done || lia) | done].
Qed.

Lemma disclosure_functional o t s1 s2 :
  disclosure o t s1 -> disclosure o t s2 -> s1 = s2.
Proof.
  intros H1 H2. destruct H1, H2; try done; try lia; try congruence;
    intuition (congruence || lia).
Qed.

Lemma copy_length {A} (dst src : list A) :
  (length src <= length dst)%nat -> length (copy dst src) = length dst.
Proof.
  intros H. unfold copy. rewrite length_app, length_take, length_drop. lia.
Qed.

Lemma copy_lookup {A} (dst src : list A) i a :
  (length src <= length dst)%nat -> src !! i = Some a -> copy dst src !! i = Some a.
Proof.
  intros H Hi. unfold copy. pose proof (lookup_lt_Some _ _ _ Hi).
  rewrite lookup_app_l by (rewrite length_take; lia).
  rewrite lookup_take_lt by lia. done.
Qed.

Lemma countb_fmap_value ts ts' :
  value <$> ts' = value <$> ts -> countb isMine ts' = countb isMine ts.
Proof.
  revert ts'. induction ts as [| t ts IH]; intros [| t' ts'] H; try done.
  simpl in H. injection H as Hv Ht. simpl.
  assert (isMine t' = isMine t) as -> by (unfold isMine; congruence).
  by rewrite (IH ts').
Qed.

Module MinesRules.
Import Mines MinesSpec MinesHist MinesSteps MinesRun MinesGenerate MinesMono MinesTop.
Import MinesDraws.

(** ** Creating a game *)

Lemma NewGame_inr uid now w h m g :
  NewGame uid now w h m = inr g ->
  g = mkGame uid w h m 0 (Some now) None [] false ∅ /\ w <= 250 /\ h <= 250 /\ m <= w * h - 2.
Proof.
  unfold NewGame.
  destruct (Z.ltb_spec 250 w); [done |].
  destruct (Z.ltb_spec 250 h); [done |].
  destruct (Z.ltb_spec (w * h - 2) m); [done |].
  intros [= <-]. done.
Qed.

(** C4, as the code has it: [NewGame] accepts a board of at most 250 by
    250 tiles exactly when the mines leave two tiles free, that is
    [mineCount <= width*height - 2]; the game it returns is in progress,
    has no flag and no turn, so no tile is there yet, none clicked, none
    flagged, no mine placed. *)
Theorem mines_NewGame_valid uid now w h m :
  1 <= w <= 250 -> 1 <= h <= 250 -> 0 <= m ->
  (m <= w * h - 2 ->
   exists g, NewGame uid now w h m = inr g
     /\ width g = w /\ height g = h /\ mines g = m
     /\ endedAt g = None /\ won g = false /\ flags g = 0
     /\ history g = ∅ /\ latest g = [] /\ grid g = [])
  /\ (w * h - 2 < m -> NewGame uid now w h m = inl "mines exceed tiles").
Proof.
  intros Hw Hh Hm. unfold NewGame.
  destruct (Z.ltb_spec 250 w); [lia |].
  destruct (Z.ltb_spec 250 h); [lia |].
  destruct (Z.ltb_spec (w * h - 2) m); (split; [| done || lia]).
  - lia.
  - intros _. eexists. split; [done |]. repeat split.
Qed.

(** C4 as stated fails: a board of one tile with no mine has
    [mineCount < width*height] and is refused. *)
Lemma mines_NewGame_refuses_last_free_tile :
  ~ (forall uid now w h m,
       1 <= w <= 250 -> 1 <= h <= 250 -> 0 <= m < w * h ->
       exists g, NewGame uid now w h m = inr g).
Proof.
  intros H. destruct (H 0 0 1 1 0) as [g Hg]; [lia | lia | lia |].
  vm_compute in Hg. discriminate.
Qed.

Lemma mines_NewGame_valid_witness :
  exists g, NewGame 7 100 3 1 1 = inr g /\ mines g = 1 /\ latest g = [].
Proof.
  destruct (mines_NewGame_valid 7 100 3 1 1) as [H _]; [lia | lia | lia |].
  destruct H as (g & Hg & _ & _ & Hm & _ & _ & _ & _ & Hl & _); [lia |].
  exists g. done.
Defined.

(** ** Ending a game *)

(** C9 fails on the code: [End] sets [won] whatever its argument is, so a
    game abandoned with [End(false)] is reported as won, with the flag
    count equal to the mine count. *)
Theorem mines_End_ignores_won b now g :
  endedAt (End b now g) = Some now /\ won (End b now g) = true
  /\ forall v, JSON (End b now g) = Some v ->
       v_won v = Some true /\ v_flags v = mines g.
Proof.
  split; [done |]. split; [done |]. unfold JSON. cbn [End set_won set_endedAt endedAt won IsZero negb andb mines].
  intros v. destruct (labels _ _ _ _); [| done]. by intros [= <-].
Qed.


(** ** Worlds to try the rules on

    A board of three tiles in a row with one mine; the draws put it on
    the right tile. The middle tile is clicked first, then the left tile
    is flagged, then the middle tile is clicked again: one flag around it
    and a 1 on it, so the right tile is opened, and the game is lost. *)

Definition row0 : world :=
  World (mkGame 7 3 1 1 0 (Some 100) None [] false ∅) [2; 0].

Definition next (now : Z) (x y : Z) (flag : bool) (s : world) : world :=
  match ClickTile 4 now x y flag s with
  | Ret _ s' => s'
  | _ => s
  end.

Definition row1 : world := next 101 1 0 false row0.
Definition row2 : world := next 102 0 0 true row1.
Definition row3 : world := next 103 1 0 false row2.

Lemma row0_reachable : reachable row0.
Proof. unfold row0. by apply (reach_new 7 100 3 1 1); [lia | lia | lia |]. Qed.

Lemma next_reachable now x y flag s :
  reachable s -> 0 <= x < 65536 -> 0 <= y < 65536 -> reachable (next now x y flag s).
Proof.
  intros Hs Hx Hy. unfold next.
  destruct (ClickTile 4 now x y flag s) as [e s' | | |] eqn:E; try done.
  exact (reach_click s 4 now x y flag e s' Hs Hx Hy E).
Qed.

Lemma row1_reachable : reachable row1.
Proof. apply next_reachable; [apply row0_reachable | lia | lia]. Qed.

Lemma row2_reachable : reachable row2.
Proof. apply next_reachable; [apply row1_reachable | lia | lia]. Qed.

Lemma row3_reachable : reachable row3.
Proof. apply next_reachable; [apply row2_reachable | lia | lia]. Qed.

(** The draws of [row0] name one cell besides the middle one. *)
Lemma row0_draws : enough_draws 3 1 1 1 0 (rand row0).
Proof.
  exists [(2, 0)]. split; [apply NoDup_singleton |]. split; [simpl; lia |].
  intros c Hc. apply list_elem_of_singleton in Hc as ->. split; [| done].
  apply list_elem_of_singleton. reflexivity.
Qed.

Example row1_view :
  v_grid <$> JSON (game row1) = Some ["?"; "1"; "?"].
Proof. vm_compute. reflexivity. Qed.

Example row3_view :
  v_grid <$> JSON (game row3) = Some ["X"; "1"; "9"].
Proof. vm_compute. reflexivity. Qed.

(** ** The view *)

Lemma JSON_total g :
  WF g ->
  exists v, JSON g = Some v
    /\ Z.of_nat (length (v_grid v)) = width g * height g
    /\ forall i t, latest g !! i = Some t ->
         v_grid v !! i
         = Some (label (negb (won g) && negb (IsZero (endedAt g))) (won g) t).
Proof.
  intros Hwf. pose proof (wf_width _ Hwf) as Hw. pose proof (wf_height _ Hwf) as Hh.
  pose proof (hlen_nonneg g) as Hl.
  assert (Z.of_nat (length (latest g)) <= width g * height g) as Hlen.
  { destruct (Z.eq_dec (hlen g) 0) as [E | E].
    - rewrite latest_empty by (done || apply Hwf). simpl. nia.
    - rewrite latest_length by (done || lia). lia. }
  unfold JSON, labels. rewrite u16_small by nia. rewrite length_make.
  destruct (Z.leb_spec (Z.of_nat (length (latest g))) (Z.of_nat (Z.to_nat (height g * width g))));
    [| lia].
  eexists. split; [done |]. cbn [v_grid]. split.
  - rewrite copy_length; rewrite length_make, ?length_fmap; lia.
  - intros i t Hi. apply copy_lookup.
    + rewrite length_make, length_fmap. lia.
    + by rewrite list_lookup_fmap, Hi.
Qed.

(** C5, as the code has it: [JSON] can be called on every reachable game,
    with no turn taken yet or ended; it does not fail and its grid has
    [width*height] entries. Once a turn is taken every cell has a tile,
    and the entry of every tile is the symbol of the one row of the
    disclosure table that applies to the tile. Before the first turn
    there is no tile, and every entry is the empty string, the symbol of
    an empty opened cell and not of a hidden one. *)
Theorem mines_view_table s :
  reachable s ->
  exists v, JSON (game s) = Some v
    /\ Z.of_nat (length (v_grid v)) = width (game s) * height (game s)
    /\ (0 < hlen (game s) ->
        Z.of_nat (length (latest (game s))) = width (game s) * height (game s))
    /\ (forall i t, latest (game s) !! i = Some t ->
         exists sym, disclosure (outcome_of (game s)) t sym
                     /\ v_grid v !! i = Some (encode sym))
    /\ (hlen (game s) = 0 ->
        v_grid v = replicate (Z.to_nat (width (game s) * height (game s))) (encode EmptyOpened)).
Proof.
  intros Hr. destruct (reachable_Inv s Hr) as [HI _]. pose proof (inv_wf _ HI) as Hwf.
  destruct (JSON_total (game s) Hwf) as (v & Hv & Hlen & Hgrid).
  exists v. split; [done |]. split; [done |].
  split; [intros Hl; by apply latest_length |]. split.
  - intros i t Hi.
    destruct (label_disclosure (outcome_of (game s))
                (negb (won (game s)) && negb (IsZero (endedAt (game s)))) (won (game s)) t)
      as (sym & Hd & Hl).
    + unfold outcome_of.
      destruct (endedAt (game s)) eqn:E, (won (game s)) eqn:E'; done.
    + unfold outcome_of. pose proof (inv_won _ HI) as Hw. unfold ended in Hw.
      destruct (endedAt (game s)) eqn:E, (won (game s)) eqn:E'; try done.
      exfalso. by apply Hw.
    + pose proof (inv_values _ HI) as Hvals. by apply (Forall_lookup_1 _ _ _ _ Hvals Hi).
    + intros Hc H9. pose proof (inv_boom _ HI t (list_elem_of_lookup_2 _ _ _ Hi) Hc H9) as He.
      unfold outcome_of, ended in *.
      destruct (endedAt (game s)); [by destruct (won (game s)) | done].
    + exists sym. split; [done |]. by rewrite (Hgrid i t Hi), Hl.
  - intros Hl. pose proof (wf_width _ Hwf) as Hw. pose proof (wf_height _ Hwf) as Hh.
    unfold JSON, labels in Hv. rewrite latest_empty in Hv by (done || apply Hwf).
    rewrite u16_small in Hv by nia. rewrite length_make in Hv.
    cbn [length fmap list_fmap] in Hv.
    destruct (Z.leb_spec (Z.of_nat 0) (Z.of_nat (Z.to_nat (height (game s) * width (game s)))));
      [| lia].
    injection Hv as <-. cbn [v_grid encode]. unfold copy, make.
    rewrite take_nil, drop_0, Z.mul_comm. done.
Qed.

Lemma mines_view_table_witness :
  exists v, JSON (game row3) = Some v
    /\ Z.of_nat (length (v_grid v)) = width (game row3) * height (game row3)
    /\ (0 < hlen (game row3) ->
        Z.of_nat (length (latest (game row3))) = width (game row3) * height (game row3))
    /\ (forall i t, latest (game row3) !! i = Some t ->
         exists sym, disclosure (outcome_of (game row3)) t sym
                     /\ v_grid v !! i = Some (encode sym))
    /\ (hlen (game row3) = 0 ->
        v_grid v
        = replicate (Z.to_nat (width (game row3) * height (game row3))) (encode EmptyOpened)).
Proof. apply (mines_view_table row3), row3_reachable. Defined.

Lemma row0_view :
  JSON (game row0) = Some (View (Some 100) 1 1 3 0 None None [""; ""; ""]).
Proof. vm_compute. reflexivity. Qed.

(** C5 as stated fails before the first turn: no cell of the new game
    [row0] is revealed or flagged, so the table gives the hidden symbol
    for each, and the view has the empty string there. *)
Lemma mines_view_fresh_not_hidden :
  ~ (forall s v i,
       reachable s -> JSON (game s) = Some v -> (i < length (v_grid v))%nat ->
       exists sym,
         disclosure (outcome_of (game s)) (default zero_tile (latest (game s) !! i)) sym
         /\ v_grid v !! i = Some (encode sym)).
Proof.
  intros H.
  destruct (H row0 _ 0%nat row0_reachable row0_view) as (sym & Hd & Hsym);
    [simpl; lia |].
  assert (disclosure (outcome_of (game row0)) (default zero_tile (latest (game row0) !! 0%nat))
            Hidden) as Hh.
  { apply row_hidden; try done; by intros [? _]. }
  rewrite (disclosure_functional _ _ _ _ Hd Hh) in Hsym. discriminate.
Qed.

(** Before the first turn there is no tile, and every entry of the grid
    is the empty string. *)
Lemma JSON_fresh uid now w h m g :
  1 <= w -> 1 <= h -> NewGame uid now w h m = inr g ->
  v_grid <$> JSON g = Some (replicate (Z.to_nat (w * h)) "").
Proof.
  intros Hw Hh Hnew. apply NewGame_inr in Hnew as (-> & Hw' & Hh' & _).
  unfold JSON, labels. rewrite latest_empty; [| apply contiguous_empty | done].
  cbn [height width length fmap list_fmap]. rewrite u16_small by nia. rewrite length_make.
  destruct (Z.leb_spec (Z.of_nat 0) (Z.of_nat (Z.to_nat (h * w)))); [| lia].
  cbn [fmap option_fmap option_map v_grid]. unfold copy, make.
  rewrite take_nil, drop_0, Z.mul_comm. done.
Qed.

(** ** Rejected moves *)

(** C3, as the code has it: a move outside the board changes nothing; a
    move in bounds on a game that has ended is recorded as a turn before
    the error is returned, and nothing else of the game changes. On a
    game with turns the new turn copies the last one. On a game that was
    ended before its first move the grid is generated for the new turn,
    with the mines away from the cell of the move, and the draws for it
    are taken from the random source. *)
Theorem mines_rejected_move s fuel now x y flag :
  reachable s ->
  (width (game s) <= x \/ height (game s) <= y ->
   exists msg, ClickTile (S fuel) now x y flag s = Ret (Some msg) s)
  /\ (0 <= x < width (game s) -> 0 <= y < height (game s) ->
      0 < hlen (game s) -> endedAt (game s) <> None ->
      ClickTile (S fuel) now x y flag s
      = Ret (Some "Game is not active")
            (World (push (Turn x y flag (Some now) (latest (game s))) (game s)) (rand s)))
  /\ (0 <= x < width (game s) -> 0 <= y < height (game s) ->
      hlen (game s) = 0 -> endedAt (game s) <> None ->
      enough_draws (width (game s)) (height (game s)) (mines (game s)) x y (rand s) ->
      exists ts rs',
        generateTiles (game s) x y (rand s) = Ret ts rs'
        /\ generated (game s) x y ts
        /\ Z.of_nat (length rs') + 2 * mines (game s) <= Z.of_nat (length (rand s))
        /\ ClickTile (S fuel) now x y flag s
           = Ret (Some "Game is not active")
                 (World (push (Turn x y flag (Some now) ts) (game s)) rs')).
Proof.
  intros Hr. destruct (reachable_Inv s Hr) as [HI _]. split; [| split].
  - apply ClickTile_outside.
  - intros Hx Hy Hl Hen. destruct s as [g rs]. cbn [game rand] in *.
    rewrite ClickTile_unfold, ClickTile_body_push by (done || apply HI).
    cbv zeta. by destruct (endedAt g).
  - intros Hx Hy Hl Hen Hrs. destruct s as [g rs]. cbn [game rand] in *.
    destruct (generateTiles_returns g x y rs (inv_wf _ HI) Hx Hy Hrs)
      as (ts & rs' & Hgen & Hg & Hcost).
    exists ts, rs'. split; [done |]. split; [done |]. split; [done |].
    rewrite ClickTile_unfold. unfold ClickTile_body. cbn [game rand].
    destruct (Z.leb_spec (width g) x); [lia |].
    destruct (Z.leb_spec (height g) y); [lia |].
    unfold turnTiles. destruct (Z.eqb_spec 0 (hlen g)) as [_ | Hne]; [| lia].
    rewrite Hgen. change (endedAt (set_history _ g)) with (endedAt g).
    by destruct (endedAt g).
Qed.

(** The move rejected on the lost game [row3]. *)
Definition row4 : world := next 104 0 0 false row3.

Lemma row4_run :
  ClickTile 1 104 0 0 false row3 = Ret (Some "Game is not active") row4.
Proof. vm_compute. reflexivity. Qed.

Lemma row4_hlen : hlen (game row3) = 4 /\ hlen (game row4) = 5.
Proof. vm_compute. split; reflexivity. Qed.

(** The new game [row0] abandoned before its first move. *)
Definition quit0 : world := on_game (End false 100) row0.

Lemma quit0_reachable : reachable quit0.
Proof. apply reach_end, row0_reachable. Qed.

Lemma mines_rejected_move_witness :
  ClickTile 1 104 0 0 false row3
  = Ret (Some "Game is not active")
        (World (push (Turn 0 0 false (Some 104) (latest (game row3))) (game row3))
               (rand row3))
  /\ exists ts rs',
       generateTiles (game quit0) 1 0 (rand quit0) = Ret ts rs'
       /\ generated (game quit0) 1 0 ts
       /\ Z.of_nat (length rs') + 2 * mines (game quit0) <= Z.of_nat (length (rand quit0))
       /\ ClickTile 1 101 1 0 false quit0
          = Ret (Some "Game is not active")
                (World (push (Turn 1 0 false (Some 101) ts) (game quit0)) rs').
Proof.
  split.
  - destruct (mines_rejected_move row3 0 104 0 0 false row3_reachable) as (_ & Hended & _).
    apply Hended.
    + vm_compute. split; [discriminate | reflexivity].
    + vm_compute. split; [discriminate | reflexivity].
    + vm_compute. reflexivity.
    + vm_compute. discriminate.
  - destruct (mines_rejected_move quit0 0 101 1 0 false quit0_reachable) as (_ & _ & Hfirst).
    apply Hfirst.
    + vm_compute. split; [discriminate | reflexivity].
    + vm_compute. split; [discriminate | reflexivity].
    + vm_compute. reflexivity.
    + vm_compute. discriminate.
    + exact row0_draws.
Defined.

(** C3 as stated fails: the move rejected on the lost game [row3] leaves
    one turn more in the history. *)
Lemma mines_rejected_move_recorded :
  ~ (forall s fuel now x y flag msg s',
       reachable s -> ClickTile fuel now x y flag s = Ret (Some msg) s' -> s' = s).
Proof.
  intros H.
  pose proof (H row3 1%nat 104 0 0 false "Game is not active" row4 row3_reachable row4_run)
    as E.
  destruct row4_hlen as [H3 H4]. rewrite E in H4. rewrite H3 in H4. discriminate.
Qed.

(** ** The flag count *)

(** C8. In every reachable game the field [flags] is the number of
    flagged tiles. *)
Theorem mines_flag_count s :
  reachable s -> flags (game s) = Z.of_nat (countb flagged (latest (game s))).
Proof. intros Hr. destruct (reachable_Inv s Hr) as [HI _]. apply HI. Qed.

Lemma mines_flag_count_witness :
  reachable row2 /\ flags (game row2) = Z.of_nat (countb flagged (latest (game row2))).
Proof. split; [apply row2_reachable | apply (mines_flag_count row2), row2_reachable]. Defined.


(** ** What a call that returns has done *)

Lemma ClickTile_cases fuel now x y flag g rs e s' :
  Inv g -> 0 <= x -> 0 <= y ->
  ClickTile fuel now x y flag (World g rs) = Ret e s' ->
  (e <> None /\ s' = World g rs /\ (width g <= x \/ height g <= y))
  \/ (x < width g /\ y < height g /\ Inv (game s') /\ hlen g < hlen (game s')
      /\ (endedAt g = None -> e = None) /\ (endedAt g <> None -> e <> None)).
Proof.
  intros HI Hx0 Hy0 Hrun. pose proof (Inv_WF _ HI) as Hwf.
  pose proof (wf_width _ Hwf) as Hw. pose proof (wf_height _ Hwf) as Hh.
  set (big := (fuel + S (Z.to_nat (width g * height g)))%nat).
  pose proof (ClickTile_mono now fuel big ltac:(lia) _ _ _ _ _ _ Hrun) as Hbig.
  destruct (Z.le_gt_cases (width g) x) as [Hx | Hx].
  { left. destruct (ClickTile_outside (big - 1) now x y flag (World g rs)) as [msg Hm];
      [by left |].
    replace (S (big - 1)) with big in Hm by lia. rewrite Hbig in Hm.
    injection Hm as -> ->. split; [done |]. split; [done | by left]. }
  destruct (Z.le_gt_cases (height g) y) as [Hy | Hy].
  { left. destruct (ClickTile_outside (big - 1) now x y flag (World g rs)) as [msg Hm];
      [by right |].
    replace (S (big - 1)) with big in Hm by lia. rewrite Hbig in Hm.
    injection Hm as -> ->. split; [done |]. split; [done | by right]. }
  right. split; [done |]. split; [done |].
  pose proof (hlen_nonneg g).
  destruct (Z.eq_dec (hlen g) 0) as [Hl | Hl].
  - pose proof (ClickTile_first big now x y flag g rs HI Hl ltac:(lia) ltac:(lia) ltac:(lia))
      as H1.
    rewrite Hbig in H1. destruct H1 as (HI' & Hl' & _ & He & ts & _ & _ & Hen).
    split; [done |]. split; [lia |]. split; [done |].
    intros Hne. destruct (Hen Hne) as [-> _]. done.
  - destruct (ClickTile_placed big now x y flag g rs)
      as (e' & g' & Hrun' & HI' & _ & _ & Hl' & He & Hen); try done; try lia.
    { pose proof (unclicked_le_length (latest g)).
      pose proof (latest_length g Hwf). lia. }
    rewrite Hbig in Hrun'. injection Hrun' as -> ->.
    split; [done |]. split; [done |]. split; [done |].
    intros Hne. destruct (Hen Hne) as [-> _]. done.
Qed.

(** ** The first click *)

(** C1. The first call of [ClickTile] on a new game, at a cell of the
    board and whether it flags or clicks. The mines loop draws cells
    until [mineCount] of them carry a mine, so for a supply of draws that
    names [mineCount] different cells besides the cell of the call, and
    there is one for every board, the call returns; and whenever it
    returns it leaves a grid with exactly [mineCount] mines, none of them
    at the cell of the call. *)
Theorem mines_safe_first_click uid now0 w h m g now x y flag :
  0 <= w < 65536 -> 0 <= h < 65536 -> 0 <= m < 65536 ->
  NewGame uid now0 w h m = inr g ->
  0 <= x < w -> 0 <= y < h ->
  (exists rs, enough_draws w h m x y rs)
  /\ (forall rs fuel,
        enough_draws w h m x y rs -> w * h < Z.of_nat fuel ->
        exists e s', ClickTile fuel now x y flag (World g rs) = Ret e s')
  /\ (forall rs fuel e s',
        ClickTile fuel now x y flag (World g rs) = Ret e s' ->
        e = None
        /\ Z.of_nat (countb isMine (latest (game s'))) = m
        /\ exists t, tile_at (game s') x y = Some t /\ isMine t = false).
Proof.
  intros Hw Hh Hm Hnew Hx Hy.
  pose proof (NewGame_Inv _ _ _ _ _ _ (proj1 Hw) (proj1 Hh) (proj1 Hm) Hnew) as HI.
  apply NewGame_inr in Hnew as (Hg & _ & _ & Hmax).
  assert (width g = w /\ height g = h /\ mines g = m /\ endedAt g = None /\ hlen g = 0)
    as (Hgw & Hgh & Hgm & Hen & Hl) by (by subst g).
  split; [apply enough_draws_exist; lia |]. split.
  - intros rs fuel Hrs Hfuel.
    destruct (ClickTile_first_returns fuel now x y flag g rs HI Hl)
      as (e & s' & ts & Hrun & _); try lia; [by rewrite Hgw, Hgh, Hgm |].
    by exists e, s'.
  - intros rs fuel e s' Hrun.
    set (big := (fuel + S (Z.to_nat (width g * height g)))%nat).
    pose proof (ClickTile_mono now fuel big ltac:(lia) _ _ _ _ _ _ Hrun) as Hbig.
    pose proof (ClickTile_first big now x y flag g rs HI Hl ltac:(lia) ltac:(lia) ltac:(lia))
      as H1.
    rewrite Hbig in H1. destruct H1 as (HI' & Hl' & Hw' & He & ts & Hgen & Hvals & _).
    split; [by apply He |]. split.
    + rewrite (countb_fmap_value _ _ Hvals), <- Hgm. apply Hgen.
    + destruct (gen_ignore _ _ _ _ Hgen) as (t0 & Ht0 & Hm0).
      apply idx_Some_inv in Ht0 as [Hr Ht0].
      assert ((value <$> ts) !! Z.to_nat (index (width g) x y) = Some (value t0)) as Hv0
        by (by rewrite list_lookup_fmap, Ht0).
      rewrite <- Hvals, list_lookup_fmap in Hv0.
      destruct (latest (game s') !! Z.to_nat (index (width g) x y)) as [t |] eqn:Et; [| done].
      exists t. split.
      * unfold tile_at. rewrite Hw'. by rewrite idx_lookup by lia.
      * simpl in Hv0. unfold isMine in *. congruence.
Qed.

Lemma row1_run : ClickTile 4 101 1 0 false row0 = Ret None row1.
Proof. vm_compute. reflexivity. Qed.

Lemma mines_safe_first_click_witness :
  (exists e s', ClickTile 4 101 1 0 false row0 = Ret e s')
  /\ Z.of_nat (countb isMine (latest (game row1))) = 1
  /\ exists t, tile_at (game row1) 1 0 = Some t /\ isMine t = false.
Proof.
  destruct (mines_safe_first_click 7 100 3 1 1 (game row0) 101 1 0 false)
    as (_ & Hreturns & Hright); [lia | lia | lia | reflexivity | lia | lia |].
  split.
  - apply (Hreturns (rand row0) 4%nat row0_draws). lia.
  - destruct (Hright (rand row0) 4%nat None row1 row1_run) as (_ & Hcount & Hcell).
    split; [exact Hcount | exact Hcell].
Defined.

(** The mines stay where the first call has put them: no later call
    changes the value of a tile. *)
Lemma mines_values_kept fuel now x y flag g rs e g' rs' :
  Inv g -> 0 < hlen g -> 0 <= x -> 0 <= y ->
  ClickTile fuel now x y flag (World g rs) = Ret e (World g' rs') ->
  value <$> latest g' = value <$> latest g.
Proof.
  intros HI Hl Hx0 Hy0 Hrun. pose proof (Inv_WF _ HI) as Hwf.
  set (big := (fuel + S (Z.to_nat (width g * height g)))%nat).
  pose proof (ClickTile_mono now fuel big ltac:(lia) _ _ _ _ _ _ Hrun) as Hbig.
  destruct (Z.le_gt_cases (width g) x) as [Hx | Hx].
  { destruct (ClickTile_outside (big - 1) now x y flag (World g rs)) as [msg Hm];
      [by left |].
    replace (S (big - 1)) with big in Hm by lia. rewrite Hbig in Hm. by injection Hm as _ ->. }
  destruct (Z.le_gt_cases (height g) y) as [Hy | Hy].
  { destruct (ClickTile_outside (big - 1) now x y flag (World g rs)) as [msg Hm];
      [by right |].
    replace (S (big - 1)) with big in Hm by lia. rewrite Hbig in Hm. by injection Hm as _ ->. }
  destruct (ClickTile_placed big now x y flag g rs)
    as (e' & g'' & Hrun' & _ & Hgr & _); try done; try lia.
  { pose proof (unclicked_le_length (latest g)).
    pose proof (latest_length g Hwf). lia. }
  rewrite Hbig in Hrun'. injection Hrun' as _ ->. apply Hgr.
Qed.


(** ** Winning *)

(** C2. After a move that was accepted: if every tile is clicked or a
    mine, the game has ended, and it has ended as won unless a mine was
    clicked; and the view of a game that is won gives the mine count as
    its flag count, whatever the field [flags] holds. *)
Theorem mines_win_detection s fuel now x y flag s' :
  reachable s -> 0 <= x < 65536 -> 0 <= y < 65536 ->
  ClickTile fuel now x y flag s = Ret None s' ->
  (Forall (fun t => done_tile t = true) (latest (game s')) ->
   endedAt (game s) = None /\ endedAt (game s') <> None
   /\ ((forall t, t ∈ latest (game s') -> clicked t = true -> value t <> 9) ->
       won (game s') = true))
  /\ (endedAt (game s') <> None -> won (game s') = true ->
      exists v, JSON (game s') = Some v
        /\ v_flags v = mines (game s') /\ v_won v = Some true
        /\ v_ended_at v = endedAt (game s')).
Proof.
  intros Hr Hx Hy Hrun. pose proof (reachable_Inv s Hr) as HI. destruct s as [g rs].
  cbn [game rand] in *.
  destruct (ClickTile_cases _ _ _ _ _ _ _ _ _ HI (proj1 Hx) (proj1 Hy) Hrun)
    as [(He & _) | (_ & _ & [HI' Hch] & Hl & _ & Hen)]; [done |].
  split.
  - intros Hdone. pose proof (hlen_nonneg g).
    assert (endedAt g = None) as Hen0.
    { destruct (endedAt g) eqn:E; [| done]. exfalso. by apply Hen. }
    split; [done |].
    assert (endedAt (game s') <> None) as Hen'.
    { destruct Hch as [Hch | Hch]; [lia | done |]. exfalso. apply Hch. by apply scan_all. }
    split; [done |]. intros Hsafe.
    destruct (won (game s')) eqn:Hw; [done |]. exfalso.
    destruct (inv_lost _ HI' Hen' Hw) as (t & Ht & Hc & Hv). by apply (Hsafe t).
  - intros Hen' Hw. destruct (JSON_total (game s') (inv_wf _ HI')) as (v & Hv & _).
    exists v. split; [done |]. unfold JSON in Hv.
    destruct (labels _ _ _ _); [| done]. injection Hv as <-. simpl. rewrite Hw.
    by destruct (endedAt (game s')).
Qed.

(** A board of two tiles by two without a mine: the first click opens
    all of it and the game is won. *)
Definition square0 : world :=
  World (mkGame 7 2 2 0 0 (Some 100) None [] false ∅) [].

Definition square1 : world := next 101 0 0 false square0.

Lemma square0_reachable : reachable square0.
Proof. unfold square0. by apply (reach_new 7 100 2 2 0); [lia | lia | lia |]. Qed.

(** ** Termination *)

(** C7. On a game with the mines placed, a call of [ClickTile] in bounds
    returns as soon as its budget for nested calls exceeds the number of
    tiles that are not clicked; no tile loses its click on the way. *)
Theorem mines_click_terminates s fuel now x y flag :
  reachable s -> 0 < hlen (game s) ->
  0 <= x < width (game s) -> 0 <= y < height (game s) ->
  (unclicked (latest (game s)) < fuel)%nat ->
  exists e s', ClickTile fuel now x y flag s = Ret e s'
    /\ (unclicked (latest (game s')) <= unclicked (latest (game s)))%nat.
Proof.
  intros Hr Hl Hx Hy Hfuel. pose proof (reachable_Inv s Hr) as HI. destruct s as [g rs].
  cbn [game rand] in *.
  destruct (ClickTile_placed fuel now x y flag g rs HI Hl Hx Hy Hfuel)
    as (e & g' & Hrun & _ & Hgr & _).
  exists e, (World g' rs). split; [done |].
  apply stays_clicked_unclicked, Hgr.
Qed.


Lemma row2_shape :
  width (game row2) = 3 /\ height (game row2) = 1 /\ hlen (game row2) = 2
  /\ endedAt (game row2) = None
  /\ latest (game row2) = [Tile 0 true false; Tile 1 false true; Tile 9 false false].
Proof. vm_compute. repeat split. Qed.

Lemma row3_run : ClickTile 3 103 1 0 false row2 = Ret None row3.
Proof. vm_compute. reflexivity. Qed.

Lemma square1_run : ClickTile 4 101 0 0 false square0 = Ret None square1.
Proof. vm_compute. reflexivity. Qed.

Lemma square1_shape :
  latest (game square1) = replicate 4 (Tile 0 false true).
Proof. vm_compute. reflexivity. Qed.

Lemma mines_click_terminates_witness :
  reachable row2 /\
  exists e s', ClickTile 3 103 1 0 false row2 = Ret e s'
    /\ (unclicked (latest (game s')) <= unclicked (latest (game row2)))%nat.
Proof.
  split; [apply row2_reachable |].
  destruct row2_shape as (Hw & Hh & Hl & _ & Hla).
  apply (mines_click_terminates row2 3 103 1 0 false row2_reachable).
  - lia.
  - lia.
  - lia.
  - rewrite Hla. cbn; lia.
Defined.

Lemma mines_win_detection_witness :
  reachable square0 /\ endedAt (game square1) <> None /\ won (game square1) = true
  /\ exists v, JSON (game square1) = Some v /\ v_flags v = mines (game square1).
Proof.
  split; [apply square0_reachable |].
  destruct (mines_win_detection square0 4 101 0 0 false square1 square0_reachable)
    as [H1 H2]; [lia | lia | apply square1_run |].
  destruct H1 as (_ & He & Hw).
  { rewrite square1_shape. repeat constructor. }
  assert (won (game square1) = true) as Hwon.
  { apply Hw. rewrite square1_shape. intros t Ht Hc Hv.
    apply elem_of_replicate in Ht as [-> _]. done. }
  split; [exact He |]. split; [exact Hwon |].
  destruct (H2 He Hwon) as (v & Hv & Hf & _). exists v. split; [exact Hv | exact Hf].
Defined.
(** ** Chording *)












Lemma row2_tile x :
  0 <= x < 3 ->
  tile_at (game row2) x 0
  = [Tile 0 true false; Tile 1 false true; Tile 9 false false] !! Z.to_nat x.
Proof.
  intros Hx. destruct row2_shape as (Hw & _ & _ & _ & Hla).
  unfold tile_at. rewrite Hw, Hla. unfold index. by rewrite idx_lookup by lia.
Qed.

Lemma row2_flag_count : flag_count (game row2) 1 0 = 1.
Proof. vm_compute. reflexivity. Qed.

Lemma row3_shape :
  width (game row3) = 3 /\ endedAt (game row3) = Some 103 /\ won (game row3) = false
  /\ latest (game row3) = [Tile 0 true false; Tile 1 false true; Tile 9 false true].
Proof. vm_compute. repeat split. Qed.

(** C10. Chording is not safe: in the reachable game [row2] the middle
    tile is clicked and shows 1, its one flagged neighbor is no mine, and
    the click on it opens the mine on the other side: the game is lost. *)
Theorem mines_chord_can_lose :
  exists s x y t,
    reachable s /\ endedAt (game s) = None
    /\ tile_at (game s) x y = Some t /\ clicked t = true
    /\ flag_count (game s) x y = value t
    /\ (exists i j tf, (i, j) ∈ offsets /\ tile_at (game s) (x + i) (y + j) = Some tf
          /\ flagged tf = true /\ isMine tf = false)
    /\ exists s' i j tm,
          ClickTile 3 103 x y false s = Ret None s'
          /\ endedAt (game s') <> None /\ won (game s') = false
          /\ (i, j) ∈ offsets /\ tile_at (game s') (x + i) (y + j) = Some tm
          /\ isMine tm = true /\ flagged tm = false /\ clicked tm = true.
Proof.
  destruct row2_shape as (Hw & Hh & Hl & Hen & Hla).
  destruct row3_shape as (Hw3 & Hen3 & Hwon3 & Hla3).
  exists row2, 1, 0, (Tile 1 false true).
  split; [apply row2_reachable |]. split; [exact Hen |].
  split; [exact (row2_tile 1 ltac:(lia)) |]. split; [reflexivity |].
  split; [exact row2_flag_count |]. split.
  - exists (-1), 0, (Tile 0 true false). split; [apply offsets_spec; split; [lia | split; [lia | discriminate]] |].
    split; [exact (row2_tile 0 ltac:(lia)) | split; reflexivity].
  - exists row3, 1, 0, (Tile 9 false true).
    split; [exact row3_run |]. split; [rewrite Hen3; discriminate |].
    split; [exact Hwon3 |]. split; [apply offsets_spec; split; [lia | split; [lia | discriminate]] |].
    split; [| repeat split].
    unfold tile_at. rewrite Hw3, Hla3. reflexivity.
Qed.

End MinesRules.

(** * Package mines: what one move does *)

Lemma scan_alter (f : tile -> tile) (i : nat) (ts : list tile) :
  (forall t, clicked (f t) = clicked t /\ value (f t) = value t) ->
  scan (alter f i ts) = scan ts.
Proof.
  intros Hf. rewrite !scan_count. f_equal.
  revert i. induction ts as [| t ts IH]; intros [| i]; simpl; try done.
  - destruct (Hf t) as [Hc Hv]. unfold done_tile, isMine. by rewrite Hc, Hv.
  - change (list_alter f i ts) with (alter f i ts). by rewrite IH.
Qed.

Lemma alter_set_flagged_back (i : nat) (ts : list tile) t b :
  ts !! i = Some t -> flagged t = negb b ->
  alter (set_flagged (negb b)) i (alter (set_flagged b) i ts) = ts.
Proof.
  intros Ht Hf. apply list_eq. intros j. destruct (decide (i = j)) as [<- | Hne].
  - rewrite !list_lookup_alter_eq, Ht. simpl. f_equal.
    destruct t as [v fl cl]. simpl in *. by subst fl.
  - by rewrite !list_lookup_alter_ne.
Qed.

Module MinesMoves.
Import Mines MinesSpec MinesHist MinesSteps MinesRun MinesTop.

(** The game once the turn of a call in bounds is recorded: the new turn
    starts from a copy of the tiles of the last one. *)
Definition recorded (now x y : Z) (flag : bool) (g : Game) : Game :=
  push (Turn x y flag (Some now) (latest g)) g.

(** [tile.flagged = b] with [g.flags++] or [g.flags--], on the last turn. *)
Definition flag_set (b : bool) (i : Z) (g : Game) : Game :=
  set_flags (u16 (flags g + (if b then 1 else -1)))
    (upd_tile (hlen g - 1) i (set_flagged b) g).

(** [tile.clicked = true], on the last turn. *)
Definition opened (i : Z) (g : Game) : Game :=
  upd_tile (hlen g - 1) i (set_clicked true) g.

Lemma hlen_positive g x y t : WF g -> tile_at g x y = Some t -> 0 < hlen g.
Proof.
  intros Hwf Ht. pose proof (hlen_nonneg g).
  destruct (Z.eq_dec (hlen g) 0) as [E | E]; [| lia].
  unfold tile_at in Ht. rewrite latest_empty in Ht by (apply Hwf || done).
  unfold idx in Ht. destruct (index (width g) x y <? 0); [done |].
  by rewrite lookup_nil in Ht.
Qed.

Lemma recorded_facts now x y flag g :
  Inv0 g -> 0 < hlen g ->
  let g1 := recorded now x y flag g in
  Inv0 g1 /\ hlen g1 = hlen g + 1 /\ latest g1 = latest g
  /\ (forall x2 y2, tile_at g1 x2 y2 = tile_at g x2 y2).
Proof.
  intros HI Hl g1. pose proof (inv_wf _ HI) as Hwf.
  assert (latest g1 = latest g) as Hla by (by apply latest_push, Hwf).
  split; [apply (rstep_Inv0 g); [by constructor | done] |].
  split; [apply hlen_push, Hwf |]. split; [done |].
  intros. unfold tile_at. by rewrite Hla.
Qed.

(** The win check changes nothing while a tile is left that is neither
    clicked nor a mine. *)
Lemma winCheck_idle now g :
  scan (latest g) <> Z.of_nat (length (latest g)) ->
  winCheck now (hlen g - 1) g = g.
Proof.
  intros Hs. unfold winCheck. destruct (IsZero (endedAt g)); [| done].
  fold (latest g). by destruct (Z.eqb_spec (scan (latest g)) (Z.of_nat (length (latest g)))).
Qed.

Lemma winCheck_ended now k g : endedAt g <> None -> winCheck now k g = g.
Proof. intros Hen. unfold winCheck. by destruct (endedAt g). Qed.

Lemma latest_flag_set b i g :
  latest (flag_set b i g) = alter (set_flagged b) (Z.to_nat i) (latest g).
Proof. apply latest_upd_tile. Qed.

Lemma hlen_flag_set b i g : hlen (flag_set b i g) = hlen g.
Proof. unfold flag_set. by rewrite hlen_set_flags, hlen_upd_tile. Qed.

Lemma latest_opened i g :
  latest (opened i g) = alter (set_clicked true) (Z.to_nat i) (latest g).
Proof. apply latest_upd_tile. Qed.

Lemma hlen_opened i g : hlen (opened i g) = hlen g.
Proof. apply hlen_upd_tile. Qed.

(** ** From the test of the tile on *)

Section Act.

Variable click : Z -> Z -> bool -> world -> res world (option string).
Variables (g1 : Game) (rs : list Z) (now x y : Z) (t : tile).
Hypothesis Hwf : WF g1.
Hypothesis Hx : 0 <= x < width g1.
Hypothesis Hy : 0 <= y < height g1.
Hypothesis Ht : tile_at g1 x y = Some t.

Let i : Z := index (width g1) x y.

Lemma act_tile flag :
  act click now (hlen g1 - 1) x y flag (World g1 rs)
  = match
      (if clicked t then
         if negb flag then
           match countFlags g1 x y with
           | None => Panic
           | Some f => if f =? value t then clickNeighbors click x y (World g1 rs)
                       else Ret tt (World g1 rs)
           end
         else Ret tt (World g1 rs)
       else if negb (flagged t) then
         if flag then
           Ret tt (World (flag_set true i g1) rs)
         else
           if 9 =? value t then Ret tt (World (set_endedAt (Some now) (opened i g1)) rs)
           else if 0 =? value t then clickNeighbors click x y (World (opened i g1) rs)
           else Ret tt (World (opened i g1) rs)
       else if flagged t && flag then
         Ret tt (World (flag_set false i g1) rs)
       else Ret tt (World g1 rs))
    with
    | Ret _ s3 => Ret None (on_game (winCheck now (hlen g1 - 1)) s3)
    | Panic => Panic
    | Exhausted => Exhausted
    | Starved => Starved
    end.
Proof.
  pose proof (wf_width _ Hwf). pose proof (wf_height _ Hwf).
  unfold act. cbn [game rand]. rewrite (index16_small _ (height g1)) by lia.
  fold (latest g1). fold i. change (idx (latest g1) i) with (tile_at g1 x y).
  by rewrite Ht.
Qed.

(** A flag on a tile that is not clicked. *)
Lemma act_flag :
  scan (latest g1) <> Z.of_nat (length (latest g1)) -> clicked t = false ->
  act click now (hlen g1 - 1) x y true (World g1 rs)
  = Ret None (World (flag_set (negb (flagged t)) i g1) rs).
Proof.
  intros Hs Hc. rewrite act_tile, Hc. cbn [negb].
  assert (forall b, winCheck now (hlen g1 - 1) (flag_set b i g1) = flag_set b i g1) as Hwc.
  { intros b. rewrite <- (hlen_flag_set b i g1). apply winCheck_idle.
    rewrite latest_flag_set, length_alter, scan_alter; done. }
  destruct (flagged t); cbn [negb andb]; rewrite on_game_World; by rewrite Hwc.
Qed.

(** A flag on a clicked tile and a click on a flagged one do nothing. *)
Lemma act_idle flag :
  scan (latest g1) <> Z.of_nat (length (latest g1)) ->
  (clicked t = true /\ flag = true)
  \/ (clicked t = false /\ flagged t = true /\ flag = false) ->
  act click now (hlen g1 - 1) x y flag (World g1 rs) = Ret None (World g1 rs).
Proof.
  intros Hs Hcase. rewrite act_tile.
  destruct Hcase as [[-> ->] | (-> & -> & ->)]; cbn [negb andb];
    rewrite on_game_World; by rewrite winCheck_idle.
Qed.

(** A click on a mine. *)
Lemma act_mine :
  clicked t = false -> flagged t = false -> value t = 9 ->
  act click now (hlen g1 - 1) x y false (World g1 rs)
  = Ret None (World (set_endedAt (Some now) (opened i g1)) rs).
Proof.
  intros Hc Hf Hv. rewrite act_tile, Hc, Hf, Hv. cbn [negb Z.eqb Pos.eqb].
  rewrite on_game_World. by rewrite winCheck_ended.
Qed.

(** A click on a tile with mines around it. *)
Lemma act_number :
  clicked t = false -> flagged t = false -> value t <> 9 -> value t <> 0 ->
  act click now (hlen g1 - 1) x y false (World g1 rs)
  = Ret None (World (winCheck now (hlen g1 - 1) (opened i g1)) rs).
Proof.
  intros Hc Hf H9 H0. rewrite act_tile, Hc, Hf. cbn [negb].
  destruct (Z.eqb_spec 9 (value t)); [congruence |].
  destruct (Z.eqb_spec 0 (value t)); [congruence |]. done.
Qed.

End Act.

(** ** A move on a game that goes on *)

Section Move.

Variables (s : world) (fuel : nat) (now x y : Z) (t : tile).
Hypothesis Hr : reachable s.
Hypothesis Hen : endedAt (game s) = None.
Hypothesis Hx : 0 <= x < width (game s).
Hypothesis Hy : 0 <= y < height (game s).
Hypothesis Ht : tile_at (game s) x y = Some t.

Let g : Game := game s.
Let i : Z := index (width g) x y.

Lemma move_tile flag :
  let g1 := recorded now x y flag g in
  ClickTile (S fuel) now x y flag s
  = act (ClickTile fuel now) now (hlen g1 - 1) x y flag (World g1 (rand s))
  /\ Inv0 g1 /\ hlen g1 = hlen g + 1 /\ latest g1 = latest g
  /\ tile_at g1 x y = Some t
  /\ scan (latest g1) <> Z.of_nat (length (latest g1)).
Proof.
  intros g1. destruct (reachable_Inv s Hr) as [HI Hch]. fold g in HI, Hch.
  pose proof (inv_wf _ HI) as Hwf. pose proof (hlen_positive g x y t Hwf Ht) as Hl.
  destruct (recorded_facts now x y flag g HI Hl) as (HI1 & Hl1 & Hla & Hta).
  fold g1 in HI1, Hl1, Hla, Hta.
  split.
  { destruct s as [g0 rs]. cbn [game rand] in *. subst g.
    rewrite ClickTile_unfold, ClickTile_body_push by done. cbv zeta. rewrite Hen.
    cbn [IsZero negb]. f_equal. fold g1. lia. }
  split; [done |]. split; [done |]. split; [done |]. split; [by rewrite Hta |].
  rewrite Hla. destruct (Hch Hl) as [He | Hs]; [by destruct He | done].
Qed.

Lemma flag_result :
  clicked t = false ->
  ClickTile (S fuel) now x y true s
  = Ret None (World (flag_set (negb (flagged t)) i (recorded now x y true g)) (rand s)).
Proof.
  intros Hc. destruct (move_tile true) as (-> & HI1 & _ & _ & Ht1 & Hs1).
  by rewrite (act_flag _ _ _ _ _ _ t (inv_wf _ HI1) Hx Hy Ht1 Hs1 Hc).
Qed.

Lemma idle_result flag :
  (clicked t = true /\ flag = true)
  \/ (clicked t = false /\ flagged t = true /\ flag = false) ->
  ClickTile (S fuel) now x y flag s = Ret None (World (recorded now x y flag g) (rand s)).
Proof.
  intros Hcase. destruct (move_tile flag) as (-> & HI1 & _ & _ & Ht1 & Hs1).
  by rewrite (act_idle _ _ _ _ _ _ t (inv_wf _ HI1) Hx Hy Ht1 flag Hs1 Hcase).
Qed.

Lemma mine_result :
  clicked t = false -> flagged t = false -> value t = 9 ->
  ClickTile (S fuel) now x y false s
  = Ret None (World (set_endedAt (Some now) (opened i (recorded now x y false g))) (rand s)).
Proof.
  intros Hc Hf Hv. destruct (move_tile false) as (-> & HI1 & _ & _ & Ht1 & _).
  by rewrite (act_mine _ _ _ _ _ _ t (inv_wf _ HI1) Hx Hy Ht1 Hc Hf Hv).
Qed.

Lemma number_result :
  clicked t = false -> flagged t = false -> value t <> 9 -> value t <> 0 ->
  let g1 := recorded now x y false g in
  ClickTile (S fuel) now x y false s
  = Ret None (World (winCheck now (hlen g1 - 1) (opened i g1)) (rand s)).
Proof.
  intros Hc Hf H9 H0 g1. destruct (move_tile false) as (-> & HI1 & _ & _ & Ht1 & _).
  by rewrite (act_number _ _ _ _ _ _ t (inv_wf _ HI1) Hx Hy Ht1 Hc Hf H9 H0).
Qed.

End Move.

End MinesMoves.

(** * Package mines: every call as a run of elementary steps *)

Module MinesTrace.
Import Mines MinesSpec MinesHist MinesSteps MinesRun MinesGenerate MinesMono MinesTop MinesMoves.

(** A flag step: the flag of a tile that is not clicked is toggled. *)
Inductive fstep : Game -> Game -> Prop :=
| fs_flag g i t b :
    endedAt g = None -> idx (latest g) i = Some t ->
    clicked t = false -> flagged t = negb b ->
    fstep g (flag_set b i g).

Definition move (g g' : Game) : Prop := rstep g g' \/ fstep g g'.

Definition moves : Game -> Game -> Prop := rtc move.

Lemma rsteps_moves g g' : rsteps g g' -> moves g g'.
Proof.
  induction 1 as [| g1 g2 g3 Hs _ IH]; [apply rtc_refl |].
  eapply rtc_l; [left; exact Hs | exact IH].
Qed.

Lemma move_WF g g' : move g g' -> WF g -> WF g'.
Proof.
  intros [Hs | Hs] Hwf; [by eapply rstep_WF |].
  destruct Hs. by apply WF_set_flags, WF_upd_tile.
Qed.

(** What a step does to the tiles of the last turn: nothing, or a click
    on a tile that is neither clicked nor flagged, or a flag toggled on a
    tile that is not clicked. *)
Inductive tstep : list tile -> list tile -> Prop :=
| ts_same ts : tstep ts ts
| ts_click ts i t :
    ts !! i = Some t -> clicked t = false -> flagged t = false ->
    tstep ts (alter (set_clicked true) i ts)
| ts_flag ts i t b :
    ts !! i = Some t -> clicked t = false -> flagged t = negb b ->
    tstep ts (alter (set_flagged b) i ts).

Lemma move_tstep g g' :
  WF g -> move g g' ->
  tstep (latest g) (latest g')
  /\ width g' = width g /\ height g' = height g /\ mines g' = mines g
  /\ hlen g <= hlen g'.
Proof.
  intros Hwf [Hs | Hs].
  - destruct Hs as [g x y flag now Hl | g i t Hen Ht Hc Hf Hv | g i t now Hen Ht Hc Hf Hv
                   | g now Hen].
    + rewrite latest_push, hlen_push by apply Hwf. cbn [tiles].
      split; [constructor |]. repeat split; lia.
    + apply idx_Some_inv in Ht as [_ Ht]. rewrite latest_upd_tile, hlen_upd_tile.
      split; [by eapply ts_click |]. repeat split; lia.
    + apply idx_Some_inv in Ht as [_ Ht].
      change (latest (set_endedAt ?a ?g0)) with (latest g0).
      change (hlen (set_endedAt ?a ?g0)) with (hlen g0).
      rewrite latest_upd_tile, hlen_upd_tile.
      split; [by eapply ts_click |]. repeat split; lia.
    + split; [constructor |]. repeat split. unfold End, hlen. simpl. lia.
  - destruct Hs as [g i t b Hen Ht Hc Hf]. apply idx_Some_inv in Ht as [_ Ht].
    rewrite latest_flag_set, hlen_flag_set.
    split; [by eapply ts_flag |]. repeat split; lia.
Qed.

(** A property of the tiles that the steps keep holds after a run. *)
Lemma moves_keep (P : list tile -> Prop) :
  (forall ts ts', tstep ts ts' -> P ts -> P ts') ->
  forall g g', moves g g' -> WF g -> P (latest g) ->
  P (latest g') /\ width g' = width g /\ height g' = height g /\ mines g' = mines g
  /\ hlen g <= hlen g'.
Proof.
  intros HP g g' Hm. induction Hm as [g | g1 g2 g3 Hs _ IH]; intros Hwf Hp.
  { repeat split; (done || lia). }
  destruct (move_tstep g1 g2 Hwf Hs) as (Ht & Hw & Hh & Hmi & Hl).
  destruct (IH (move_WF _ _ Hs Hwf) (HP _ _ Ht Hp)) as (Hp3 & Hw3 & Hh3 & Hm3 & Hl3).
  repeat split; (done || congruence || lia).
Qed.

(** ** The part of a call after the turn is recorded *)

Lemma rest_moves now n g1 rs x y flag :
  Inv0 g1 -> settled g1 -> 0 < hlen g1 ->
  0 <= x < width g1 -> 0 <= y < height g1 ->
  (unclicked (latest g1) <= n)%nat ->
  exists e g', rest now n x y flag g1 rs = Ret e (World g' rs) /\ moves g1 g'.
Proof.
  intros HI Hset Hl Hx Hy Hn. pose proof (inv_wf _ HI) as Hwf. unfold rest.
  destruct (endedAt g1) as [tm |] eqn:Hen; cbn [IsZero negb].
  { eexists _, g1. split; [done | apply rtc_refl]. }
  destruct (tile_at_is_Some g1 x y) as [t Ht]; try done.
  destruct flag.
  - assert (scan (latest g1) <> Z.of_nat (length (latest g1))) as Hs.
    { destruct Hset as [He | Hs]; [| done]. unfold ended in He. congruence. }
    destruct (clicked t) eqn:Hc.
    + exists None, g1. split; [| apply rtc_refl].
      apply (act_idle _ _ _ _ _ _ t); try done. by left.
    + exists None, (flag_set (negb (flagged t)) (index (width g1) x y) g1).
      split; [by apply act_flag |].
      apply rtc_once. right. apply (fs_flag g1 _ t); try done.
      by destruct (flagged t).
  - destruct (act_reveal_ok n (ClickTile n now) (ClickTile_ok now n) g1 rs now x y t)
      as (g' & Hrun & Hst & _); try done; [by left |].
    exists None, g'. split; [done | by apply rsteps_moves].
Qed.

(** ** A call *)

(** A call on a game with turns that returns: out of bounds it leaves
    the game as it is, in bounds the game moves by steps. *)
Lemma ClickTile_moves fuel now x y flag g rs e s' :
  Inv g -> 0 < hlen g -> 0 <= x -> 0 <= y ->
  ClickTile fuel now x y flag (World g rs) = Ret e s' ->
  rand s' = rs /\ moves g (game s').
Proof.
  intros [HI Hch] Hl Hx0 Hy0 Hrun. pose proof (inv_wf _ HI) as Hwf.
  set (big := (fuel + S (Z.to_nat (width g * height g)))%nat).
  pose proof (ClickTile_mono now fuel big ltac:(lia) _ _ _ _ _ _ Hrun) as Hbig.
  assert (exists n, big = S n /\ (unclicked (latest g) <= n)%nat) as (n & -> & Hn).
  { exists (fuel + Z.to_nat (width g * height g))%nat. split; [lia |].
    pose proof (unclicked_le_length (latest g)).
    pose proof (latest_length g Hwf Hl). lia. }
  destruct (Z.le_gt_cases (width g) x) as [Hx | Hx].
  { destruct (ClickTile_outside n now x y flag (World g rs)) as [msg Hm]; [by left |].
    rewrite Hbig in Hm. injection Hm as _ ->. split; [done | apply rtc_refl]. }
  destruct (Z.le_gt_cases (height g) y) as [Hy | Hy].
  { destruct (ClickTile_outside n now x y flag (World g rs)) as [msg Hm]; [by right |].
    rewrite Hbig in Hm. injection Hm as _ ->. split; [done | apply rtc_refl]. }
  rewrite ClickTile_unfold, ClickTile_body_push in Hbig by done. cbv zeta in Hbig.
  set (g1 := push (Turn x y flag (Some now) (latest g)) g) in *.
  assert (rstep g g1) as Hstep by (by constructor).
  assert (hlen g1 = hlen g + 1) as Hl1 by apply hlen_push, Hwf.
  assert (latest g1 = latest g) as Hla by (by apply latest_push, Hwf).
  destruct (rest_moves now n g1 rs x y flag) as (e' & g' & Hrest & Hm); try done; try lia.
  { by eapply rstep_Inv0. }
  { destruct (Hch Hl) as [He | Hs]; [left | right].
    - unfold ended in *. done.
    - by rewrite Hla. }
  { by rewrite Hla. }
  unfold rest in Hrest. rewrite Hl1 in Hrest.
  replace (hlen g + 1 - 1) with (hlen g) in Hrest by lia.
  change (endedAt g1) with (endedAt g) in Hrest.
  rewrite Hrest in Hbig. injection Hbig as _ <-.
  split; [done |]. eapply rtc_l; [left; exact Hstep | exact Hm].
Qed.

(** The first call in bounds that returns: the game moves by steps from
    the game with the generated grid as its first turn. *)
Lemma ClickTile_first_moves fuel now x y flag g rs e s' :
  Inv g -> hlen g = 0 -> 0 <= x < width g -> 0 <= y < height g ->
  ClickTile fuel now x y flag (World g rs) = Ret e s' ->
  exists ts,
    generateTiles g x y rs = Ret ts (rand s')
    /\ WF (push (Turn x y flag (Some now) ts) g)
    /\ moves (push (Turn x y flag (Some now) ts) g) (game s').
Proof.
  intros [HI _] Hl Hx Hy Hrun. pose proof (inv_wf _ HI) as Hwf.
  pose proof (wf_width _ Hwf) as Hw. pose proof (wf_height _ Hwf) as Hh.
  pose proof (wf_mines _ Hwf) as Hm.
  set (n := (fuel + Z.to_nat (width g * height g))%nat).
  pose proof (ClickTile_mono now fuel (S n) ltac:(lia) _ _ _ _ _ _ Hrun) as Hbig.
  rewrite ClickTile_unfold in Hbig. unfold ClickTile_body in Hbig. cbn [game rand] in Hbig.
  destruct (Z.leb_spec (width g) x); [lia |].
  destruct (Z.leb_spec (height g) y); [lia |].
  unfold turnTiles in Hbig. destruct (Z.eqb_spec 0 (hlen g)) as [_ | Hne]; [| lia].
  pose proof (generateTiles_post g x y rs Hw Hh ltac:(nia) Hx Hy) as Hg.
  destruct (generateTiles g x y rs) as [ts rs' | | |]; [| done | done | done].
  set (g1 := push (Turn x y flag (Some now) ts) g) in *.
  assert (hlen g1 = 1) as Hl1 by (unfold g1; rewrite hlen_push by apply Hwf; lia).
  assert (latest g1 = ts) as Hla by (by apply latest_push, Hwf).
  pose proof (first_turn_Inv0 g x y flag now ts HI Hl Hg) as HI1. fold g1 in HI1.
  destruct (rest_moves now n g1 rs' x y flag) as (e' & g' & Hrest & Hmv); try done; try lia.
  { destruct (endedAt g1) eqn:Hen; [left; unfold ended; congruence | right].
    rewrite Hla, scan_count.
    assert (countb done_tile ts = countb isMine ts) as ->.
    { pose proof (gen_fresh _ _ _ _ Hg) as Hf. clear -Hf.
      induction Hf as [| t ts' [_ Hc] _ IH]; simpl; [done |].
      rewrite IH. unfold done_tile. by rewrite Hc. }
    rewrite (gen_count _ _ _ _ Hg), (gen_length _ _ _ _ Hg). lia. }
  { rewrite Hla. pose proof (unclicked_le_length ts).
    pose proof (gen_length _ _ _ _ Hg). lia. }
  unfold rest in Hrest. rewrite Hl1 in Hrest.
  replace (1 - 1) with (hlen g) in Hrest by lia.
  change (endedAt g1) with (endedAt g) in Hrest.
  change (set_history _ g) with g1 in Hbig.
  rewrite Hrest in Hbig. injection Hbig as _ <-.
  exists ts. split; [done |]. split; [apply HI1 | done].
Qed.

(** ** Properties of the tiles of every reachable game *)

(** A property of the dimensions, the mine count and the tiles holds in
    every reachable game with turns if the generated grid has it and the
    steps keep it. *)
Theorem reachable_tiles (P : Z -> Z -> Z -> list tile -> Prop) :
  (forall g ix iy rs ts rs',
     WF g -> 0 <= ix < width g -> 0 <= iy < height g ->
     generateTiles g ix iy rs = Ret ts rs' -> P (width g) (height g) (mines g) ts) ->
  (forall w h m ts ts', tstep ts ts' -> P w h m ts -> P w h m ts') ->
  forall s, reachable s -> 0 < hlen (game s) ->
  P (width (game s)) (height (game s)) (mines (game s)) (latest (game s)).
Proof.
  intros Hgen Hkeep s Hr.
  induction Hr as [uid now w h m g rs Hw Hh Hm Hnew | s fuel now x y flag e s' Hr IH Hx Hy Hrun
                  | s b now Hr IH]; intros Hl.
  - exfalso. unfold NewGame in Hnew.
    destruct (250 <? w); [done |]. destruct (250 <? h); [done |].
    destruct (w * h - 2 <? m); [done |]. injection Hnew as <-.
    unfold hlen in Hl. simpl in Hl. rewrite map_size_empty in Hl. lia.
  - pose proof (reachable_Inv s Hr) as HI. destruct s as [g rs]. cbn [game rand] in *.
    pose proof (Inv_WF _ HI) as Hwf. pose proof (hlen_nonneg g) as Hl0.
    destruct (Z.eq_dec (hlen g) 0) as [E | E].
    + destruct (Z.le_gt_cases (width g) x) as [Hxo | Hxi];
        [| destruct (Z.le_gt_cases (height g) y) as [Hyo | Hyi]].
      * exfalso. destruct fuel as [| n]; [done |].
        destruct (ClickTile_outside n now x y flag (World g rs)) as [msg Hm]; [by left |].
        rewrite Hrun in Hm. injection Hm as _ ->. cbn [game] in Hl. lia.
      * exfalso. destruct fuel as [| n]; [done |].
        destruct (ClickTile_outside n now x y flag (World g rs)) as [msg Hm]; [by right |].
        rewrite Hrun in Hm. injection Hm as _ ->. cbn [game] in Hl. lia.
      * destruct (ClickTile_first_moves fuel now x y flag g rs e s' HI E)
          as (ts & Hg & Hwf1 & Hmv); [lia | lia | done |].
        pose proof (Hgen g x y rs ts _ Hwf ltac:(lia) ltac:(lia) Hg) as Hp.
        destruct (moves_keep (P (width g) (height g) (mines g))
                    (Hkeep _ _ _) _ _ Hmv Hwf1) as (Hp' & Hw' & Hh' & Hm' & _).
        { by rewrite latest_push by apply Hwf. }
        by rewrite Hw', Hh', Hm'.
    + destruct (ClickTile_moves fuel now x y flag g rs e s' HI) as [_ Hmv];
        [lia | lia | lia | done |].
      destruct (moves_keep (P (width g) (height g) (mines g))
                  (Hkeep _ _ _) _ _ Hmv Hwf) as (Hp' & Hw' & Hh' & Hm' & _).
      { apply IH. lia. }
      by rewrite Hw', Hh', Hm'.
  - destruct s as [g rs]. cbn [on_game game rand] in *. by apply IH.
Qed.

End MinesTrace.

(** * The numbers on the tiles *)

(** Whether [(x2, y2)] is a cell of the board that carries a mine. *)
Definition mine_at (w h : Z) (ts : list tile) (x2 y2 : Z) : bool :=
  if outside w h x2 y2 then false
  else match idx ts (index w x2 y2) with
       | Some t => isMine t
       | None => false
       end.

(** The number of mines on the up to eight cells around [(x, y)]. *)
Definition mines_around (w h : Z) (ts : list tile) (x y : Z) : Z :=
  Z.of_nat (countb (fun '(i, j) => mine_at w h ts (x + i) (y + j)) offsets).

(** Every tile that is no mine carries the number of mines around it. *)
Definition numbered (w h : Z) (ts : list tile) : Prop :=
  forall x y, 0 <= x < w -> 0 <= y < h ->
  exists t, idx ts (index w x y) = Some t
            /\ (isMine t = false -> value t = mines_around w h ts x y).

Lemma countb_ext {A} (p q : A -> bool) l :
  (forall a, a ∈ l -> p a = q a) -> countb p l = countb q l.
Proof.
  induction l as [| a l IH]; intros H; simpl; [done |].
  rewrite (H a) by constructor. rewrite IH; [done |].
  intros b Hb. apply H. by constructor.
Qed.

Lemma mine_at_same_mines w h ts ts' :
  Forall2 (fun t t' => isMine t' = isMine t) ts ts' ->
  forall x y, mine_at w h ts' x y = mine_at w h ts x y.
Proof.
  intros HF x y. unfold mine_at. destruct (outside w h x y); [done |].
  unfold idx. destruct (index w x y <? 0); [done |].
  destruct (ts !! Z.to_nat (index w x y)) as [t |] eqn:E.
  - by destruct (Forall2_lookup_l _ _ _ _ _ HF E) as (t' & -> & ->).
  - destruct (ts' !! Z.to_nat (index w x y)) as [t' |] eqn:E'; [| done].
    destruct (Forall2_lookup_r _ _ _ _ _ HF E') as (t & Ht & _). congruence.
Qed.

Lemma mines_around_same_mines w h ts ts' :
  Forall2 (fun t t' => isMine t' = isMine t) ts ts' ->
  forall x y, mines_around w h ts' x y = mines_around w h ts x y.
Proof.
  intros HF x y. unfold mines_around. f_equal. apply countb_ext.
  intros [i j] _. by apply mine_at_same_mines.
Qed.

Lemma same_mines_insert ts i t t' :
  ts !! i = Some t -> isMine t' = isMine t ->
  Forall2 (fun t t' => isMine t' = isMine t) ts (<[i := t']> ts).
Proof.
  intros Ht Hm. rewrite <- (list_insert_id ts i t Ht) at 1.
  apply Forall2_insert; [| done]. by apply Forall_Forall2_diag, Forall_true.
Qed.

Lemma same_mines_values ts ts' :
  value <$> ts' = value <$> ts ->
  Forall2 (fun t t' => isMine t' = isMine t) ts ts'.
Proof.
  revert ts'. induction ts as [| t ts IH]; intros [| t' ts'] H; try done.
  injection H as Hv H. constructor; [| by apply IH]. unfold isMine. by rewrite Hv.
Qed.

(** To be numbered is a matter of the values alone. *)
Lemma numbered_values w h ts ts' :
  value <$> ts' = value <$> ts -> numbered w h ts -> numbered w h ts'.
Proof.
  intros Hv Hn x y Hx Hy. destruct (Hn x y Hx Hy) as (t & Ht & Hnum).
  unfold idx in *. destruct (index w x y <? 0); [done |].
  assert ((value <$> ts') !! Z.to_nat (index w x y) = Some (value t)) as E
    by (by rewrite Hv, list_lookup_fmap, Ht).
  rewrite list_lookup_fmap in E.
  destruct (ts' !! Z.to_nat (index w x y)) as [t' |]; [| done].
  injection E as E. exists t'. split; [done |].
  rewrite (mines_around_same_mines w h ts ts' (same_mines_values _ _ Hv)).
  unfold isMine in *. rewrite E. intros Hm. rewrite <- Hnum; done.
Qed.

Module MinesNumbers.
Import Mines MinesSpec MinesHist MinesGenerate.

Section Number.

Variables w h : Z.
Hypothesis Hw : 1 <= w <= 250.
Hypothesis Hh : 1 <= h <= 250.

(** The loop around a tile adds one for every mine around it. *)
Lemma addMine_count X Y :
  0 <= X < w -> 0 <= Y < h ->
  forall l ts t,
    Z.of_nat (length ts) = w * h ->
    ts !! Z.to_nat (index w X Y) = Some t ->
    0 <= value t -> value t + Z.of_nat (length l) <= 8 ->
    exists t',
      for_each l (addMine w h X Y) ts = Some (<[Z.to_nat (index w X Y) := t']> ts)
      /\ value t'
         = value t + Z.of_nat (countb (fun '(i, j) => mine_at w h ts (X + i) (Y + j)) l).
Proof.
  intros HX HY. pose proof (index_bound w h X Y HX HY) as Hi0.
  induction l as [| [i j] l IH]; intros ts t Hlen Ht Hv Hb.
  { exists t. simpl. rewrite list_insert_id by done. split; [done | lia]. }
  cbn [for_each length countb] in *. unfold addMine at 1. unfold mine_at at 1.
  destruct (outside w h (X + i) (Y + j)) eqn:Hout.
  { destruct (IH ts t) as (t' & Hrun & Hr); try done; [lia |]. by exists t'. }
  apply outside_false in Hout as [Hxi Hyj].
  destruct (idx_is_Some ts (index w (X + i) (Y + j))) as [t2 Ht2].
  { rewrite Hlen. by apply index_bound. }
  rewrite Ht2. unfold isMine at 1. destruct (9 =? value t2).
  2: { destruct (IH ts t) as (t' & Hrun & Hr); try done; [lia |]. by exists t'. }
  rewrite idx_lookup by lia. rewrite Ht. rewrite u8_small by lia.
  set (t1 := set_value (value t + 1) t).
  destruct (IH (<[Z.to_nat (index w X Y) := t1]> ts) t1) as (t' & Hrun & Hr).
  - by rewrite length_insert.
  - apply list_lookup_insert_eq. lia.
  - simpl. lia.
  - simpl. lia.
  - exists t'. rewrite Hrun, list_insert_insert_eq. split; [done |].
    rewrite Hr. cbn [value t1 set_value].
    rewrite (countb_ext _ (fun '(i0, j0) => mine_at w h ts (X + i0) (Y + j0))); [lia |].
    intros [i0 j0] _. apply mine_at_same_mines. apply (same_mines_insert _ _ t); [done |].
    unfold isMine. cbn [value t1 set_value].
    destruct (Z.eqb_spec 9 (value t + 1)), (Z.eqb_spec 9 (value t)); (done || lia).
Qed.

(** The body of the numbering loops on a tile the mines loop left: a tile
    that is no mine gets the number of mines around it. *)
Lemma numberTile_count X Y ts t :
  0 <= X < w -> 0 <= Y < h ->
  Z.of_nat (length ts) = w * h ->
  ts !! Z.to_nat (index w X Y) = Some t -> value t = 0 \/ value t = 9 ->
  exists t',
    numberTile w h X Y ts = Some (<[Z.to_nat (index w X Y) := t']> ts)
    /\ (isMine t' = false -> value t' = mines_around w h ts X Y).
Proof.
  intros HX HY Hlen Ht Hv. pose proof (index_bound w h X Y HX HY) as Hi0.
  unfold numberTile. rewrite idx_lookup by lia. rewrite Ht.
  destruct (Z.eqb_spec 9 (value t)) as [H9 | H9].
  { exists t. rewrite list_insert_id by done. split; [done |].
    unfold isMine. destruct (Z.eqb_spec 9 (value t)); [done | congruence]. }
  destruct Hv as [Hv | Hv]; [| congruence].
  destruct (addMine_count X Y HX HY offsets ts t) as (t' & Hrun & Hr);
    [done | done | lia | rewrite offsets_eq; simpl; lia |].
  exists t'. split; [done |]. intros _. rewrite Hr, Hv. unfold mines_around. lia.
Qed.

Variable ts0 : list tile.

(** The tiles the loops have numbered. *)
Definition counted (P : Z -> Z -> Prop) (ts : list tile) : Prop :=
  forall x y, 0 <= x < w -> 0 <= y < h -> P x y ->
  exists t, ts !! Z.to_nat (index w x y) = Some t
            /\ (isMine t = false -> value t = mines_around w h ts0 x y).

Lemma painted_same_mines ts :
  Forall2 painted ts0 ts -> Forall2 (fun t t' => isMine t' = isMine t) ts0 ts.
Proof. intros H. eapply Forall2_impl; [exact H |]. by intros t t' (_ & _ & Hm & _). Qed.

Lemma index_neq x y X Y :
  0 <= x < w -> 0 <= y < h -> 0 <= X < w -> 0 <= Y < h -> (x, y) <> (X, Y) ->
  Z.to_nat (index w x y) <> Z.to_nat (index w X Y).
Proof.
  intros Hx Hy HX HY Hne E. apply Z2Nat.inj in E.
  - apply index_inj in E as [-> ->]; [done | lia | lia].
  - pose proof (index_bound w h x y Hx Hy). lia.
  - pose proof (index_bound w h X Y HX HY). lia.
Qed.

Lemma count_column X : 0 <= X < w ->
  forall n Y ts,
    0 <= Y -> Y + Z.of_nat n = h ->
    Z.of_nat (length ts) = w * h -> Forall2 painted ts0 ts ->
    pending w h (fun x y => X < x \/ (x = X /\ Y <= y)) ts ->
    counted (fun x y => x < X \/ (x = X /\ y < Y)) ts ->
    exists ts',
      for_each (seqZ Y (Z.of_nat n)) (numberTile w h X) ts = Some ts'
      /\ Z.of_nat (length ts') = w * h /\ Forall2 painted ts0 ts'
      /\ pending w h (fun x y => X < x) ts'
      /\ counted (fun x y => x <= X) ts'.
Proof.
  intros HX. induction n as [| n IH]; intros Y ts HY Hn Hlen Hp Hpend Hcnt.
  { exists ts. repeat split; try done.
    - intros x y Hx Hy Hlt. apply Hpend; [done .. | by left].
    - intros x y Hx Hy Hle. apply Hcnt; [done .. | lia]. }
  rewrite seqZ_cons by lia. cbn [for_each].
  destruct (Hpend X Y) as (t & Ht & Hv); [lia | lia | right; lia |].
  destruct (numberTile_step w h Hw Hh X Y ts0 ts t) as (ts1 & Hrun & Hlen1 & Hp1 & Hsame);
    try done; [lia |].
  destruct (numberTile_count X Y ts t) as (t' & Hrun' & Hval); try done; [lia |].
  rewrite Hrun. rewrite Hrun in Hrun'. injection Hrun' as Hts1.
  replace (Z.pred (Z.of_nat (S n))) with (Z.of_nat n) by lia.
  apply (IH (Z.succ Y)); try done; [lia | lia | |].
  - intros x y Hx Hy Hxy. rewrite Hsame.
    + apply Hpend; [done | done | lia].
    + apply index_neq; try done; [lia |]. intros [= -> ->]. lia.
  - intros x y Hx Hy Hxy.
    destruct (decide ((x, y) = (X, Y))) as [[= -> ->] | Hne].
    + exists t'. split.
      * rewrite Hts1. apply list_lookup_insert_eq.
        pose proof (index_bound w h X Y HX Hy). lia.
      * intros Hm. rewrite (Hval Hm).
        apply mines_around_same_mines. by apply painted_same_mines.
    + rewrite Hsame by (apply index_neq; try done; lia).
      apply Hcnt; [done | done |].
      destruct Hxy as [Hlt | [-> Hlt]]; [by left | right].
      split; [done |]. destruct (Z.eq_dec y Y) as [-> | ]; [done | lia].
Qed.

Lemma count_columns :
  forall n X ts,
    0 <= X -> X + Z.of_nat n = w ->
    Z.of_nat (length ts) = w * h -> Forall2 painted ts0 ts ->
    pending w h (fun x y => X <= x) ts ->
    counted (fun x y => x < X) ts ->
    exists ts',
      for_each (seqZ X (Z.of_nat n))
        (fun tileX ts => for_each (seqZ 0 h) (fun tileY ts => numberTile w h tileX tileY ts) ts)
        ts = Some ts'
      /\ Forall2 painted ts0 ts'
      /\ counted (fun x y => True) ts'.
Proof.
  induction n as [| n IH]; intros X ts HX Hn Hlen Hp Hpend Hcnt.
  { exists ts. repeat split; try done. intros x y Hx Hy _. apply Hcnt; [done .. | lia]. }
  rewrite seqZ_cons by lia. cbn [for_each].
  destruct (count_column X) with (n := Z.to_nat h) (Y := 0) (ts := ts)
    as (ts1 & Hrun & Hlen1 & Hp1 & Hpend1 & Hcnt1); try done; try lia.
  { intros x y Hx Hy Hxy. apply Hpend; [done | done | lia]. }
  { intros x y Hx Hy Hxy. apply Hcnt; [done | done | lia]. }
  rewrite Z2Nat.id in Hrun by lia.
  change (fun tileY ts => numberTile w h X tileY ts) with (numberTile w h X).
  rewrite Hrun.
  replace (Z.pred (Z.of_nat (S n))) with (Z.of_nat n) by lia.
  apply (IH (Z.succ X)); try done; [lia | lia | |].
  - intros x y Hx Hy Hxy. apply Hpend1; [done | done | lia].
  - intros x y Hx Hy Hxy. apply Hcnt1; [done | done | lia].
Qed.

End Number.

Lemma numberTiles_numbered w h ts ts' :
  1 <= w <= 250 -> 1 <= h <= 250 ->
  Z.of_nat (length ts) = w * h -> Forall pristine ts ->
  numberTiles w h ts = Some ts' -> numbered w h ts'.
Proof.
  intros Hw Hh Hlen Hp Hrun. unfold numberTiles in Hrun.
  destruct (count_columns w h Hw Hh ts (Z.to_nat w) 0 ts)
    as (ts2 & Hrun2 & Hp2 & Hcnt); try done; try lia.
  - apply Forall_Forall2_diag. eapply Forall_impl; [exact Hp |].
    intros t ([Hv | Hv] & _ & _); repeat split; lia.
  - intros x y Hx Hy _.
    destruct (lookup_lt_is_Some_2 ts (Z.to_nat (index w x y))) as [t Ht].
    { pose proof (index_bound w h x y Hx Hy). lia. }
    exists t. split; [done |]. by destruct (Forall_lookup_1 _ _ _ _ Hp Ht) as (Hv & _).
  - intros x y Hx Hy Hlt. lia.
  - rewrite Z2Nat.id in Hrun2 by lia. rewrite Hrun in Hrun2. injection Hrun2 as <-.
    intros x y Hx Hy. destruct (Hcnt x y Hx Hy I) as (t & Ht & Hval).
    pose proof (index_bound w h x y Hx Hy).
    exists t. split; [by rewrite idx_lookup by lia |].
    intros Hm. rewrite (Hval Hm). symmetry.
    apply mines_around_same_mines. by apply painted_same_mines.
Qed.

(** The generated grid is numbered. *)
Lemma generateTiles_numbered g ix iy rs ts rs' :
  WF g -> 0 <= ix < width g -> 0 <= iy < height g ->
  generateTiles g ix iy rs = Ret ts rs' -> numbered (width g) (height g) ts.
Proof.
  intros Hwf Hix Hiy Hrun. pose proof (wf_width _ Hwf) as Hw.
  pose proof (wf_height _ Hwf) as Hh. pose proof (wf_mines _ Hwf) as Hm.
  unfold generateTiles in Hrun.
  pose proof (placeMines_post g ix iy Hw Hh ltac:(nia) Hix (length rs) rs 0
                (make zero_tile (u16 (height g * width g)))
                (le_n _) ltac:(lia) (placing_make g ix iy Hw Hh Hix Hiy)) as Hpl.
  destruct (placeMines g ix iy 0 (make zero_tile (u16 (height g * width g))) rs)
    as [ts1 rs1 | | |]; try done.
  destruct Hpl as [Hl1 Hp1 _ _].
  destruct (numberTiles (width g) (height g) ts1) as [ts2 |] eqn:Hnum; [| done].
  injection Hrun as <- <-. by apply (numberTiles_numbered _ _ ts1).
Qed.

End MinesNumbers.

(** * Package mines: single moves, as a player sees them *)

Module MinesExtra.
Import Mines MinesSpec MinesHist MinesSteps MinesRun MinesTop MinesRules MinesMoves.

Lemma row1_shape :
  width (game row1) = 3 /\ height (game row1) = 1 /\ endedAt (game row1) = None
  /\ latest (game row1) = [Tile 0 false false; Tile 1 false true; Tile 9 false false].
Proof. vm_compute. repeat split. Qed.

Lemma row1_tile x :
  0 <= x < 3 ->
  tile_at (game row1) x 0
  = [Tile 0 false false; Tile 1 false true; Tile 9 false false] !! Z.to_nat x.
Proof.
  intros Hx. destruct row1_shape as (Hw & _ & _ & Hla).
  unfold tile_at. rewrite Hw, Hla. unfold index. by rewrite idx_lookup by lia.
Qed.

(** The row of [row0] with the first move a flag on the left tile. *)
Definition flag1 : world := next 101 0 0 true row0.

Lemma flag1_reachable : reachable flag1.
Proof. apply next_reachable; [apply row0_reachable | lia | lia]. Qed.

Lemma flag1_shape :
  width (game flag1) = 3 /\ height (game flag1) = 1 /\ endedAt (game flag1) = None
  /\ latest (game flag1) = [Tile 0 true false; Tile 1 false false; Tile 9 false false].
Proof. vm_compute. repeat split. Qed.

Lemma flag1_tile x :
  0 <= x < 3 ->
  tile_at (game flag1) x 0
  = [Tile 0 true false; Tile 1 false false; Tile 9 false false] !! Z.to_nat x.
Proof.
  intros Hx. destruct flag1_shape as (Hw & _ & _ & Hla).
  unfold tile_at. rewrite Hw, Hla. unfold index. by rewrite idx_lookup by lia.
Qed.

Section Effects.

Variables (s : world) (fuel : nat) (now x y : Z) (t : tile).
Hypothesis Hr : reachable s.
Hypothesis Hen : endedAt (game s) = None.
Hypothesis Hx : 0 <= x < width (game s).
Hypothesis Hy : 0 <= y < height (game s).
Hypothesis Ht : tile_at (game s) x y = Some t.

Let i : nat := Z.to_nat (index (width (game s)) x y).

Lemma latest_recorded flag : latest (recorded now x y flag (game s)) = latest (game s).
Proof. apply latest_push, (Inv_WF _ (reachable_Inv s Hr)). Qed.

Lemma hlen_recorded flag : hlen (recorded now x y flag (game s)) = hlen (game s) + 1.
Proof. apply hlen_push, (Inv_WF _ (reachable_Inv s Hr)). Qed.

Lemma flag_effect :
  clicked t = false ->
  exists s',
    ClickTile (S fuel) now x y true s = Ret None s'
    /\ reachable s' /\ rand s' = rand s
    /\ width (game s') = width (game s) /\ height (game s') = height (game s)
    /\ latest (game s') = alter (set_flagged (negb (flagged t))) i (latest (game s))
    /\ flags (game s') = flags (game s) + (if flagged t then -1 else 1)
    /\ endedAt (game s') = None /\ won (game s') = won (game s)
    /\ hlen (game s') = hlen (game s) + 2 - 1.
Proof.
  intros Hc. pose proof (flag_result s fuel now x y t Hr Hen Hx Hy Ht Hc) as Hrun.
  eexists. split; [exact Hrun |].
  assert (reachable (World (flag_set (negb (flagged t)) (index (width (game s)) x y)
                              (recorded now x y true (game s))) (rand s))) as Hr'.
  { eapply reach_click; [exact Hr | | | exact Hrun].
    - pose proof (wf_width _ (Inv_WF _ (reachable_Inv s Hr))). lia.
    - pose proof (wf_height _ (Inv_WF _ (reachable_Inv s Hr))). lia. }
  split; [exact Hr' |]. split; [done |]. split; [done |]. split; [done |].
  assert (latest (flag_set (negb (flagged t)) (index (width (game s)) x y)
                    (recorded now x y true (game s)))
          = alter (set_flagged (negb (flagged t))) i (latest (game s))) as Hla.
  { by rewrite latest_flag_set, latest_recorded. }
  cbn [game rand]. split; [exact Hla |]. split.
  - pose proof (inv_flags _ (proj1 (reachable_Inv _ Hr'))) as Hf'.
    pose proof (inv_flags _ (proj1 (reachable_Inv _ Hr))) as Hf.
    cbn [game] in Hf'. rewrite Hf', Hla, Hf.
    apply idx_Some_inv in Ht as [_ Hti]. fold i in Hti.
    pose proof (countb_alter flagged (set_flagged (negb (flagged t))) _ _ _ Hti) as Hcount.
    cbn [flagged set_flagged] in Hcount.
    destruct (flagged t); cbn [negb] in Hcount |- *; lia.
  - split; [done |]. split; [done |]. rewrite hlen_flag_set, hlen_recorded. lia.
Qed.

End Effects.

(** A flag move on a tile that is not clicked, in a game that goes on:
    it toggles the flag of that tile and of no other, moves the flag
    counter by one, and leaves the game going. *)
Theorem mines_flag_toggle s fuel now x y t :
  reachable s -> endedAt (game s) = None ->
  0 <= x < width (game s) -> 0 <= y < height (game s) ->
  tile_at (game s) x y = Some t -> clicked t = false ->
  exists s',
    ClickTile (S fuel) now x y true s = Ret None s'
    /\ latest (game s')
       = alter (set_flagged (negb (flagged t)))
           (Z.to_nat (index (width (game s)) x y)) (latest (game s))
    /\ flags (game s') = flags (game s) + (if flagged t then -1 else 1)
    /\ endedAt (game s') = None /\ won (game s') = won (game s).
Proof.
  intros Hr Hen Hx Hy Ht Hc.
  destruct (flag_effect s fuel now x y t Hr Hen Hx Hy Ht Hc)
    as (s' & Hrun & _ & _ & _ & _ & Hla & Hf & Hen' & Hwon & _).
  exists s'. done.
Qed.

Lemma mines_flag_toggle_witness :
  exists s',
    ClickTile 1 102 0 0 true row1 = Ret None s'
    /\ latest (game s')
       = alter (set_flagged (negb (flagged (Tile 0 false false))))
           (Z.to_nat (index (width (game row1)) 0 0)) (latest (game row1))
    /\ flags (game s') = flags (game row1) + 1
    /\ endedAt (game s') = None /\ won (game s') = won (game row1).
Proof.
  destruct row1_shape as (Hw & Hh & Hen & _).
  apply (mines_flag_toggle row1 0 102 0 0 (Tile 0 false false) row1_reachable Hen).
  - lia.
  - lia.
  - exact (row1_tile 0 ltac:(lia)).
  - reflexivity.
Defined.

(** Flagging the same tile twice in a row gives back the tiles and the
    flag counter of before; the two moves stay in the history. *)
Theorem mines_flag_twice s fuel1 fuel2 now1 now2 x y t :
  reachable s -> endedAt (game s) = None ->
  0 <= x < width (game s) -> 0 <= y < height (game s) ->
  tile_at (game s) x y = Some t -> clicked t = false ->
  exists s1 s2,
    ClickTile (S fuel1) now1 x y true s = Ret None s1
    /\ ClickTile (S fuel2) now2 x y true s1 = Ret None s2
    /\ latest (game s2) = latest (game s)
    /\ flags (game s2) = flags (game s)
    /\ hlen (game s2) = hlen (game s) + 2.
Proof.
  intros Hr Hen Hx Hy Ht Hc.
  destruct (flag_effect s fuel1 now1 x y t Hr Hen Hx Hy Ht Hc)
    as (s1 & Hrun1 & Hr1 & _ & Hw1 & Hh1 & Hla1 & Hf1 & Hen1 & _ & Hl1).
  pose proof Ht as Hti. apply idx_Some_inv in Hti as [Hi Hti].
  set (t1 := set_flagged (negb (flagged t)) t).
  assert (tile_at (game s1) x y = Some t1) as Ht1.
  { unfold tile_at. rewrite Hw1, Hla1, idx_lookup by lia.
    by rewrite list_lookup_alter_eq, Hti. }
  destruct (flag_effect s1 fuel2 now2 x y t1 Hr1 Hen1) as
    (s2 & Hrun2 & _ & _ & _ & _ & Hla2 & Hf2 & _ & _ & Hl2);
    [lia | lia | exact Ht1 | by destruct t |].
  exists s1, s2. split; [done |]. split; [done |].
  split; [| split; [| lia]].
  - rewrite Hla2, Hla1, Hw1. subst t1. cbn [flagged set_flagged].
    apply (alter_set_flagged_back _ _ t); [done |]. by destruct (flagged t).
  - rewrite Hf2, Hf1. subst t1. cbn [flagged set_flagged]. destruct (flagged t); simpl; lia.
Qed.

Lemma mines_flag_twice_witness :
  exists s1 s2,
    ClickTile 1 102 0 0 true row1 = Ret None s1
    /\ ClickTile 1 103 0 0 true s1 = Ret None s2
    /\ latest (game s2) = latest (game row1)
    /\ flags (game s2) = flags (game row1)
    /\ hlen (game s2) = hlen (game row1) + 2.
Proof.
  destruct row1_shape as (Hw & Hh & Hen & _).
  apply (mines_flag_twice row1 0 0 102 103 0 0 (Tile 0 false false) row1_reachable Hen).
  - lia.
  - lia.
  - exact (row1_tile 0 ltac:(lia)).
  - reflexivity.
Defined.

(** A flag move on a clicked tile and a click on a flagged tile, in a
    game that goes on: no error, and nothing happens but that the move
    is recorded as a turn with the tiles of the last one. *)
Theorem mines_idle_move s fuel now x y flag t :
  reachable s -> endedAt (game s) = None ->
  0 <= x < width (game s) -> 0 <= y < height (game s) ->
  tile_at (game s) x y = Some t ->
  (clicked t = true /\ flag = true)
  \/ (clicked t = false /\ flagged t = true /\ flag = false) ->
  ClickTile (S fuel) now x y flag s
  = Ret None (World (push (Turn x y flag (Some now) (latest (game s))) (game s)) (rand s)).
Proof.
  intros Hr Hen Hx Hy Ht Hcase.
  exact (idle_result s fuel now x y t Hr Hen Hx Hy Ht flag Hcase).
Qed.

Lemma mines_idle_move_witness :
  ClickTile 1 103 0 0 false row2
  = Ret None (World (push (Turn 0 0 false (Some 103) (latest (game row2))) (game row2))
                    (rand row2)).
Proof.
  destruct row2_shape as (Hw & Hh & _ & Hen & _).
  apply (mines_idle_move row2 0 103 0 0 false (Tile 0 true false) row2_reachable Hen).
  - lia.
  - lia.
  - exact (row2_tile 0 ltac:(lia)).
  - right. repeat split.
Defined.

(** A click on a mine that carries no flag: the tile is clicked, the
    game has ended at the time of the call, and it is not won. *)
Theorem mines_click_mine s fuel now x y t :
  reachable s -> endedAt (game s) = None ->
  0 <= x < width (game s) -> 0 <= y < height (game s) ->
  tile_at (game s) x y = Some t ->
  clicked t = false -> flagged t = false -> value t = 9 ->
  exists s',
    ClickTile (S fuel) now x y false s = Ret None s'
    /\ latest (game s')
       = alter (set_clicked true) (Z.to_nat (index (width (game s)) x y)) (latest (game s))
    /\ endedAt (game s') = Some now /\ won (game s') = false
    /\ flags (game s') = flags (game s).
Proof.
  intros Hr Hen Hx Hy Ht Hc Hf Hv.
  eexists. split; [exact (mine_result s fuel now x y t Hr Hen Hx Hy Ht Hc Hf Hv) |].
  cbn [game]. split.
  { change (latest (set_endedAt ?a ?g0)) with (latest g0).
    by rewrite latest_opened, latest_recorded. }
  split; [done |]. split; [| done].
  change (won (game s) = false).
  pose proof (inv_won _ (proj1 (reachable_Inv s Hr))) as Hwon.
  destruct (won (game s)); [| done]. by destruct Hwon.
Qed.

Lemma mines_click_mine_witness :
  exists s',
    ClickTile 1 102 2 0 false row1 = Ret None s'
    /\ latest (game s')
       = alter (set_clicked true) (Z.to_nat (index (width (game row1)) 2 0))
           (latest (game row1))
    /\ endedAt (game s') = Some 102 /\ won (game s') = false
    /\ flags (game s') = flags (game row1).
Proof.
  destruct row1_shape as (Hw & Hh & Hen & _).
  apply (mines_click_mine row1 0 102 2 0 (Tile 9 false false) row1_reachable Hen).
  - lia.
  - lia.
  - exact (row1_tile 2 ltac:(lia)).
  - reflexivity.
  - reflexivity.
  - reflexivity.
Defined.

(** A click on a tile with a number from 1 to 8 that is neither clicked
    nor flagged: that tile is clicked and no other; the game ends, as
    won, exactly if every tile is then clicked or a mine. *)
Theorem mines_click_number s fuel now x y t :
  reachable s -> endedAt (game s) = None ->
  0 <= x < width (game s) -> 0 <= y < height (game s) ->
  tile_at (game s) x y = Some t ->
  clicked t = false -> flagged t = false -> value t <> 0 -> value t <> 9 ->
  exists s',
    ClickTile (S fuel) now x y false s = Ret None s'
    /\ latest (game s')
       = alter (set_clicked true) (Z.to_nat (index (width (game s)) x y)) (latest (game s))
    /\ flags (game s') = flags (game s)
    /\ (Forall (fun t0 => done_tile t0 = true) (latest (game s')) ->
        endedAt (game s') = Some now /\ won (game s') = true)
    /\ (~ Forall (fun t0 => done_tile t0 = true) (latest (game s')) ->
        endedAt (game s') = None /\ won (game s') = won (game s)).
Proof.
  intros Hr Hen Hx Hy Ht Hc Hf H0 H9.
  eexists. split; [exact (number_result s fuel now x y t Hr Hen Hx Hy Ht Hc Hf H9 H0) |].
  cbn [game]. set (g1 := recorded now x y false (game s)).
  set (g2 := opened (index (width (game s)) x y) g1).
  assert (latest g2 = alter (set_clicked true) (Z.to_nat (index (width (game s)) x y))
                        (latest (game s))) as Hla
    by (unfold g2, g1; by rewrite latest_opened, latest_recorded).
  assert (hlen g2 = hlen g1) as Hl2 by apply hlen_opened.
  rewrite latest_winCheck. split; [exact Hla |].
  rewrite <- Hl2. unfold winCheck. change (endedAt g2) with (endedAt (game s)).
  rewrite Hen. cbn [IsZero]. fold (latest g2).
  pose proof (scan_all (latest g2)) as Hall.
  destruct (Z.eqb_spec (scan (latest g2)) (Z.of_nat (length (latest g2)))) as [E | E].
  - split; [done |]. split; [done |]. intros Hn. destruct Hn. by apply Hall.
  - split; [done |]. split; [| done]. intros Hd. destruct E. by apply Hall.
Qed.

Lemma mines_click_number_witness :
  exists s',
    ClickTile 1 102 1 0 false flag1 = Ret None s'
    /\ latest (game s')
       = alter (set_clicked true) (Z.to_nat (index (width (game flag1)) 1 0))
           (latest (game flag1))
    /\ flags (game s') = flags (game flag1)
    /\ (Forall (fun t0 => done_tile t0 = true) (latest (game s')) ->
        endedAt (game s') = Some 102 /\ won (game s') = true)
    /\ (~ Forall (fun t0 => done_tile t0 = true) (latest (game s')) ->
        endedAt (game s') = None /\ won (game s') = won (game flag1)).
Proof.
  destruct flag1_shape as (Hw & Hh & Hen & _).
  apply (mines_click_number flag1 0 102 1 0 (Tile 1 false false) flag1_reachable Hen).
  - lia.
  - lia.
  - exact (flag1_tile 1 ltac:(lia)).
  - reflexivity.
  - reflexivity.
  - discriminate.
  - discriminate.
Defined.

End MinesExtra.

(** * Package mines: what holds in every reachable game *)

Module MinesKept.
Import Mines MinesSpec MinesHist MinesSteps MinesRun MinesGenerate MinesMono MinesTop.
Import MinesRules MinesMoves MinesTrace MinesNumbers MinesExtra.

Lemma tstep_values ts ts' : tstep ts ts' -> value <$> ts' = value <$> ts.
Proof. intros [ts1 | ts1 i t _ _ _ | ts1 i t b _ _ _]; [done | |]; by apply fmap_value_alter. Qed.

Lemma tstep_length ts ts' : tstep ts ts' -> length ts' = length ts.
Proof. intros [ts1 | ts1 i t _ _ _ | ts1 i t b _ _ _]; [done | |]; apply length_alter. Qed.

Lemma row1_hlen : hlen (game row1) = 1.
Proof. vm_compute. reflexivity. Qed.

Lemma row2_hlen : hlen (game row2) = 2.
Proof. by destruct row2_shape as (_ & _ & Hl & _). Qed.

(** A call on a game with turns that returns. *)
Lemma ClickTile_grows fuel now x y flag g rs e s' :
  Inv g -> 0 < hlen g -> 0 <= x -> 0 <= y ->
  ClickTile fuel now x y flag (World g rs) = Ret e s' ->
  grows g (game s') /\ frame g (game s').
Proof.
  intros HI Hl Hx0 Hy0 Hrun. pose proof (Inv_WF _ HI) as Hwf.
  set (big := (fuel + S (Z.to_nat (width g * height g)))%nat).
  pose proof (ClickTile_mono now fuel big ltac:(lia) _ _ _ _ _ _ Hrun) as Hbig.
  destruct (Z.le_gt_cases (width g) x) as [Hx | Hx].
  { destruct (ClickTile_outside (big - 1) now x y flag (World g rs)) as [msg Hm];
      [by left |].
    replace (S (big - 1)) with big in Hm by lia. rewrite Hbig in Hm. injection Hm as _ ->.
    split; [apply grows_refl | apply frame_refl]. }
  destruct (Z.le_gt_cases (height g) y) as [Hy | Hy].
  { destruct (ClickTile_outside (big - 1) now x y flag (World g rs)) as [msg Hm];
      [by right |].
    replace (S (big - 1)) with big in Hm by lia. rewrite Hbig in Hm. injection Hm as _ ->.
    split; [apply grows_refl | apply frame_refl]. }
  destruct (ClickTile_placed big now x y flag g rs)
    as (e' & g'' & Hrun' & _ & Hgr & Hfr & _); try done; try lia.
  { pose proof (unclicked_le_length (latest g)).
    pose proof (latest_length g Hwf). lia. }
  rewrite Hbig in Hrun'. injection Hrun' as _ ->. done.
Qed.

(** In every game with turns, every tile that is no mine carries the
    number of mines on the cells around it. *)
Theorem mines_numbers s :
  reachable s -> 0 < hlen (game s) ->
  numbered (width (game s)) (height (game s)) (latest (game s)).
Proof.
  apply (reachable_tiles (fun w h _ ts => numbered w h ts)).
  - intros g ix iy rs ts rs' Hwf Hix Hiy Hgen. by eapply generateTiles_numbered.
  - intros w h _ ts ts' Hst. apply numbered_values. by apply tstep_values.
Qed.

Lemma mines_numbers_witness :
  numbered (width (game row1)) (height (game row1)) (latest (game row1)).
Proof.
  apply (mines_numbers row1 row1_reachable). rewrite row1_hlen. lia.
Defined.

(** In every game with turns the grid is full and holds exactly the
    mines the game was created with: no call adds, moves or removes one. *)
Theorem mines_mine_count s :
  reachable s -> 0 < hlen (game s) ->
  Z.of_nat (length (latest (game s))) = width (game s) * height (game s)
  /\ Z.of_nat (countb isMine (latest (game s))) = mines (game s).
Proof.
  apply (reachable_tiles (fun w h m ts =>
           Z.of_nat (length ts) = w * h /\ Z.of_nat (countb isMine ts) = m)).
  - intros g ix iy rs ts rs' Hwf Hix Hiy Hgen.
    pose proof (wf_mines _ Hwf) as Hm. pose proof (wf_width _ Hwf) as Hw.
    pose proof (wf_height _ Hwf) as Hh.
    pose proof (generateTiles_post g ix iy rs Hw Hh ltac:(nia) Hix Hiy) as Hpost.
    rewrite Hgen in Hpost. split; apply Hpost.
  - intros w h m ts ts' Hst [Hlen Hcount].
    rewrite (tstep_length _ _ Hst), (countb_fmap_value ts ts' (tstep_values _ _ Hst)). done.
Qed.

Lemma mines_mine_count_witness :
  Z.of_nat (length (latest (game row2))) = width (game row2) * height (game row2)
  /\ Z.of_nat (countb isMine (latest (game row2))) = mines (game row2).
Proof.
  apply (mines_mine_count row2 row2_reachable). rewrite row2_hlen. lia.
Defined.

(** No tile is both clicked and flagged, in any reachable game. *)
Theorem mines_clicked_not_flagged s t :
  reachable s -> t ∈ latest (game s) -> clicked t = true -> flagged t = false.
Proof.
  intros Hr Hin. pose proof (hlen_nonneg (game s)) as Hl0.
  destruct (Z.eq_dec (hlen (game s)) 0) as [E | E].
  { rewrite latest_empty in Hin; [by apply elem_of_nil in Hin | | done].
    apply (Inv_WF _ (reachable_Inv s Hr)). }
  revert t Hin.
  apply (proj1 (Forall_forall (fun t => clicked t = true -> flagged t = false) _)).
  apply (reachable_tiles (fun _ _ _ ts =>
           Forall (fun t => clicked t = true -> flagged t = false) ts)); [| | done | lia].
  - intros g ix iy rs ts rs' Hwf Hix Hiy Hgen.
    pose proof (wf_mines _ Hwf) as Hm. pose proof (wf_width _ Hwf) as Hw.
    pose proof (wf_height _ Hwf) as Hh.
    pose proof (generateTiles_post g ix iy rs Hw Hh ltac:(nia) Hix Hiy) as Hpost.
    rewrite Hgen in Hpost. eapply Forall_impl; [apply (gen_fresh _ _ _ _ Hpost) |].
    intros t [Hf _]. done.
  - intros _ _ _ ts ts' Hst HF.
    destruct Hst as [ts | ts i t Ht Hc Hf | ts i t b Ht Hc Hf]; [done | |].
    + apply Forall_alter; [done |]. intros t0 Ht0. assert (t0 = t) as -> by congruence.
      by destruct t.
    + apply Forall_alter; [done |]. intros t0 Ht0. assert (t0 = t) as -> by congruence.
      destruct t as [v fl cl]. simpl in *. congruence.
Qed.

Lemma mines_clicked_not_flagged_witness :
  Tile 1 false true ∈ latest (game row2) /\ flagged (Tile 1 false true) = false.
Proof.
  assert (Tile 1 false true ∈ latest (game row2)) as Hin.
  { destruct row2_shape as (_ & _ & _ & _ & ->).
    apply elem_of_cons. right. apply elem_of_cons. by left. }
  split; [exact Hin |].
  apply (mines_clicked_not_flagged row2 (Tile 1 false true) row2_reachable Hin).
  reflexivity.
Defined.

(** A call never changes a turn that is recorded: the history only
    grows, by at least one turn for every call in bounds. *)
Theorem mines_history_kept s fuel now x y flag e s' :
  reachable s -> 0 <= x -> 0 <= y ->
  ClickTile fuel now x y flag s = Ret e s' ->
  (forall k, 0 <= k < hlen (game s) -> history (game s') !! k = history (game s) !! k)
  /\ hlen (game s) <= hlen (game s')
  /\ (x < width (game s) -> y < height (game s) -> hlen (game s) < hlen (game s')).
Proof.
  intros Hr Hx Hy Hrun. pose proof (reachable_Inv s Hr) as HI. destruct s as [g rs].
  cbn [game] in *.
  destruct (ClickTile_cases fuel now x y flag g rs e s' HI Hx Hy Hrun)
    as [(_ & -> & Hout) | (_ & _ & _ & Hl & _)].
  { cbn [game]. split; [done |]. split; lia. }
  split; [| split; lia].
  intros k Hk.
  destruct (ClickTile_grows fuel now x y flag g rs e s' HI ltac:(lia) Hx Hy Hrun) as [_ Hfr].
  apply Hfr. lia.
Qed.

Lemma mines_history_kept_witness :
  (forall k, 0 <= k < hlen (game row2) -> history (game row3) !! k = history (game row2) !! k)
  /\ hlen (game row2) <= hlen (game row3)
  /\ (1 < width (game row2) -> 0 < height (game row2) -> hlen (game row2) < hlen (game row3)).
Proof.
  apply (mines_history_kept row2 3 103 1 0 false None row3 row2_reachable).
  - lia.
  - lia.
  - exact row3_run.
Defined.

(** A call on a game with turns changes neither the dimensions nor the
    value of any tile, and no clicked tile goes back to not clicked. *)
Theorem mines_call_keeps s fuel now x y flag e s' :
  reachable s -> 0 < hlen (game s) -> 0 <= x -> 0 <= y ->
  ClickTile fuel now x y flag s = Ret e s' ->
  width (game s') = width (game s) /\ height (game s') = height (game s)
  /\ mines (game s') = mines (game s)
  /\ value <$> latest (game s') = value <$> latest (game s)
  /\ Forall2 (fun t t' => clicked t = true -> clicked t' = true)
       (latest (game s)) (latest (game s')).
Proof.
  intros Hr Hl Hx Hy Hrun. pose proof (reachable_Inv s Hr) as HI. destruct s as [g rs].
  cbn [game] in *.
  destruct (ClickTile_grows fuel now x y flag g rs e s' HI Hl Hx Hy Hrun) as [Hgr _].
  split; [apply Hgr |]. split; [apply Hgr |]. split; [apply Hgr |].
  split; apply Hgr.
Qed.

Lemma mines_call_keeps_witness :
  width (game row3) = width (game row2) /\ height (game row3) = height (game row2)
  /\ mines (game row3) = mines (game row2)
  /\ value <$> latest (game row3) = value <$> latest (game row2)
  /\ Forall2 (fun t t' => clicked t = true -> clicked t' = true)
       (latest (game row2)) (latest (game row3)).
Proof.
  apply (mines_call_keeps row2 3 103 1 0 false None row3 row2_reachable).
  - rewrite row2_hlen. lia.
  - lia.
  - lia.
  - exact row3_run.
Defined.

End MinesKept.

(** * Package mines: a cascade can open a mine *)

Module MinesCascade.
Import Mines MinesSpec MinesRules.

(** A board of four tiles by two with one mine. The first move flags the
    corner [(3, 1)], which is no mine; the draws put the mine above it,
    on [(3, 0)]. Then the empty corner [(0, 0)] is clicked. The cascade
    opens [(2, 1)], which shows 1, from the tile [(1, 1)]; the loop around
    [(1, 0)], which still reads the tiles as they were when it began,
    calls [ClickTile] on [(2, 1)] again, and on a clicked tile with as
    many flags around it as its number that call opens the neighbors:
    the mine. *)
Definition cove0 : world :=
  World (mkGame 7 4 2 1 0 (Some 100) None [] false ∅) [3; 0].
Definition cove1 : world := next 101 3 1 true cove0.
Definition cove2 : world :=
  match ClickTile 5 102 0 0 false cove1 with
  | Ret _ s' => s'
  | _ => cove1
  end.

Lemma cove1_reachable : reachable cove1.
Proof.
  apply next_reachable; [| lia | lia].
  unfold cove0. by apply (reach_new 7 100 4 2 1); [lia | lia | lia |].
Qed.

Lemma cove1_shape :
  width (game cove1) = 4 /\ height (game cove1) = 2 /\ endedAt (game cove1) = None
  /\ latest (game cove1)
     = [Tile 0 false false; Tile 0 false false; Tile 1 false false; Tile 9 false false;
        Tile 0 false false; Tile 0 false false; Tile 1 false false; Tile 1 true false].
Proof. vm_compute. repeat split. Qed.

Lemma cove2_run : ClickTile 5 102 0 0 false cove1 = Ret None cove2.
Proof. vm_compute. reflexivity. Qed.

Lemma cove2_shape :
  endedAt (game cove2) = Some 102 /\ won (game cove2) = false
  /\ latest (game cove2)
     = [Tile 0 false true; Tile 0 false true; Tile 1 false true; Tile 9 false true;
        Tile 0 false true; Tile 0 false true; Tile 1 false true; Tile 1 true false].
Proof. vm_compute. repeat split. Qed.

(** A plain click on a tile that is no mine and has no mine around it
    can lose the game: there is a reachable game that goes on and a tile
    of it with the number 0, neither clicked nor flagged, such that the
    click on it returns with a mine clicked and the game ended, not
    won. *)
Theorem mines_cascade_can_lose :
  exists s x y t s',
    reachable s /\ endedAt (game s) = None
    /\ 0 <= x < width (game s) /\ 0 <= y < height (game s)
    /\ tile_at (game s) x y = Some t
    /\ clicked t = false /\ flagged t = false /\ value t = 0
    /\ ClickTile 5 102 x y false s = Ret None s'
    /\ endedAt (game s') <> None /\ won (game s') = false
    /\ exists tm, tm ∈ latest (game s') /\ clicked tm = true /\ isMine tm = true.
Proof.
  destruct cove1_shape as (Hw & Hh & Hen & Hla).
  destruct cove2_shape as (Hen2 & Hwon2 & Hla2).
  exists cove1, 0, 0, (Tile 0 false false), cove2.
  split; [apply cove1_reachable |]. split; [exact Hen |].
  split; [lia |]. split; [lia |]. split.
  { unfold tile_at. rewrite Hw, Hla. reflexivity. }
  split; [reflexivity |]. split; [reflexivity |]. split; [reflexivity |].
  split; [exact cove2_run |]. split; [rewrite Hen2; discriminate |].
  split; [exact Hwon2 |].
  exists (Tile 9 false true). split; [| split; reflexivity].
  rewrite Hla2. do 3 (apply elem_of_cons; right). apply elem_of_cons. by left.
Qed.

End MinesCascade.

(** * Package game: the shape of a game and the steps of a call *)

Module GameSpec.
Import Game.

Definition ended (g : Game) : Prop := endTime g <> None.

(** The shape of a game: dimensions within the limits of [NewGame], and a
    grid that is empty, before the first turn, or full. *)
Record WF (g : Game) : Prop := {
  wf_width : 1 <= boardWidth g <= 250;
  wf_height : 1 <= boardHeight g <= 250;
  wf_mines : 0 <= totalMines g <= boardWidth g * boardHeight g - 2;
  wf_grid : grid g = [] \/ Z.of_nat (length (grid g)) = boardWidth g * boardHeight g
}.

Definition full (g : Game) : Prop :=
  Z.of_nat (length (grid g)) = boardWidth g * boardHeight g.

(** The tile at [(x, y)]. *)
Definition tile_at (g : Game) (x y : Z) : option tile :=
  idx (grid g) (index (boardWidth g) x y).

(** Whether the tile at [(x2, y2)] is on the board and flagged. *)
Definition flagged_at (g : Game) (x2 y2 : Z) : bool :=
  if outside (boardWidth g) (boardHeight g) x2 y2 then false
  else match tile_at g x2 y2 with
       | Some t => flagged t
       | None => false
       end.

(** The number of flagged neighbors of [(x, y)]. *)
Definition flag_count (g : Game) (x y : Z) : Z :=
  Z.of_nat (countb (fun '(i, j) => flagged_at g (x + i) (y + j)) offsets).

(** [tile.flagged = b] with [g.flags++] or [g.flags--]. *)
Definition flag_set (b : bool) (i : Z) (g : Game) : Game :=
  set_flags (u16 (flags g + (if b then 1 else -1))) (upd_tile i (set_flagged b) g).

(** [tile.clicked = true] *)
Definition opened (i : Z) (g : Game) : Game := upd_tile i (set_clicked true) g.

(** What a call of [ClickTile] that opens tiles does to the game, step by
    step: it clicks a tile, ends the game on a mine, or ends it as won. *)
Inductive rstep : Game -> Game -> Prop :=
| rs_click g i t :
    endTime g = None -> idx (grid g) i = Some t ->
    clicked t = false -> flagged t = false -> value t <> 9 ->
    rstep g (opened i g)
| rs_boom g i t now :
    endTime g = None -> idx (grid g) i = Some t ->
    clicked t = false -> flagged t = false -> value t = 9 ->
    rstep g (set_endTime (Some now) (opened i g))
| rs_win g now :
    endTime g = None ->
    rstep g (End true now g).

Definition rsteps : Game -> Game -> Prop := rtc rstep.

(** A flag step: the flag of a tile that is not clicked is toggled. *)
Inductive fstep : Game -> Game -> Prop :=
| fs_flag g i t b :
    endTime g = None -> idx (grid g) i = Some t ->
    clicked t = false -> flagged t = negb b ->
    fstep g (flag_set b i g).

Definition move (g g' : Game) : Prop := rstep g g' \/ fstep g g'.

Definition moves : Game -> Game -> Prop := rtc move.

(** What a run of steps that open tiles keeps and what it may only
    extend. *)
Record ext (g g' : Game) : Prop := {
  ext_uid : uid g' = uid g;
  ext_width : boardWidth g' = boardWidth g;
  ext_height : boardHeight g' = boardHeight g;
  ext_mines : totalMines g' = totalMines g;
  ext_flags : flags g' = flags g;
  ext_startTime : startTime g' = startTime g;
  ext_grid : Forall2 tile_le (grid g) (grid g');
  ext_endTime : forall t, endTime g = Some t -> endTime g' = Some t;
  ext_won : won g = true -> won g' = true
}.

(** The win check has run: a game that goes on has a tile left that is
    neither clicked nor a mine. *)
Definition settled (g : Game) : Prop :=
  ended g \/ scan (grid g) <> Z.of_nat (length (grid g)).

(** The grid [addMinesToGrid] leaves: full, nothing flagged or clicked,
    [m] mines, none of them at [(ix, iy)], every other tile numbered. *)
Record laid (w h m ix iy : Z) (ts : list tile) : Prop := {
  laid_length : Z.of_nat (length ts) = w * h;
  laid_fresh : Forall (fun t => flagged t = false /\ clicked t = false) ts;
  laid_values : Forall (fun t => 0 <= value t <= 9) ts;
  laid_count : Z.of_nat (countb isMine ts) = m;
  laid_ignore : exists t, idx ts (index w ix iy) = Some t /\ isMine t = false;
  laid_numbered : numbered w h ts
}.

(** The invariant of the game that every step keeps. *)
Record Inv0 (g : Game) : Prop := {
  inv_wf : WF g;
  inv_values : Forall (fun t => 0 <= value t <= 9) (grid g);
  inv_flags : flags g = Z.of_nat (countb flagged (grid g));
  inv_tidy : Forall (fun t => clicked t = true -> flagged t = false) (grid g);
  inv_count : grid g <> [] -> Z.of_nat (countb isMine (grid g)) = totalMines g;
  inv_numbered : grid g <> [] -> numbered (boardWidth g) (boardHeight g) (grid g);
  inv_won : won g = true -> ended g;
  inv_boom : forall t, t ∈ grid g -> clicked t = true -> value t = 9 -> ended g;
  inv_lost : ended g -> won g = false ->
             exists t, t ∈ grid g /\ clicked t = true /\ value t = 9
}.

(** Between calls the win check has run, if there is a grid. *)
Definition Inv (g : Game) : Prop := Inv0 g /\ (grid g = [] \/ settled g).

(** The worlds a server can be in: a new game, then any calls of
    [ClickTile] that return, and of [End]. *)
Inductive reachable : world -> Prop :=
| reach_new uid now w h m g rs :
    0 <= w < 65536 -> 0 <= h < 65536 -> 0 <= m < 65536 ->
    NewGame uid now w h m = inr g ->
    reachable (World g rs)
| reach_click s fuel now x y flag e s' :
    reachable s -> 0 <= x < 65536 -> 0 <= y < 65536 ->
    ClickTile fuel now x y flag s = Ret e s' ->
    reachable s'
| reach_end s b now :
    reachable s ->
    reachable (on_game (End b now) s).

End GameSpec.

(** * Package game: addMinesToGrid *)

Module GameGenerate.
Import Game GameSpec.

(** The game of package mines with the dimensions and the mine count of a
    game of package game. *)
Definition as_mines (g : Game) : Mines.Game :=
  Mines.mkGame (uid g) (boardWidth g) (boardHeight g) (totalMines g) (flags g)
               (startTime g) (endTime g) [] (won g) ∅.

Lemma set_grid_same g : set_grid (grid g) g = g.
Proof. by destruct g. Qed.

(** The mines loops of the two packages place the same mines from the
    same draws. *)
Lemma placeMines_same ix iy n : forall rs placed g,
  (length rs <= n)%nat ->
  placeMines ix iy placed g rs
  = match Mines.placeMines (as_mines g) ix iy placed (grid g) rs with
    | Ret ts rs' => Ret (set_grid ts g) rs'
    | Panic => Panic
    | Exhausted => Exhausted
    | Starved => Starved
    end.
Proof.
  induction n as [| n IH]; intros rs placed g Hlen.
  { destruct rs; [| simpl in Hlen; lia]. cbn [placeMines Mines.placeMines].
    change (Mines.mines (as_mines g)) with (totalMines g).
    destruct (placed <? totalMines g); [done |]. by rewrite set_grid_same. }
  destruct rs as [| rx [| ry rs2]]; cbn [placeMines Mines.placeMines];
    change (Mines.mines (as_mines g)) with (totalMines g);
    change (Mines.width (as_mines g)) with (boardWidth g);
    change (Mines.height (as_mines g)) with (boardHeight g);
    (destruct (placed <? totalMines g); [| by rewrite set_grid_same]); [done | |].
  { by destruct (Intn (boardWidth g) rx). }
  destruct (Intn (boardWidth g) rx) as [x0 |]; [| done].
  destruct (Intn (boardHeight g) ry) as [y0 |]; [| done].
  cbv zeta. simpl in Hlen.
  destruct ((u16 x0 =? ix) && (u16 y0 =? iy)); [apply IH; lia |].
  unfold setGridValue.
  destruct (idx (grid g) (index16 (boardWidth g) (u16 x0) (u16 y0))) as [t |]; [| done].
  destruct (negb (value t =? 9)).
  - rewrite IH by lia. done.
  - apply IH. lia.
Qed.

Section Number.

Variables w h : Z.
Hypothesis Hw : 1 <= w <= 250.
Hypothesis Hh : 1 <= h <= 250.

Lemma countMines_loop ts x y l :
  Z.of_nat (length ts) = w * h ->
  forall total, 0 <= total -> total + Z.of_nat (length l) < 256 ->
  for_each l (fun '(i, j) total =>
    let y2 := y + j in
    let x2 := x + i in
    if outside w h x2 y2 then Some total
    else
      match idx ts (index w x2 y2) with
      | None => None
      | Some t => if 9 =? value t then Some (u8 (total + 1)) else Some total
      end) total
  = Some (total + Z.of_nat (countb (fun '(i, j) => mine_at w h ts (x + i) (y + j)) l)).
Proof.
  intros Hlen. induction l as [| [i j] l IH]; intros total Ht Hb; cbn [for_each countb].
  { f_equal. lia. }
  cbn [length] in Hb. cbv zeta. unfold mine_at at 1.
  destruct (outside w h (x + i) (y + j)) eqn:Hout.
  { rewrite IH by lia. done. }
  apply outside_false in Hout as [Hxi Hyj].
  destruct (idx_is_Some ts (index w (x + i) (y + j))) as [t Htile].
  { rewrite Hlen. by apply index_bound. }
  rewrite Htile. unfold isMine. destruct (9 =? value t).
  - rewrite u8_small by lia. rewrite IH by lia. f_equal. lia.
  - rewrite IH by lia. done.
Qed.

(** [countMines] gives the number of mines around the tile. *)
Lemma countMines_count g x y :
  boardWidth g = w -> boardHeight g = h -> full g ->
  countMines g x y = Some (mines_around w h (grid g) x y).
Proof.
  intros Ew Eh Hfull. unfold countMines, mines_around. rewrite Ew, Eh.
  unfold full in Hfull. rewrite Ew, Eh in Hfull.
  assert (0 + Z.of_nat (length offsets) < 256) as Hb by (rewrite offsets_eq; simpl; lia).
  pose proof (countMines_loop (grid g) x y offsets Hfull 0 ltac:(lia) Hb) as Hrun.
  rewrite Z.add_0_l in Hrun. exact Hrun.
Qed.

Lemma mines_around_bound ts x y : 0 <= mines_around w h ts x y <= 8.
Proof.
  unfold mines_around.
  pose proof (countb_le (fun '(i, j) => mine_at w h ts (x + i) (y + j)) offsets) as H.
  assert (length offsets = 8%nat) as E by (by rewrite offsets_eq).
  lia.
Qed.

Variable g0 : Game.
Hypothesis Ew : boardWidth g0 = w.
Hypothesis Eh : boardHeight g0 = h.

(** The body of the loops of [numberGrid]. *)
Definition number_body (x y : Z) (g : Game) : option Game :=
  let i := index w x y in
  match idx (grid g) i with
  | None => None
  | Some t =>
    if 9 =? value t then Some g
    else
      match countMines g (u16 x) (u16 y) with
      | None => None
      | Some n => Some (upd_tile i (set_value n) g)
      end
  end.

(** The state of the loops: the grid is full, its tiles are the tiles
    [ts0] of the mines loop with numbers painted on, and nothing else of
    the game has changed. *)
Definition numbering (ts0 : list tile) (g : Game) : Prop :=
  g = set_grid (grid g) g0
  /\ Z.of_nat (length (grid g)) = w * h
  /\ Forall2 painted ts0 (grid g).

Variable ts0 : list tile.

Lemma number_body_step X Y g t :
  0 <= X < w -> 0 <= Y < h ->
  numbering ts0 g ->
  grid g !! Z.to_nat (index w X Y) = Some t -> value t = 0 \/ value t = 9 ->
  exists g' t',
    number_body X Y g = Some g'
    /\ numbering ts0 g'
    /\ grid g' = <[Z.to_nat (index w X Y) := t']> (grid g)
    /\ (isMine t' = false -> value t' = mines_around w h ts0 X Y).
Proof.
  intros HX HY (Hg & Hlen & Hp) Ht Hv. pose proof (index_bound w h X Y HX HY) as Hi0.
  unfold number_body. rewrite idx_lookup by lia. rewrite Ht.
  destruct (Z.eqb_spec 9 (value t)) as [H9 | H9].
  { exists g, t. split; [done |]. split; [done |].
    split; [by rewrite list_insert_id |].
    unfold isMine. destruct (Z.eqb_spec 9 (value t)); [done | congruence]. }
  destruct Hv as [Hv | Hv]; [| congruence].
  assert (boardWidth g = w /\ boardHeight g = h) as [Ew' Eh'] by (by rewrite Hg).
  rewrite !u16_small by lia.
  rewrite (countMines_count g X Y Ew' Eh') by (unfold full; by rewrite Ew', Eh').
  pose proof (mines_around_bound (grid g) X Y) as Hb.
  assert (Forall2 (fun t t' => isMine t' = isMine t) ts0 (grid g)) as Hsame.
  { eapply Forall2_impl; [exact Hp |]. by intros a b (_ & _ & Hm & _). }
  set (nv := mines_around w h (grid g) X Y) in *.
  set (t' := set_value nv t).
  assert (alter (set_value nv) (Z.to_nat (index w X Y)) (grid g)
          = <[Z.to_nat (index w X Y) := t']> (grid g)) as Halt.
  { apply list_eq. intros k. destruct (decide (Z.to_nat (index w X Y) = k)) as [<- | Hne].
    - rewrite list_lookup_alter_eq, Ht, list_lookup_insert_eq; [done |].
      by apply lookup_lt_Some in Ht.
    - by rewrite list_lookup_alter_ne, list_lookup_insert_ne. }
  set (g' := upd_tile (index w X Y) (set_value nv) g).
  assert (grid g' = <[Z.to_nat (index w X Y) := t']> (grid g)) as Hgrid by exact Halt.
  exists g', t'. split; [done |]. split; [| split].
  - split; [| split].
    + rewrite Hgrid. unfold g', upd_tile. rewrite Halt. rewrite Hg. reflexivity.
    + by rewrite Hgrid, length_insert.
    + rewrite Hgrid.
      destruct (Forall2_lookup_r _ _ _ _ _ Hp Ht) as (t0 & Ht0 & Hf0 & Hc0 & Hm0 & Hr0).
      rewrite <- (list_insert_id ts0 _ t0 Ht0). apply Forall2_insert; [done |].
      repeat split; [done | done | | simpl; lia | simpl; lia].
      rewrite <- Hm0. unfold isMine. subst t'. cbn [value set_value].
      destruct (Z.eqb_spec 9 nv), (Z.eqb_spec 9 (value t)); (done || lia).
  - done.
  - intros _. subst t' nv. cbn [value set_value].
    by apply mines_around_same_mines.
Qed.

Lemma game_number_column X : 0 <= X < w ->
  forall n Y g,
    0 <= Y -> Y + Z.of_nat n = h -> numbering ts0 g ->
    MinesGenerate.pending w h (fun x y => X < x \/ (x = X /\ Y <= y)) (grid g) ->
    MinesNumbers.counted w h ts0 (fun x y => x < X \/ (x = X /\ y < Y)) (grid g) ->
    exists g',
      for_each (seqZ Y (Z.of_nat n)) (number_body X) g = Some g'
      /\ numbering ts0 g'
      /\ MinesGenerate.pending w h (fun x y => X < x) (grid g')
      /\ MinesNumbers.counted w h ts0 (fun x y => x <= X) (grid g').
Proof.
  intros HX. induction n as [| n IH]; intros Y g HY Hn Hnum Hpend Hcnt.
  { exists g. repeat split; try apply Hnum.
    - intros x y Hx Hy Hlt. apply Hpend; [done .. | by left].
    - intros x y Hx Hy Hle. apply Hcnt; [done .. | lia]. }
  rewrite seqZ_cons by lia. cbn [for_each].
  destruct (Hpend X Y) as (t & Ht & Hv); [lia | lia | right; lia |].
  destruct (number_body_step X Y g t) as (g1 & t' & -> & Hnum1 & Hgrid1 & Hval);
    try done; [lia |].
  replace (Z.pred (Z.of_nat (S n))) with (Z.of_nat n) by lia.
  apply (IH (Z.succ Y)); try done; [lia | lia | |].
  - intros x y Hx Hy Hxy. rewrite Hgrid1, list_lookup_insert_ne.
    + apply Hpend; [done | done | lia].
    + apply not_eq_sym. apply (MinesNumbers.index_neq w h); try done; [lia |].
      intros [= -> ->]. lia.
  - intros x y Hx Hy Hxy. rewrite Hgrid1.
    destruct (decide ((x, y) = (X, Y))) as [[= -> ->] | Hne].
    + exists t'. split; [| done]. apply list_lookup_insert_eq.
      by apply lookup_lt_Some in Ht.
    + rewrite list_lookup_insert_ne
        by (apply not_eq_sym; apply (MinesNumbers.index_neq w h); try done; lia).
      apply Hcnt; [done | done |].
      destruct Hxy as [Hlt | [-> Hlt]]; [by left | right].
      split; [done |]. destruct (Z.eq_dec y Y) as [-> | ]; [done | lia].
Qed.

Lemma game_number_columns :
  forall n X g,
    0 <= X -> X + Z.of_nat n = w -> numbering ts0 g ->
    MinesGenerate.pending w h (fun x y => X <= x) (grid g) ->
    MinesNumbers.counted w h ts0 (fun x y => x < X) (grid g) ->
    exists g',
      for_each (seqZ X (Z.of_nat n))
        (fun x g => for_each (seqZ 0 h) (fun y g => number_body x y g) g) g = Some g'
      /\ numbering ts0 g'
      /\ MinesNumbers.counted w h ts0 (fun x y => True) (grid g').
Proof.
  induction n as [| n IH]; intros X g HX Hn Hnum Hpend Hcnt.
  { exists g. repeat split; try apply Hnum. intros x y Hx Hy _. apply Hcnt; [done .. | lia]. }
  rewrite seqZ_cons by lia. cbn [for_each].
  destruct (game_number_column X) with (n := Z.to_nat h) (Y := 0) (g := g)
    as (g1 & Hrun & Hnum1 & Hpend1 & Hcnt1); try done; try lia.
  { intros x y Hx Hy Hxy. apply Hpend; [done | done | lia]. }
  { intros x y Hx Hy Hxy. apply Hcnt; [done | done | lia]. }
  rewrite Z2Nat.id in Hrun by lia.
  change (fun y g => number_body X y g) with (number_body X).
  rewrite Hrun.
  replace (Z.pred (Z.of_nat (S n))) with (Z.of_nat n) by lia.
  apply (IH (Z.succ X)); try done; [lia | lia | |].
  - intros x y Hx Hy Hxy. apply Hpend1; [done | done | lia].
  - intros x y Hx Hy Hxy. apply Hcnt1; [done | done | lia].
Qed.

End Number.

Lemma numberGrid_post g :
  1 <= boardWidth g <= 250 -> 1 <= boardHeight g <= 250 ->
  full g -> Forall pristine (grid g) ->
  exists g',
    numberGrid g = Some g'
    /\ g' = set_grid (grid g') g
    /\ Z.of_nat (length (grid g')) = boardWidth g * boardHeight g
    /\ Forall2 painted (grid g) (grid g')
    /\ numbered (boardWidth g) (boardHeight g) (grid g').
Proof.
  intros Hw Hh Hfull Hp.
  destruct (game_number_columns (boardWidth g) (boardHeight g) Hw Hh g eq_refl eq_refl (grid g)
              (Z.to_nat (boardWidth g)) 0 g)
    as (g' & Hrun & (Hg' & Hlen' & Hp') & Hcnt); try done; try lia.
  - split; [by rewrite set_grid_same |]. split; [done |].
    apply Forall_Forall2_diag. eapply Forall_impl; [exact Hp |].
    intros t ([Hv | Hv] & _ & _); repeat split; lia.
  - intros x y Hx Hy _.
    destruct (lookup_lt_is_Some_2 (grid g) (Z.to_nat (index (boardWidth g) x y))) as [t Ht].
    { pose proof (index_bound _ _ x y Hx Hy). unfold full in Hfull. lia. }
    exists t. split; [done |]. by destruct (Forall_lookup_1 _ _ _ _ Hp Ht) as (Hv & _).
  - intros x y Hx Hy Hlt. lia.
  - rewrite Z2Nat.id in Hrun by lia. exists g'. split; [exact Hrun |].
    split; [done |]. split; [done |]. split; [done |].
    intros x y Hx Hy. destruct (Hcnt x y Hx Hy I) as (t & Ht & Hval).
    pose proof (index_bound _ _ x y Hx Hy).
    exists t. split; [by rewrite idx_lookup by lia |].
    intros Hm. rewrite (Hval Hm). symmetry.
    apply mines_around_same_mines.
    eapply Forall2_impl; [exact Hp' |]. by intros a b (_ & _ & Hmm & _).
Qed.

(** [addMinesToGrid] on a game of valid dimensions: it fills the grid
    unless the supply of random draws runs out, and changes nothing else
    of the game. *)
Lemma addMinesToGrid_post ix iy g rs :
  WF g -> 0 <= ix < boardWidth g -> 0 <= iy < boardHeight g ->
  match addMinesToGrid ix iy (World g rs) with
  | Ret _ s' =>
      game s' = set_grid (grid (game s')) g
      /\ laid (boardWidth g) (boardHeight g) (totalMines g) ix iy (grid (game s'))
  | Starved => True
  | Panic | Exhausted => False
  end.
Proof.
  intros Hwf Hix Hiy. pose proof (wf_width _ Hwf) as Hw.
  pose proof (wf_height _ Hwf) as Hh. pose proof (wf_mines _ Hwf) as Hm.
  unfold addMinesToGrid. cbn [game rand].
  set (g1 := set_grid (make zero_tile (u16 (boardHeight g * boardWidth g))) g).
  rewrite (placeMines_same ix iy (length rs) rs 0 g1 (le_n _)).
  change (as_mines g1) with (as_mines g). cbn [grid g1 set_grid].
  pose proof (MinesGenerate.placeMines_post (as_mines g) ix iy Hw Hh ltac:(simpl; nia) Hix
                (length rs) rs 0 (make zero_tile (u16 (boardHeight g * boardWidth g)))
                (le_n _) ltac:(simpl; lia)
                (MinesGenerate.placing_make (as_mines g) ix iy Hw Hh Hix Hiy)) as Hpl.
  destruct (Mines.placeMines (as_mines g) ix iy 0
              (make zero_tile (u16 (boardHeight g * boardWidth g))) rs)
    as [ts1 rs1 | | |]; try done.
  destruct Hpl as [Hl1 Hp1 Hc1 (ti & Hti & Hvi)]. cbn [Mines.width Mines.height as_mines] in *.
  destruct (numberGrid_post (set_grid ts1 g1)) as (g2 & Hrun & Hg2 & Hlen2 & Hp2 & Hnum2);
    try done.
  rewrite Hrun. cbn [game]. cbn [boardWidth boardHeight set_grid g1 grid] in *.
  split; [rewrite Hg2 at 1; done |].
  split.
  - done.
  - apply Forall_forall. intros t Hin.
    apply list_elem_of_lookup in Hin as [i Hi].
    destruct (Forall2_lookup_r _ _ _ _ _ Hp2 Hi) as (t0 & Ht0 & Hf & Hc & _).
    destruct (Forall_lookup_1 _ _ _ _ Hp1 Ht0) as (_ & Hf0 & Hc0). split; congruence.
  - apply Forall_forall. intros t Hin.
    apply list_elem_of_lookup in Hin as [i Hi].
    by destruct (Forall2_lookup_r _ _ _ _ _ Hp2 Hi) as (t0 & Ht0 & _ & _ & _ & Hr).
  - rewrite (MinesGenerate.painted_mines _ _ Hp2). simpl in Hc1. lia.
  - apply idx_Some_inv in Hti as [Hri Hti].
    destruct (Forall2_lookup_l _ _ _ _ _ Hp2 Hti) as (t & Ht & _ & _ & Hmi & _).
    exists t. split; [by rewrite idx_lookup by lia |].
    rewrite Hmi. unfold isMine. by rewrite Hvi.
  - done.
Qed.

End GameGenerate.

(** * Package game: a call that opens tiles *)

Module GameRun.
Import Game GameSpec.

Lemma game_rsteps_refl g : rsteps g g.
Proof. apply rtc_refl. Qed.

Lemma game_rsteps_once g g' : rstep g g' -> rsteps g g'.
Proof. apply rtc_once. Qed.

Lemma game_rsteps_trans g1 g2 g3 : rsteps g1 g2 -> rsteps g2 g3 -> rsteps g1 g3.
Proof. apply rtc_trans. Qed.

Lemma game_ext_refl g : ext g g.
Proof. split; try done. apply tiles_le_refl. Qed.

Lemma game_ext_trans g1 g2 g3 : ext g1 g2 -> ext g2 g3 -> ext g1 g3.
Proof.
  intros H1 H2. split.
  - rewrite (ext_uid _ _ H2). apply H1.
  - rewrite (ext_width _ _ H2). apply H1.
  - rewrite (ext_height _ _ H2). apply H1.
  - rewrite (ext_mines _ _ H2). apply H1.
  - rewrite (ext_flags _ _ H2). apply H1.
  - rewrite (ext_startTime _ _ H2). apply H1.
  - eapply tiles_le_trans; [apply H1 | apply H2].
  - intros t Ht. eapply (ext_endTime _ _ H2), (ext_endTime _ _ H1), Ht.
  - intros Hw. eapply (ext_won _ _ H2), (ext_won _ _ H1), Hw.
Qed.

Lemma game_rstep_ext g g' : rstep g g' -> ext g g'.
Proof.
  intros [g0 i t Hen Ht Hc Hf Hv | g0 i t now Hen Ht Hc Hf Hv | g0 now Hen];
    split; try done; try apply tiles_le_click; try apply tiles_le_refl;
    simpl; congruence.
Qed.

Lemma game_rsteps_ext g g' : rsteps g g' -> ext g g'.
Proof.
  induction 1 as [| g1 g2 g3 Hs _ IH]; [apply game_ext_refl |].
  eapply game_ext_trans; [by apply game_rstep_ext | done].
Qed.

Lemma ext_full g g' : ext g g' -> full g -> full g'.
Proof.
  intros He Hf. unfold full in *.
  rewrite (ext_width _ _ He), (ext_height _ _ He), <- Hf.
  by rewrite (Forall2_length _ _ _ (ext_grid _ _ He)).
Qed.

Lemma ext_WF g g' : ext g g' -> full g -> WF g -> WF g'.
Proof.
  intros He Hf Hwf. split.
  - rewrite (ext_width _ _ He). apply Hwf.
  - rewrite (ext_height _ _ He). apply Hwf.
  - rewrite (ext_mines _ _ He), (ext_width _ _ He), (ext_height _ _ He). apply Hwf.
  - right. by apply (ext_full g).
Qed.

Lemma game_ext_ended g g' : ext g g' -> ended g -> ended g'.
Proof.
  intros He Hen. unfold ended in *. destruct (endTime g) as [t |] eqn:E; [| done].
  by rewrite (ext_endTime _ _ He t).
Qed.

Lemma game_ext_unclicked g g' : ext g g' -> (unclicked (grid g') <= unclicked (grid g))%nat.
Proof. intros He. apply tiles_le_unclicked, He. Qed.

Lemma game_tile_at_is_Some g x y :
  WF g -> full g -> 0 <= x < boardWidth g -> 0 <= y < boardHeight g ->
  is_Some (tile_at g x y).
Proof.
  intros Hwf Hf Hx Hy. unfold tile_at. apply idx_is_Some.
  rewrite Hf. by apply index_bound.
Qed.

Lemma game_ext_tile_at g g' x y t :
  ext g g' -> tile_at g x y = Some t ->
  exists t', tile_at g' x y = Some t' /\ tile_le t t'.
Proof.
  intros He. unfold tile_at. rewrite (ext_width _ _ He).
  intros H. apply idx_Some_inv in H as [Hr H].
  rewrite idx_lookup by lia. eapply tiles_le_lookup; [apply He | done].
Qed.

(** A tile that is clicked or flagged stays so while tiles are opened. *)
Definition marked (t : tile) : Prop := clicked t = true \/ flagged t = true.

Lemma ext_marked_at g g' x y :
  ext g g' ->
  (exists t, tile_at g x y = Some t /\ marked t) ->
  exists t', tile_at g' x y = Some t' /\ marked t'.
Proof.
  intros He (t & Ht & Hm).
  destruct (game_ext_tile_at _ _ _ _ _ He Ht) as (t' & Ht' & _ & Hf & Hc).
  exists t'. split; [done |]. destruct Hm as [Hm | Hm]; [left; auto | right; congruence].
Qed.

Lemma game_ext_clicked_at g g' x y :
  ext g g' ->
  (exists t, tile_at g x y = Some t /\ clicked t = true) ->
  exists t', tile_at g' x y = Some t' /\ clicked t' = true.
Proof.
  intros He (t & Ht & Hc). destruct (game_ext_tile_at _ _ _ _ _ He Ht) as (t' & Ht' & _ & _ & Hle).
  eauto.
Qed.

Lemma game_ext_unclicked_lt g g' x y t :
  ext g g' -> tile_at g x y = Some t -> clicked t = false ->
  (exists t', tile_at g' x y = Some t' /\ clicked t' = true) ->
  (unclicked (grid g') < unclicked (grid g))%nat.
Proof.
  intros He Ht Hc (t' & Ht' & Hc'). unfold tile_at in *.
  rewrite (ext_width _ _ He) in Ht'.
  apply idx_Some_inv in Ht as [_ Ht]. apply idx_Some_inv in Ht' as [_ Ht'].
  eapply tiles_le_unclicked_lt; [apply He | done ..].
Qed.

(** ** countFlags *)

Lemma game_countFlags_loop g x y l :
  WF g -> full g ->
  forall total, 0 <= total -> total + Z.of_nat (length l) < 256 ->
  for_each l (fun '(i, j) total =>
    let y2 := y + j in
    let x2 := x + i in
    if outside (boardWidth g) (boardHeight g) x2 y2 then Some total
    else
      match idx (grid g) (index (boardWidth g) x2 y2) with
      | None => None
      | Some t => if flagged t then Some (u8 (total + 1)) else Some total
      end) total
  = Some (total + Z.of_nat (countb (fun '(i, j) => flagged_at g (x + i) (y + j)) l)).
Proof.
  intros Hwf Hf. induction l as [| [i j] l IH]; intros total Ht Hb; cbn [for_each countb].
  { f_equal. lia. }
  cbn [length] in Hb. cbv zeta. unfold flagged_at at 1.
  destruct (outside (boardWidth g) (boardHeight g) (x + i) (y + j)) eqn:Hout.
  { rewrite IH by lia. done. }
  apply outside_false in Hout as [Hxi Hyj].
  fold (tile_at g (x + i) (y + j)).
  destruct (game_tile_at_is_Some g (x + i) (y + j)) as [t Htile]; try done.
  rewrite Htile. destruct (flagged t).
  - rewrite u8_small by lia. rewrite IH by lia. f_equal. lia.
  - rewrite IH by lia. done.
Qed.

Lemma game_countFlags_count g x y :
  WF g -> full g -> countFlags g x y = Some (flag_count g x y).
Proof.
  intros Hwf Hf. unfold flag_count.
  assert (0 + Z.of_nat (length offsets) < 256) as Hb by (rewrite offsets_eq; simpl; lia).
  pose proof (game_countFlags_loop g x y offsets Hwf Hf 0 ltac:(lia) Hb) as Hrun.
  rewrite Z.add_0_l in Hrun. exact Hrun.
Qed.

(** ** The win check *)

Lemma game_winCheck_steps now g : rsteps g (winCheck now g).
Proof.
  unfold winCheck. destruct (endTime g) eqn:E; simpl; [apply game_rsteps_refl |].
  destruct (scan (grid g) =? Z.of_nat (length (grid g))); [| apply game_rsteps_refl].
  apply game_rsteps_once. by constructor.
Qed.

Lemma game_winCheck_settled now g : settled (winCheck now g).
Proof.
  unfold winCheck. destruct (endTime g) eqn:E; simpl.
  { left. unfold ended. congruence. }
  destruct (Z.eqb_spec (scan (grid g)) (Z.of_nat (length (grid g)))) as [Heq | Hne].
  - left. unfold ended. done.
  - by right.
Qed.

(** ** Nested calls *)

(** What a call [click x y false] does when its budget covers the tiles
    that are left: it returns, by steps of the game, with the win check
    run, and with the tile clicked unless it carries a flag or the game
    had ended. *)
Record post (g : Game) (x y : Z) (e : option string) (g' : Game) : Prop := {
  post_steps : rsteps g g';
  post_settled : settled g';
  post_error : endTime g = None -> e = None;
  post_rejected : endTime g <> None -> e = Some "Game is not active" /\ g' = g;
  post_clicked : endTime g = None ->
    forall t, tile_at g x y = Some t -> flagged t = false ->
    exists t', tile_at g' x y = Some t' /\ clicked t' = true
}.

Definition click_ok (n : nat)
    (click : Z -> Z -> bool -> world -> res world (option string)) : Prop :=
  forall g rs x y,
    WF g -> full g -> 0 <= x < boardWidth g -> 0 <= y < boardHeight g ->
    ((unclicked (grid g) < n)%nat \/
     ((unclicked (grid g) <= n)%nat /\
      exists t, tile_at g x y = Some t /\ clicked t = false /\ flagged t = false)) ->
    exists e g', click x y false (World g rs) = Ret e (World g' rs) /\ post g x y e g'.

Section Neighbors.

Variable n : nat.
Variable click : Z -> Z -> bool -> world -> res world (option string).
Hypothesis Hclick : click_ok n click.

Variables (g0 : Game) (rs : list Z) (x y : Z).
Hypothesis Hwf0 : WF g0.
Hypothesis Hfull0 : full g0.
Hypothesis Hn : (unclicked (grid g0) <= n)%nat.

Lemma game_clickNeighbor_loop l : forall g,
  rsteps g0 g -> g = g0 \/ settled g ->
  exists g',
    for_each_res l (clickNeighbor click (boardWidth g0) (boardHeight g0) x y)
                 (World g rs) = Ret tt (World g' rs)
    /\ rsteps g g' /\ (g' = g0 \/ settled g')
    /\ forall i j, (i, j) ∈ l ->
         0 <= x + i < boardWidth g0 -> 0 <= y + j < boardHeight g0 ->
         ended g' \/ exists t', tile_at g' (x + i) (y + j) = Some t' /\ marked t'.
Proof.
  induction l as [| [i j] l IH]; intros g Hsteps Hinv.
  { exists g. split; [done |]. split; [apply game_rsteps_refl |]. split; [done |].
    intros i j Hin. by apply elem_of_nil in Hin. }
  pose proof (game_rsteps_ext _ _ Hsteps) as Hext.
  pose proof (ext_WF _ _ Hext Hfull0 Hwf0) as Hwf.
  pose proof (ext_full _ _ Hext Hfull0) as Hfull.
  cbn [for_each_res]. unfold clickNeighbor at 1.
  destruct (outside (boardWidth g0) (boardHeight g0) (x + i) (y + j)) eqn:Hout.
  { destruct (IH g Hsteps Hinv) as (g' & Hrun & Hst & Hin' & Hnb).
    exists g'. repeat split; try done.
    intros i' j' Hin Hxi Hyj. apply elem_of_cons in Hin as [Heq | Hin].
    - injection Heq as -> ->.
      assert (outside (boardWidth g0) (boardHeight g0) (x + i) (y + j) = false) as E
        by (by apply outside_false).
      congruence.
    - by eapply Hnb. }
  apply outside_false in Hout as [Hxi Hyj]. cbn [game rand].
  pose proof (wf_width _ Hwf0) as Hw0. pose proof (wf_height _ Hwf0) as Hh0.
  rewrite (ext_width _ _ Hext).
  rewrite !u16_small by lia.
  rewrite (index16_small _ (boardHeight g0)) by lia.
  assert (tile_at g (x + i) (y + j) = idx (grid g) (index (boardWidth g0) (x + i) (y + j)))
    as Eta by (unfold tile_at; by rewrite (ext_width _ _ Hext)).
  rewrite <- Eta.
  destruct (game_tile_at_is_Some g (x + i) (y + j)) as [t Ht]; try done.
  { by rewrite (ext_width _ _ Hext). }
  { by rewrite (ext_height _ _ Hext). }
  rewrite Ht.
  destruct (negb (clicked t) && negb (flagged t)) eqn:Hcond.
  2: { destruct (IH g Hsteps Hinv) as (g' & Hrun & Hst & Hin' & Hnb).
       exists g'. repeat split; try done.
       intros i' j' Hin Hxi' Hyj'. apply elem_of_cons in Hin as [Heq | Hin].
       - injection Heq as -> ->. right.
         apply (ext_marked_at g g'); [by apply game_rsteps_ext |].
         exists t. split; [done |]. unfold marked.
         destruct (clicked t); [by left |]. destruct (flagged t); [by right | done].
       - by eapply Hnb. }
  apply andb_true_iff in Hcond as [Hc Hf].
  apply negb_true_iff in Hc. apply negb_true_iff in Hf.
  destruct (Hclick g rs (x + i) (y + j)) as (e & g2 & Hcall & Hpost).
  { done. }
  { done. }
  { rewrite (ext_width _ _ Hext). done. }
  { rewrite (ext_height _ _ Hext). done. }
  { right. split; [pose proof (game_ext_unclicked _ _ Hext); lia |]. exists t. done. }
  rewrite Hcall.
  assert (rsteps g0 g2) as Hsteps2 by (eapply game_rsteps_trans; [done | apply Hpost]).
  destruct (IH g2 Hsteps2) as (g' & Hrun & Hst & Hin' & Hnb).
  { right. apply Hpost. }
  exists g'. split; [done |]. split; [eapply game_rsteps_trans; [apply Hpost | done] |].
  split; [done |].
  pose proof (game_rsteps_ext _ _ Hst) as Hext3.
  pose proof (game_rsteps_ext _ _ (post_steps _ _ _ _ _ Hpost)) as Hext2.
  intros i' j' Hin Hxi' Hyj'. apply elem_of_cons in Hin as [Heq | Hin].
  - injection Heq as -> ->.
    destruct (endTime g) as [tm |] eqn:Hen.
    + left. eapply game_ext_ended; [exact Hext3 |]. eapply game_ext_ended; [exact Hext2 |].
      unfold ended. congruence.
    + right. destruct (post_clicked _ _ _ _ _ Hpost Hen t Ht Hf) as (t2 & Ht2 & Hc2).
      apply (ext_marked_at g2 g'); [done |]. exists t2. split; [done | by left].
  - by eapply Hnb.
Qed.

End Neighbors.

Section Act.

Variable n : nat.
Variable click : Z -> Z -> bool -> world -> res world (option string).
Hypothesis Hclick : click_ok n click.

Lemma game_clickNeighbors_ok g0 rs x y :
  WF g0 -> full g0 -> (unclicked (grid g0) <= n)%nat ->
  exists g',
    clickNeighbors click x y (World g0 rs) = Ret tt (World g' rs)
    /\ rsteps g0 g'
    /\ forall i j, (i, j) ∈ offsets ->
         0 <= x + i < boardWidth g0 -> 0 <= y + j < boardHeight g0 ->
         ended g' \/ exists t', tile_at g' (x + i) (y + j) = Some t' /\ marked t'.
Proof.
  intros Hwf Hfull Hn.
  destruct (game_clickNeighbor_loop n click Hclick g0 rs x y Hwf Hfull Hn offsets g0)
    as (g' & Hrun & Hst & _ & Hnb).
  - apply game_rsteps_refl.
  - by left.
  - exists g'. split; [exact Hrun |]. split; done.
Qed.

Lemma game_act_reveal_ok g1 rs now x y t :
  WF g1 -> full g1 -> 0 <= x < boardWidth g1 -> 0 <= y < boardHeight g1 ->
  endTime g1 = None -> tile_at g1 x y = Some t ->
  ((unclicked (grid g1) <= n)%nat \/
   ((unclicked (grid g1) <= S n)%nat /\ clicked t = false /\ flagged t = false)) ->
  exists g',
    act click now x y false (World g1 rs) = Ret None (World g' rs)
    /\ rsteps g1 g' /\ settled g'
    /\ (flagged t = false -> exists t', tile_at g' x y = Some t' /\ clicked t' = true).
Proof.
  intros Hwf Hfull Hx Hy Hact Ht Hm.
  pose proof (wf_width _ Hwf) as Hw. pose proof (wf_height _ Hwf) as Hh.
  unfold act, on_game. cbn [game rand].
  rewrite (index16_small _ (boardHeight g1)) by lia.
  fold (tile_at g1 x y). rewrite Ht.
  assert (forall g3, rsteps g1 g3 ->
            (flagged t = false -> exists t', tile_at g3 x y = Some t' /\ clicked t' = true) ->
            exists g',
              Ret (S := world) (@None string) (World (winCheck now g3) rs)
              = Ret None (World g' rs)
              /\ rsteps g1 g' /\ settled g'
              /\ (flagged t = false ->
                   exists t', tile_at g' x y = Some t' /\ clicked t' = true)) as Hfin.
  { intros g3 Hst3 Hc3. exists (winCheck now g3).
    split; [done |]. split; [eapply game_rsteps_trans; [done | apply game_winCheck_steps] |].
    split; [apply game_winCheck_settled |].
    intros Hf0. apply (game_ext_clicked_at g3); [apply game_rsteps_ext, game_winCheck_steps | by apply Hc3]. }
  destruct (clicked t) eqn:Hc; cbn [negb andb].
  - (* a clicked tile: the chord *)
    rewrite game_countFlags_count by done.
    assert ((unclicked (grid g1) <= n)%nat) as Hn.
    { destruct Hm as [Hm | (_ & Hc0 & _)]; [done | congruence]. }
    destruct (flag_count g1 x y =? value t).
    + destruct (game_clickNeighbors_ok g1 rs x y) as (g' & Hrun & Hst & _); try done.
      rewrite Hrun. apply (Hfin g'); [done |].
      intros _. eapply game_ext_clicked_at; [by apply game_rsteps_ext |].
      exists t. done.
    + apply (Hfin g1); [apply game_rsteps_refl |].
      intros _. exists t. done.
  - destruct (flagged t) eqn:Hf; cbn [negb andb].
    + (* a flagged tile is left alone *)
      apply (Hfin g1); [apply game_rsteps_refl | done].
    + (* the tile is clicked *)
      fold (opened (index (boardWidth g1) x y) g1).
      remember (opened (index (boardWidth g1) x y) g1) as g2 eqn:Eg2.
      assert (grid g2 = alter (set_clicked true) (Z.to_nat (index (boardWidth g1) x y)) (grid g1))
        as Hl2 by (by subst g2).
      assert (exists t', tile_at g2 x y = Some t' /\ clicked t' = true) as Hc2.
      { exists (set_clicked true t). split; [| done]. unfold tile_at in *. rewrite Hl2.
        assert (boardWidth g2 = boardWidth g1) as -> by (by subst g2).
        apply idx_Some_inv in Ht as [Hr Ht]. rewrite idx_lookup by lia.
        by rewrite list_lookup_alter_eq, Ht. }
      destruct (Z.eqb_spec 9 (value t)) as [H9 | H9].
      * (* a mine *)
        assert (rstep g1 (set_endTime (Some now) g2)) as Hstep
          by (subst g2; eapply rs_boom; [done | exact Ht | done | done | done]).
        apply (Hfin (set_endTime (Some now) g2)).
        -- by apply game_rsteps_once.
        -- intros _. exact Hc2.
      * assert (rstep g1 g2) as Hstep
          by (subst g2; eapply rs_click; [done | exact Ht | done | done | congruence]).
        pose proof (game_rstep_ext _ _ Hstep) as Hext2.
        destruct (Z.eqb_spec 0 (value t)) as [H0 | H0].
        -- (* no mine around: the neighbors are opened *)
           assert ((unclicked (grid g2) <= n)%nat) as Hn2.
           { assert ((unclicked (grid g2) < unclicked (grid g1))%nat) as Hlt.
             { eapply game_ext_unclicked_lt; [done | exact Ht | done | exact Hc2]. }
             destruct Hm as [Hm | [Hm _]]; lia. }
           destruct (game_clickNeighbors_ok g2 rs x y) as (g' & Hrun & Hst & _);
             [by apply (ext_WF g1) | by apply (ext_full g1) | done |].
           rewrite Hrun.
           apply (Hfin g').
           ++ eapply game_rsteps_trans; [by apply game_rsteps_once | done].
           ++ intros _. eapply game_ext_clicked_at; [by apply game_rsteps_ext | exact Hc2].
        -- apply (Hfin g2).
           ++ by apply game_rsteps_once.
           ++ intros _. exact Hc2.
Qed.

End Act.

Lemma game_ClickTile_unfold fuel now x y flag s :
  ClickTile (S fuel) now x y flag s
  = ClickTile_body (ClickTile fuel now) now x y flag s.
Proof. done. Qed.

(** A call in bounds on a game with the grid filled: the part of
    [ClickTile] before the tile is tested. *)
Lemma ClickTile_body_full click now x y flag g rs :
  WF g -> full g -> 0 <= x < boardWidth g -> 0 <= y < boardHeight g ->
  ClickTile_body click now x y flag (World g rs)
  = if negb (IsZero (endTime g)) then Ret (Some "Game is not active") (World g rs)
    else act click now x y flag (World g rs).
Proof.
  intros Hwf Hfull Hx Hy. unfold ClickTile_body. cbn [game rand].
  destruct (Z.leb_spec (boardWidth g) x); [lia |].
  destruct (Z.leb_spec (boardHeight g) y); [lia |].
  pose proof (wf_width _ Hwf). pose proof (wf_height _ Hwf). unfold full in Hfull.
  destruct (Z.eqb_spec 0 (Z.of_nat (length (grid g)))); [nia |]. done.
Qed.

Lemma game_unclicked_pos ts i t :
  ts !! i = Some t -> clicked t = false -> (0 < unclicked ts)%nat.
Proof.
  unfold unclicked. revert i. induction ts as [| t0 ts IH]; intros i Hi Hc; [done |].
  simpl. destruct i as [| i]; simpl in Hi.
  - injection Hi as ->. rewrite Hc. simpl. lia.
  - specialize (IH i Hi Hc). destruct (clicked t0); simpl; lia.
Qed.

Theorem game_ClickTile_ok now n : click_ok n (ClickTile n now).
Proof.
  induction n as [| n IH]; intros g rs x y Hwf Hfull Hx Hy Hm.
  { exfalso. destruct Hm as [Hm | (Hm & t & Ht & Hc & _)]; [lia |].
    apply idx_Some_inv in Ht as [_ Ht].
    pose proof (game_unclicked_pos _ _ _ Ht Hc). lia. }
  rewrite game_ClickTile_unfold, ClickTile_body_full by done.
  destruct (endTime g) as [tm |] eqn:Hen; cbn [IsZero negb].
  - exists (Some "Game is not active"), g. split; [done |]. split.
    + apply game_rsteps_refl.
    + left. unfold ended. congruence.
    + congruence.
    + done.
    + congruence.
  - destruct (game_tile_at_is_Some g x y) as [t Ht]; try done.
    destruct (game_act_reveal_ok n (ClickTile n now) IH g rs now x y t)
      as (g' & Hrun & Hst & Hset & Hcl); try done.
    { destruct Hm as [Hm | (Hm & t0 & Ht0 & Hc0 & Hf0)]; [left; lia | right].
      assert (t0 = t) as -> by congruence. done. }
    exists None, g'. split; [done |]. split; try done.
    intros _ t0 Ht0 Hf0. assert (t0 = t) as -> by congruence. by apply Hcl.
Qed.

End GameRun.

(** * Package game: every call *)

Module GameMono.
Import Game.

Definition click_le (c c' : Z -> Z -> bool -> world -> res world (option string)) : Prop :=
  forall x y f s r s', c x y f s = Ret r s' -> c' x y f s = Ret r s'.

Section Mono.

Variables c c' : Z -> Z -> bool -> world -> res world (option string).
Hypothesis Hle : click_le c c'.

Lemma game_clickNeighbor_mono w h x y ij s u s' :
  clickNeighbor c w h x y ij s = Ret u s' ->
  clickNeighbor c' w h x y ij s = Ret u s'.
Proof.
  unfold clickNeighbor. destruct ij as [i j].
  destruct (outside w h (x + i) (y + j)); [done |].
  destruct (idx _ _) as [t |]; [| done].
  destruct (negb (clicked t) && negb (flagged t)); [| done].
  destruct (c (u16 (x + i)) (u16 (y + j)) false s) as [r s1 | | |] eqn:E; try done.
  by rewrite (Hle _ _ _ _ _ _ E).
Qed.

Lemma game_clickNeighbors_mono x y s u s' :
  clickNeighbors c x y s = Ret u s' -> clickNeighbors c' x y s = Ret u s'.
Proof.
  unfold clickNeighbors. apply for_each_res_mono.
  intros a s0 u0 s0'. apply game_clickNeighbor_mono.
Qed.

Lemma game_act_mono now x y flag s r s' :
  act c now x y flag s = Ret r s' -> act c' now x y flag s = Ret r s'.
Proof.
  unfold act. destruct (idx _ _) as [t |]; [| done].
  destruct (clicked t).
  - destruct (negb flag); [| done].
    destruct (countFlags (game s) x y) as [f |]; [| done].
    destruct (f =? value t); [| done].
    destruct (clickNeighbors c x y s) as [u s1 | | |] eqn:E; try done.
    by rewrite (game_clickNeighbors_mono _ _ _ _ _ E).
  - destruct (negb (flagged t)); [| done].
    destruct flag; [done |].
    destruct (9 =? value t); [done |].
    destruct (0 =? value t); [| done].
    destruct (clickNeighbors c x y _) as [u s1 | | |] eqn:E; try done.
    by rewrite (game_clickNeighbors_mono _ _ _ _ _ E).
Qed.

Lemma game_ClickTile_body_mono now x y flag s r s' :
  ClickTile_body c now x y flag s = Ret r s' ->
  ClickTile_body c' now x y flag s = Ret r s'.
Proof.
  unfold ClickTile_body.
  destruct (boardWidth (game s) <=? x); [done |].
  destruct (boardHeight (game s) <=? y); [done |].
  destruct (if 0 =? Z.of_nat (length (grid (game s))) then addMinesToGrid x y s else Ret tt s)
    as [u s1 | | |]; try done.
  destruct (negb (IsZero (endTime (game s1)))); [done |].
  apply game_act_mono.
Qed.

End Mono.

Lemma game_ClickTile_mono now f : forall f', (f <= f')%nat ->
  click_le (ClickTile f now) (ClickTile f' now).
Proof.
  induction f as [| f IH]; intros f' Hf x y flag s r s' H; [done |].
  destruct f' as [| f']; [lia |].
  simpl in *. eapply game_ClickTile_body_mono; [| exact H].
  apply IH. lia.
Qed.

End GameMono.

Module GameTop.
Import Game GameSpec GameGenerate GameRun GameMono.

Lemma game_rsteps_moves g g' : rsteps g g' -> moves g g'.
Proof.
  induction 1 as [| g1 g2 g3 Hs _ IH]; [apply rtc_refl |].
  eapply rtc_l; [left; exact Hs | exact IH].
Qed.

Lemma full_not_empty g : WF g -> full g -> grid g <> [].
Proof.
  intros Hwf Hf E. unfold full in Hf. rewrite E in Hf.
  pose proof (wf_mines _ Hwf). simpl in Hf. lia.
Qed.

Lemma WF_full g : WF g -> grid g <> [] -> full g.
Proof. intros Hwf Hne. by destruct (wf_grid _ Hwf). Qed.

(** ** The invariant *)

Lemma grid_opened i g : grid (opened i g) = alter (set_clicked true) (Z.to_nat i) (grid g).
Proof. done. Qed.

Lemma grid_flag_set b i g :
  grid (flag_set b i g) = alter (set_flagged b) (Z.to_nat i) (grid g).
Proof. done. Qed.

(** What the invariant says of the grid alone. *)
Record grid_ok (w h m : Z) (ts : list tile) : Prop := {
  go_length : ts = [] \/ Z.of_nat (length ts) = w * h;
  go_values : Forall (fun t => 0 <= value t <= 9) ts;
  go_tidy : Forall (fun t => clicked t = true -> flagged t = false) ts;
  go_count : ts <> [] -> Z.of_nat (countb isMine ts) = m;
  go_numbered : ts <> [] -> numbered w h ts
}.

Lemma Inv0_grid_ok g :
  Inv0 g -> grid_ok (boardWidth g) (boardHeight g) (totalMines g) (grid g).
Proof. intros HI. split; apply HI. Qed.

Lemma grid_ok_alter w h m ts i t f :
  grid_ok w h m ts -> ts !! i = Some t ->
  value (f t) = value t -> (clicked (f t) = true -> flagged (f t) = false) ->
  (forall t0, value (f t0) = value t0) ->
  grid_ok w h m (alter f i ts).
Proof.
  intros [H1 H2 H3 H4 H5] Ht Hv Ht' Hf.
  assert (value <$> alter f i ts = value <$> ts) as Hvs
    by (by apply MinesTop.fmap_value_alter).
  assert (ts <> []) as Hne by (intros E; by rewrite E in Ht).
  split.
  - right. rewrite length_alter. by destruct H1.
  - apply Forall_alter; [done |]. intros t0 Ht0 H0. by rewrite Hf.
  - apply Forall_alter; [done |]. intros t0 Ht0 _.
    assert (t0 = t) as -> by congruence. done.
  - intros _. rewrite (countb_fmap_value _ _ Hvs). by apply H4.
  - intros _. eapply numbered_values; [exact Hvs | by apply H5].
Qed.

Lemma Inv0_intro g :
  1 <= boardWidth g <= 250 -> 1 <= boardHeight g <= 250 ->
  0 <= totalMines g <= boardWidth g * boardHeight g - 2 ->
  grid_ok (boardWidth g) (boardHeight g) (totalMines g) (grid g) ->
  flags g = Z.of_nat (countb flagged (grid g)) ->
  (won g = true -> ended g) ->
  (forall t, t ∈ grid g -> clicked t = true -> value t = 9 -> ended g) ->
  (ended g -> won g = false ->
   exists t, t ∈ grid g /\ clicked t = true /\ value t = 9) ->
  Inv0 g.
Proof.
  intros Hw Hh Hm [H1 H2 H3 H4 H5] Hf Hwon Hboom Hlost. split; done.
Qed.

Lemma game_NewGame_Inv uid now w h m g :
  0 <= w -> 0 <= h -> 0 <= m -> NewGame uid now w h m = inr g -> Inv g /\ grid g = [].
Proof.
  intros Hw Hh Hm. unfold NewGame.
  destruct (Z.ltb_spec 250 w); [done |].
  destruct (Z.ltb_spec 250 h); [done |].
  destruct (Z.ltb_spec (w * h - 2) m); [done |].
  intros [= <-]. split; [| done]. split; [| by left].
  apply Inv0_intro; cbn [boardWidth boardHeight totalMines grid flags won].
  - nia.
  - nia.
  - nia.
  - split; try done. by left.
  - done.
  - done.
  - intros t Ht. by apply elem_of_nil in Ht.
  - intros He. by destruct He.
Qed.

Lemma game_End_Inv b now g : Inv g -> Inv (End b now g).
Proof.
  intros [HI Hc]. assert (ended (End b now g)) as He by (by unfold ended).
  split; [| right; by left].
  apply Inv0_intro.
  - apply (inv_wf _ HI).
  - apply (inv_wf _ HI).
  - apply (inv_wf _ HI).
  - exact (Inv0_grid_ok g HI).
  - exact (inv_flags _ HI).
  - done.
  - done.
  - done.
Qed.

Lemma not_won g : Inv0 g -> endTime g = None -> won g = false.
Proof.
  intros HI Hen. pose proof (inv_won _ HI) as H. destruct (won g); [| done]. by destruct H.
Qed.

Lemma game_rstep_Inv0 g g' : rstep g g' -> Inv0 g -> Inv0 g'.
Proof.
  intros Hs HI. pose proof (inv_wf _ HI) as Hwf.
  pose proof (Inv0_grid_ok g HI) as Hgo.
  destruct Hs as [g i t Hen Ht Hc Hf Hv | g i t now Hen Ht Hc Hf Hv | g now Hen].
  - apply idx_Some_inv in Ht as [Hi Ht]. apply Inv0_intro; try apply Hwf.
    + rewrite grid_opened. by apply (grid_ok_alter _ _ _ _ _ t).
    + rewrite grid_opened. change (flags (opened i g)) with (flags g).
      rewrite (inv_flags _ HI). f_equal. symmetry. apply tiles_le_flagged, tiles_le_click.
    + change (won (opened i g)) with (won g). by rewrite (not_won g HI Hen).
    + rewrite grid_opened. intros t' Hin Hc' Hv'.
      apply elem_of_alter in Hin as [Hin | (t0 & Ht0 & ->)].
      * exfalso. by apply (inv_boom _ HI t' Hin Hc' Hv').
      * assert (t0 = t) as -> by congruence. done.
    + intros He. by destruct He.
  - apply idx_Some_inv in Ht as [Hi Ht]. apply Inv0_intro; try apply Hwf.
    + change (grid (set_endTime ?a ?g0)) with (grid g0).
      rewrite grid_opened. by apply (grid_ok_alter _ _ _ _ _ t).
    + change (grid (set_endTime ?a ?g0)) with (grid g0).
      rewrite grid_opened. change (flags (set_endTime ?a (opened i g))) with (flags g).
      rewrite (inv_flags _ HI). f_equal. symmetry. apply tiles_le_flagged, tiles_le_click.
    + intros _. by unfold ended.
    + intros _ _ _ _. by unfold ended.
    + intros _ _. exists (set_clicked true t). split; [| done].
      change (grid (set_endTime ?a ?g0)) with (grid g0). rewrite grid_opened.
      eapply list_elem_of_lookup_2. by rewrite list_lookup_alter_eq, Ht.
  - apply Inv0_intro; try apply Hwf.
    + exact Hgo.
    + exact (inv_flags _ HI).
    + intros _. by unfold ended.
    + intros _ _ _ _. by unfold ended.
    + intros _ Hw. done.
Qed.

Lemma game_rsteps_Inv0 g g' : rsteps g g' -> Inv0 g -> Inv0 g'.
Proof. induction 1; [done |]. intros HI. apply IHrtc. by eapply game_rstep_Inv0. Qed.

Lemma fstep_Inv0 g g' : fstep g g' -> Inv0 g -> Inv0 g'.
Proof.
  intros Hs HI. pose proof (inv_wf _ HI) as Hwf.
  pose proof (Inv0_grid_ok g HI) as Hgo.
  destruct Hs as [g i t b Hen Ht Hc Hf].
  apply idx_Some_inv in Ht as [Hi Ht]. apply Inv0_intro; try apply Hwf.
  - rewrite grid_flag_set. apply (grid_ok_alter _ _ _ _ _ t); try done.
    simpl. congruence.
  - rewrite grid_flag_set.
    change (flags (flag_set b i g)) with (u16 (flags g + (if b then 1 else -1))).
    pose proof (countb_alter flagged (set_flagged b) _ _ _ Ht) as Hcount.
    cbn [flagged set_flagged] in Hcount. rewrite (inv_flags _ HI).
    pose proof (countb_le flagged (grid g)) as Hle.
    assert (Z.of_nat (length (grid g)) <= 62500) as Hlen.
    { destruct (wf_grid _ Hwf) as [E | E]; [rewrite E; simpl; lia |].
      rewrite E. pose proof (wf_width _ Hwf). pose proof (wf_height _ Hwf). nia. }
    rewrite Hf in Hcount. destruct b; cbn [negb] in Hcount; rewrite u16_small; lia.
  - change (won (flag_set b i g)) with (won g). by rewrite (not_won g HI Hen).
  - rewrite grid_flag_set. intros t' Hin Hc' Hv'.
    apply elem_of_alter in Hin as [Hin | (t0 & Ht0 & ->)].
    + exfalso. by apply (inv_boom _ HI t' Hin Hc' Hv').
    + assert (t0 = t) as -> by congruence. simpl in Hc'. congruence.
  - intros He. by destruct He.
Qed.

Lemma moves_Inv0 g g' : moves g g' -> Inv0 g -> Inv0 g'.
Proof.
  induction 1 as [| g1 g2 g3 [Hs | Hs] _ IH]; [done | |]; intros HI; apply IH.
  - by eapply game_rstep_Inv0.
  - by eapply fstep_Inv0.
Qed.

(** The game with the grid [addMinesToGrid] has laid. *)
Lemma laid_Inv0 g ix iy ts :
  Inv0 g -> grid g = [] ->
  laid (boardWidth g) (boardHeight g) (totalMines g) ix iy ts ->
  Inv0 (set_grid ts g).
Proof.
  intros HI Hg Hl. pose proof (inv_wf _ HI) as Hwf. apply Inv0_intro; try apply Hwf.
  - cbn [grid set_grid boardWidth boardHeight totalMines]. destruct Hl. split; try done.
    + by right.
    + eapply Forall_impl; [exact laid_fresh0 |]. intros t [Hf _] _. done.
  - cbn [grid set_grid flags]. rewrite (inv_flags _ HI), Hg. simpl. f_equal.
    pose proof (laid_fresh _ _ _ _ _ _ Hl) as Hf. clear -Hf.
    induction Hf as [| t ts' [Hfl _] _ IH]; simpl; [done |]. by rewrite Hfl.
  - apply HI.
  - cbn [grid set_grid]. intros t Ht Hc.
    pose proof (laid_fresh _ _ _ _ _ _ Hl) as Hf.
    rewrite Forall_forall in Hf. destruct (Hf t Ht). congruence.
  - cbn [grid set_grid]. intros He Hw. exfalso.
    destruct (inv_lost _ HI He Hw) as (t & Ht & _). rewrite Hg in Ht.
    by apply elem_of_nil in Ht.
Qed.

Lemma moves_ext_dims g g' :
  moves g g' ->
  boardWidth g' = boardWidth g /\ boardHeight g' = boardHeight g
  /\ totalMines g' = totalMines g /\ length (grid g') = length (grid g).
Proof.
  induction 1 as [| g1 g2 g3 [Hs | Hs] _ IH]; [done | |].
  - pose proof (game_rstep_ext _ _ Hs) as He. destruct IH as (-> & -> & -> & ->).
    repeat split; try apply He. symmetry. apply (Forall2_length _ _ _ (ext_grid _ _ He)).
  - destruct Hs as [g i t b _ _ _ _]. destruct IH as (-> & -> & -> & ->).
    repeat split. rewrite grid_flag_set. apply length_alter.
Qed.

Lemma moves_full g g' : moves g g' -> full g -> full g'.
Proof.
  intros Hm Hf. destruct (moves_ext_dims _ _ Hm) as (Hw & Hh & _ & Hl).
  unfold full in *. by rewrite Hw, Hh, Hl.
Qed.

(** ** The part of a call after the grid is there *)

Definition rest (now : Z) (n : nat) (x y : Z) (flag : bool) (g1 : Game) (rs : list Z)
    : res world (option string) :=
  if negb (IsZero (endTime g1)) then Ret (Some "Game is not active") (World g1 rs)
  else act (ClickTile n now) now x y flag (World g1 rs).

(** A flag move on a tile. *)
Lemma game_act_flag click g1 rs now x y t :
  WF g1 -> 0 <= x < boardWidth g1 -> 0 <= y < boardHeight g1 ->
  tile_at g1 x y = Some t ->
  act click now x y true (World g1 rs)
  = Ret None (World (winCheck now
                       (if clicked t then g1
                        else flag_set (negb (flagged t)) (index (boardWidth g1) x y) g1)) rs).
Proof.
  intros Hwf Hx Hy Ht. pose proof (wf_width _ Hwf). pose proof (wf_height _ Hwf).
  unfold act. cbn [game rand]. rewrite (index16_small _ (boardHeight g1)) by lia.
  fold (tile_at g1 x y). rewrite Ht. cbn [negb].
  destruct (clicked t); [done |].
  destruct (flagged t); cbn [negb andb]; done.
Qed.

Lemma game_rest_ok now n g1 rs x y flag :
  Inv0 g1 -> full g1 -> 0 <= x < boardWidth g1 -> 0 <= y < boardHeight g1 ->
  (unclicked (grid g1) <= n)%nat ->
  exists e g', rest now n x y flag g1 rs = Ret e (World g' rs)
    /\ moves g1 g' /\ settled g'
    /\ (endTime g1 = None -> e = None)
    /\ (endTime g1 <> None -> e = Some "Game is not active" /\ g' = g1).
Proof.
  intros HI Hfull Hx Hy Hn. pose proof (inv_wf _ HI) as Hwf. unfold rest.
  destruct (endTime g1) as [tm |] eqn:Hen; cbn [IsZero negb].
  { exists (Some "Game is not active"), g1. split; [done |]. split; [apply rtc_refl |].
    split; [left; unfold ended; congruence |]. split; [congruence | done]. }
  destruct (game_tile_at_is_Some g1 x y) as [t Ht]; try done.
  destruct flag.
  - rewrite (game_act_flag _ g1 rs now x y t) by done.
    eexists None, _. split; [done |]. split; [| split; [apply game_winCheck_settled |]].
    + destruct (clicked t) eqn:Hc; [apply game_rsteps_moves, game_winCheck_steps |].
      eapply rtc_l; [| apply game_rsteps_moves, game_winCheck_steps].
      right. apply (fs_flag g1 _ t); try done. by destruct (flagged t).
    + split; [done |]. intros Hne. by destruct Hne.
  - destruct (game_act_reveal_ok n (ClickTile n now) (game_ClickTile_ok now n) g1 rs now x y t)
      as (g' & Hrun & Hst & Hset & _); try done; [by left |].
    exists None, g'. split; [done |]. split; [by apply game_rsteps_moves |].
    split; [done |]. split; [done |]. intros Hne. by destruct Hne.
Qed.

(** ** A call *)

Lemma game_ClickTile_outside fuel now x y flag s :
  boardWidth (game s) <= x \/ boardHeight (game s) <= y ->
  exists msg, ClickTile (S fuel) now x y flag s = Ret (Some msg) s.
Proof.
  intros Hout. rewrite game_ClickTile_unfold. unfold ClickTile_body.
  destruct (Z.leb_spec (boardWidth (game s)) x); [eauto |].
  destruct (Z.leb_spec (boardHeight (game s)) y); [eauto | lia].
Qed.

(** A call in bounds on a game with the grid filled: it returns. *)
Theorem game_ClickTile_placed fuel now x y flag g rs :
  Inv g -> full g -> 0 <= x < boardWidth g -> 0 <= y < boardHeight g ->
  (unclicked (grid g) < fuel)%nat ->
  exists e g',
    ClickTile fuel now x y flag (World g rs) = Ret e (World g' rs)
    /\ Inv g' /\ moves g g'
    /\ (endTime g = None -> e = None)
    /\ (endTime g <> None -> e = Some "Game is not active" /\ g' = g).
Proof.
  intros [HI _] Hfull Hx Hy Hfuel. pose proof (inv_wf _ HI) as Hwf.
  destruct fuel as [| n]; [lia |].
  rewrite game_ClickTile_unfold, ClickTile_body_full by done.
  destruct (game_rest_ok now n g rs x y flag) as (e & g' & Hrun & Hmv & Hset & He1 & He2);
    try done; [lia |].
  unfold rest in Hrun. exists e, g'. split; [exact Hrun |].
  split; [| done]. split; [by eapply moves_Inv0 | by right].
Qed.

(** The first call in bounds: it returns unless the supply of random
    draws runs out, on a grid that was laid around [(x, y)]. *)
Theorem game_ClickTile_first fuel now x y flag g rs :
  Inv g -> grid g = [] -> 0 <= x < boardWidth g -> 0 <= y < boardHeight g ->
  boardWidth g * boardHeight g < Z.of_nat fuel ->
  match ClickTile fuel now x y flag (World g rs) with
  | Ret e s' =>
      exists ts,
        laid (boardWidth g) (boardHeight g) (totalMines g) x y ts
        /\ moves (set_grid ts g) (game s') /\ Inv (game s')
        /\ (endTime g = None -> e = None)
        /\ (endTime g <> None ->
            e = Some "Game is not active" /\ game s' = set_grid ts g)
  | Starved => True
  | Panic | Exhausted => False
  end.
Proof.
  intros [HI _] Hg Hx Hy Hfuel. pose proof (inv_wf _ HI) as Hwf.
  pose proof (wf_width _ Hwf) as Hw. pose proof (wf_height _ Hwf) as Hh.
  destruct fuel as [| n]; [nia |]. rewrite game_ClickTile_unfold.
  unfold ClickTile_body. cbn [game rand].
  destruct (Z.leb_spec (boardWidth g) x); [lia |].
  destruct (Z.leb_spec (boardHeight g) y); [lia |].
  rewrite Hg. destruct (Z.eqb_spec 0 (Z.of_nat (length (@nil tile)))) as [_ | Hne]; [| done].
  pose proof (addMinesToGrid_post x y g rs Hwf Hx Hy) as Hadd.
  destruct (addMinesToGrid x y (World g rs)) as [u [g1 rs1] | | |]; [| done | done | done].
  cbn [game] in *. destruct Hadd as [Hg1 Hlaid].
  set (ts := grid g1) in *.
  pose proof (laid_Inv0 g x y ts HI Hg Hlaid) as HI1. rewrite <- Hg1 in HI1.
  assert (full g1) as Hfull1.
  { unfold full. rewrite Hg1. cbn [grid set_grid boardWidth boardHeight]. apply Hlaid. }
  assert (boardWidth g1 = boardWidth g /\ boardHeight g1 = boardHeight g
          /\ endTime g1 = endTime g) as (Ew & Eh & Een) by (by rewrite Hg1).
  destruct (game_rest_ok now n g1 rs1 x y flag) as (e & g' & Hrun & Hmv & Hset & He1 & He2);
    try done; try lia.
  { pose proof (MinesTop.unclicked_le_length (grid g1)). unfold full in Hfull1. nia. }
  unfold rest in Hrun. rewrite Hrun. cbn [game].
  exists ts. split; [done |]. rewrite <- Hg1. split; [done |].
  split; [split; [by eapply moves_Inv0 | by right] |].
  rewrite <- Een. done.
Qed.

(** Every call that returns, with whatever budget. *)
Theorem game_ClickTile_cases fuel now x y flag g rs e s' :
  Inv g -> 0 <= x -> 0 <= y ->
  ClickTile fuel now x y flag (World g rs) = Ret e s' ->
  (e <> None /\ s' = World g rs /\ (boardWidth g <= x \/ boardHeight g <= y))
  \/ (x < boardWidth g /\ y < boardHeight g /\ Inv (game s') /\ full (game s')
      /\ (endTime g = None -> e = None)
      /\ ((full g /\ rand s' = rs /\ moves g (game s')
           /\ (endTime g <> None -> e = Some "Game is not active" /\ game s' = g))
          \/ (grid g = [] /\ exists ts,
                laid (boardWidth g) (boardHeight g) (totalMines g) x y ts
                /\ moves (set_grid ts g) (game s')
                /\ (endTime g <> None ->
                    e = Some "Game is not active" /\ game s' = set_grid ts g)))).
Proof.
  intros HI Hx0 Hy0 Hrun. pose proof (inv_wf _ (proj1 HI)) as Hwf.
  pose proof (wf_width _ Hwf) as Hw. pose proof (wf_height _ Hwf) as Hh.
  set (big := (fuel + S (Z.to_nat (boardWidth g * boardHeight g)))%nat).
  pose proof (game_ClickTile_mono now fuel big ltac:(lia) _ _ _ _ _ _ Hrun) as Hbig.
  destruct (Z.le_gt_cases (boardWidth g) x) as [Hx | Hx].
  { left. destruct (game_ClickTile_outside (big - 1) now x y flag (World g rs)) as [msg Hm];
      [by left |].
    replace (S (big - 1)) with big in Hm by lia. rewrite Hbig in Hm.
    injection Hm as -> ->. split; [done |]. split; [done | by left]. }
  destruct (Z.le_gt_cases (boardHeight g) y) as [Hy | Hy].
  { left. destruct (game_ClickTile_outside (big - 1) now x y flag (World g rs)) as [msg Hm];
      [by right |].
    replace (S (big - 1)) with big in Hm by lia. rewrite Hbig in Hm.
    injection Hm as -> ->. split; [done |]. split; [done | by right]. }
  right. split; [done |]. split; [done |].
  destruct (wf_grid _ Hwf) as [Hg | Hfull].
  - pose proof (game_ClickTile_first big now x y flag g rs HI Hg ltac:(lia) ltac:(lia) ltac:(lia))
      as H1.
    rewrite Hbig in H1. destruct H1 as (ts & Hlaid & Hmv & HI' & He & Hen).
    split; [done |]. split.
    { apply (moves_full _ _ Hmv). unfold full. cbn [grid set_grid boardWidth boardHeight].
      apply Hlaid. }
    split; [done |]. right. split; [done |]. by exists ts.
  - destruct (game_ClickTile_placed big now x y flag g rs)
      as (e' & g' & Hrun' & HI' & Hmv & He & Hen); try done; try lia.
    { pose proof (MinesTop.unclicked_le_length (grid g)). unfold full in Hfull. lia. }
    rewrite Hbig in Hrun'. injection Hrun' as -> ->. cbn [game rand].
    split; [done |]. split; [by apply (moves_full g) |].
    split; [done |]. left. done.
Qed.

Theorem game_ClickTile_Inv fuel now x y flag s e s' :
  Inv (game s) -> 0 <= x -> 0 <= y ->
  ClickTile fuel now x y flag s = Ret e s' -> Inv (game s').
Proof.
  intros HI Hx Hy Hrun. destruct s as [g rs]. cbn [game] in *.
  destruct (game_ClickTile_cases fuel now x y flag g rs e s' HI Hx Hy Hrun)
    as [(_ & -> & _) | (_ & _ & HI' & _)]; done.
Qed.

Theorem game_reachable_Inv s : reachable s -> Inv (game s).
Proof.
  induction 1 as [uid now w h m g rs Hw Hh Hm Hnew | s fuel now x y flag e s' _ IH Hx Hy Hrun
                 | s b now _ IH].
  - eapply game_NewGame_Inv; [| | | exact Hnew]; lia.
  - eapply game_ClickTile_Inv; [exact IH | | | exact Hrun]; lia.
  - by apply game_End_Inv.
Qed.

End GameTop.

(** * Package game: the rules of the game *)

Module GameRules.
Import Game GameSpec GameGenerate GameRun GameMono GameTop.

(** ** Worlds to try the rules on

    The board of [MinesRules.row0] in package game: three tiles in a row
    with one mine, which the draws put on the right tile. The middle tile
    is clicked first, then the left tile is flagged, then the middle tile
    is clicked again and the mine is opened. *)

Definition grow0 : world :=
  World (mkGame 7 1 3 1 0 [] (Some 100) None false) [2; 0].

Definition gnext (now : Z) (x y : Z) (flag : bool) (s : world) : world :=
  match ClickTile 4 now x y flag s with
  | Ret _ s' => s'
  | _ => s
  end.

Definition grow1 : world := gnext 101 1 0 false grow0.
Definition grow2 : world := gnext 102 0 0 true grow1.
Definition grow3 : world := gnext 103 1 0 false grow2.


Lemma grow0_reachable : reachable grow0.
Proof. unfold grow0. by apply (reach_new 7 100 3 1 1); [lia | lia | lia |]. Qed.

Lemma gnext_reachable now x y flag s :
  reachable s -> 0 <= x < 65536 -> 0 <= y < 65536 -> reachable (gnext now x y flag s).
Proof.
  intros Hs Hx Hy. unfold gnext.
  destruct (ClickTile 4 now x y flag s) as [e s' | | |] eqn:E; try done.
  exact (reach_click s 4 now x y flag e s' Hs Hx Hy E).
Qed.

Lemma grow1_reachable : reachable grow1.
Proof. apply gnext_reachable; [apply grow0_reachable | lia | lia]. Qed.

Lemma grow2_reachable : reachable grow2.
Proof. apply gnext_reachable; [apply grow1_reachable | lia | lia]. Qed.

Lemma grow3_reachable : reachable grow3.
Proof. apply gnext_reachable; [apply grow2_reachable | lia | lia]. Qed.


Lemma grow0_shape :
  boardWidth (game grow0) = 3 /\ boardHeight (game grow0) = 1 /\ grid (game grow0) = [].
Proof. repeat split. Qed.

Lemma grow1_run : ClickTile 1 101 1 0 false grow0 = Ret None grow1.
Proof. vm_compute. reflexivity. Qed.

Lemma grow2_shape :
  boardWidth (game grow2) = 3 /\ boardHeight (game grow2) = 1
  /\ endTime (game grow2) = None
  /\ grid (game grow2) = [Tile 0 true false; Tile 1 false true; Tile 9 false false].
Proof. vm_compute. repeat split. Qed.

Lemma grow3_run : ClickTile 2 103 1 0 false grow2 = Ret None grow3.
Proof. vm_compute. reflexivity. Qed.

Lemma grow3_shape :
  boardWidth (game grow3) = 3 /\ boardHeight (game grow3) = 1
  /\ endTime (game grow3) = Some 103
  /\ grid (game grow3) = [Tile 0 true false; Tile 1 false true; Tile 9 false true].
Proof. vm_compute. repeat split. Qed.



(** ** What a run of steps keeps *)

Lemma moves_grid g g' :
  moves g g' ->
  value <$> grid g' = value <$> grid g
  /\ Forall2 (fun t t' => clicked t = true -> clicked t' = true) (grid g) (grid g').
Proof.
  induction 1 as [g | g1 g2 g3 Hs _ [IHv IHc]].
  { split; [done | apply MinesTop.stays_clicked_refl]. }
  assert (value <$> grid g2 = value <$> grid g1
          /\ Forall2 (fun t t' => clicked t = true -> clicked t' = true) (grid g1) (grid g2))
    as [Hv Hc].
  { destruct Hs as [Hs | Hs].
    - pose proof (ext_grid _ _ (game_rstep_ext _ _ Hs)) as Hle. split.
      + by apply MinesTop.tiles_le_fmap_value.
      + eapply Forall2_impl; [exact Hle |]. by intros t t' (_ & _ & H).
    - destruct Hs as [g i t b _ _ _ _]. rewrite grid_flag_set. split.
      + by apply MinesTop.fmap_value_alter.
      + by apply MinesTop.stays_clicked_alter. }
  split; [congruence |].
  eapply Forall2_trans; [| exact Hc | exact IHc]. intros t1 t2 t3 H1 H2 H. auto.
Qed.

(** ** Rejected moves *)

(** A move outside the board changes nothing; nor does a move on a game
    that has ended, once the grid is laid. *)
Theorem game_rejected_move s fuel now x y flag :
  reachable s ->
  (boardWidth (game s) <= x \/ boardHeight (game s) <= y ->
   exists msg, ClickTile (S fuel) now x y flag s = Ret (Some msg) s)
  /\ (0 <= x < boardWidth (game s) -> 0 <= y < boardHeight (game s) ->
      grid (game s) <> [] -> endTime (game s) <> None ->
      ClickTile (S fuel) now x y flag s = Ret (Some "Game is not active") s).
Proof.
  intros Hr. destruct (game_reachable_Inv s Hr) as [HI _]. split.
  - apply game_ClickTile_outside.
  - intros Hx Hy Hg Hen. destruct s as [g rs]. cbn [game rand] in *.
    rewrite game_ClickTile_unfold, ClickTile_body_full
      by (done || apply HI || apply WF_full; done || apply HI).
    by destruct (endTime g).
Qed.

Lemma game_rejected_move_witness :
  ClickTile 1 104 0 0 false grow3 = Ret (Some "Game is not active") grow3.
Proof.
  destruct grow3_shape as (Hw & Hh & Hen & Hg).
  apply (game_rejected_move grow3 0 104 0 0 false grow3_reachable).
  - lia.
  - lia.
  - by rewrite Hg.
  - by rewrite Hen.
Defined.



(** ** The first click *)

(** The first call in bounds, whether it flags or clicks, leaves a full
    grid with exactly [totalMines] mines, none of them at the cell of
    the call. *)
Theorem game_safe_first_click s fuel now x y flag e s' :
  reachable s -> grid (game s) = [] ->
  0 <= x < boardWidth (game s) -> 0 <= y < boardHeight (game s) ->
  ClickTile fuel now x y flag s = Ret e s' ->
  Z.of_nat (length (grid (game s'))) = boardWidth (game s) * boardHeight (game s)
  /\ Z.of_nat (countb isMine (grid (game s'))) = totalMines (game s)
  /\ exists t, tile_at (game s') x y = Some t /\ isMine t = false.
Proof.
  intros Hr Hg Hx Hy Hrun. pose proof (game_reachable_Inv s Hr) as HI.
  destruct s as [g rs]. cbn [game rand] in *.
  destruct (game_ClickTile_cases fuel now x y flag g rs e s' HI ltac:(lia) ltac:(lia) Hrun)
    as [(_ & _ & Hout) | (_ & _ & _ & _ & _ & [(Hfull & _) | (_ & ts & Hl & Hmv & _)])].
  - lia.
  - exfalso. by apply (full_not_empty g (inv_wf _ (proj1 HI))).
  - destruct (moves_grid _ _ Hmv) as [Hv _]. cbn [grid set_grid] in Hv.
    destruct (moves_ext_dims _ _ Hmv) as (Hw' & _ & _ & Hlen').
    cbn [grid set_grid boardWidth] in Hw', Hlen'.
    split; [rewrite Hlen'; apply Hl |].
    split; [rewrite (countb_fmap_value _ _ Hv); apply Hl |].
    destruct (laid_ignore _ _ _ _ _ _ Hl) as (t0 & Ht0 & Hm0).
    apply idx_Some_inv in Ht0 as [Hi Ht0].
    assert ((value <$> grid (game s')) !! Z.to_nat (index (boardWidth g) x y)
            = Some (value t0)) as E by (by rewrite Hv, list_lookup_fmap, Ht0).
    rewrite list_lookup_fmap in E.
    destruct (grid (game s') !! Z.to_nat (index (boardWidth g) x y)) as [t |] eqn:Et; [| done].
    injection E as E. exists t. split.
    + unfold tile_at. rewrite Hw'. by rewrite idx_lookup by lia.
    + unfold isMine in *. by rewrite E.
Qed.

Lemma game_safe_first_click_witness :
  Z.of_nat (length (grid (game grow1))) = boardWidth (game grow0) * boardHeight (game grow0)
  /\ Z.of_nat (countb isMine (grid (game grow1))) = totalMines (game grow0)
  /\ exists t, tile_at (game grow1) 1 0 = Some t /\ isMine t = false.
Proof.
  destruct grow0_shape as (Hw & Hh & Hg).
  apply (game_safe_first_click grow0 1 101 1 0 false None grow1 grow0_reachable Hg).
  - lia.
  - lia.
  - exact grow1_run.
Defined.

(** ** Termination *)

(** On a game with the grid laid, a call in bounds returns as soon as
    its budget for nested calls exceeds the number of tiles that are not
    clicked; it draws nothing from the random source, and no tile loses
    its click. *)
Theorem game_click_terminates s fuel now x y flag :
  reachable s -> grid (game s) <> [] ->
  0 <= x < boardWidth (game s) -> 0 <= y < boardHeight (game s) ->
  (unclicked (grid (game s)) < fuel)%nat ->
  exists e s', ClickTile fuel now x y flag s = Ret e s'
    /\ rand s' = rand s
    /\ (unclicked (grid (game s')) <= unclicked (grid (game s)))%nat.
Proof.
  intros Hr Hg Hx Hy Hfuel. pose proof (game_reachable_Inv s Hr) as HI.
  destruct s as [g rs]. cbn [game rand] in *.
  destruct (game_ClickTile_placed fuel now x y flag g rs HI) as (e & g' & Hrun & _ & Hmv & _);
    try done.
  { apply WF_full; [apply HI | done]. }
  exists e, (World g' rs). split; [done |]. split; [done |].
  apply MinesTop.stays_clicked_unclicked. by apply moves_grid.
Qed.

Lemma game_click_terminates_witness :
  exists e s', ClickTile 3 103 1 0 false grow2 = Ret e s'
    /\ rand s' = rand grow2
    /\ (unclicked (grid (game s')) <= unclicked (grid (game grow2)))%nat.
Proof.
  destruct grow2_shape as (Hw & Hh & Hen & Hg).
  apply (game_click_terminates grow2 3 103 1 0 false grow2_reachable).
  - by rewrite Hg.
  - lia.
  - lia.
  - rewrite Hg. cbn. lia.
Defined.

(** ** What holds in every reachable game *)

(** The field [flags] is the number of flagged tiles. *)
Theorem game_flag_count s :
  reachable s -> flags (game s) = Z.of_nat (countb flagged (grid (game s))).
Proof. intros Hr. destruct (game_reachable_Inv s Hr) as [HI _]. apply HI. Qed.

Lemma game_flag_count_witness :
  flags (game grow2) = Z.of_nat (countb flagged (grid (game grow2))).
Proof. apply (game_flag_count grow2), grow2_reachable. Defined.

(** Once the grid is laid it is full, it holds exactly [totalMines]
    mines, and every tile that is no mine carries the number of mines on
    the cells around it. *)
Theorem game_numbers s :
  reachable s -> grid (game s) <> [] ->
  Z.of_nat (length (grid (game s))) = boardWidth (game s) * boardHeight (game s)
  /\ Z.of_nat (countb isMine (grid (game s))) = totalMines (game s)
  /\ numbered (boardWidth (game s)) (boardHeight (game s)) (grid (game s)).
Proof.
  intros Hr Hg. destruct (game_reachable_Inv s Hr) as [HI _].
  split; [by apply WF_full; [apply HI |] |].
  split; [by apply (inv_count _ HI) | by apply (inv_numbered _ HI)].
Qed.

Lemma game_numbers_witness :
  Z.of_nat (length (grid (game grow2))) = boardWidth (game grow2) * boardHeight (game grow2)
  /\ Z.of_nat (countb isMine (grid (game grow2))) = totalMines (game grow2)
  /\ numbered (boardWidth (game grow2)) (boardHeight (game grow2)) (grid (game grow2)).
Proof.
  apply (game_numbers grow2 grow2_reachable).
  destruct grow2_shape as (_ & _ & _ & ->). discriminate.
Defined.

(** No tile is both clicked and flagged. *)
Theorem game_clicked_not_flagged s t :
  reachable s -> t ∈ grid (game s) -> clicked t = true -> flagged t = false.
Proof.
  intros Hr Hin. destruct (game_reachable_Inv s Hr) as [HI _].
  pose proof (inv_tidy _ HI) as Ht. rewrite Forall_forall in Ht. by apply Ht.
Qed.

Lemma game_clicked_not_flagged_witness :
  Tile 1 false true ∈ grid (game grow2) /\ flagged (Tile 1 false true) = false.
Proof.
  assert (Tile 1 false true ∈ grid (game grow2)) as Hin.
  { destruct grow2_shape as (_ & _ & _ & ->).
    apply elem_of_cons. right. apply elem_of_cons. by left. }
  split; [exact Hin |].
  apply (game_clicked_not_flagged grow2 (Tile 1 false true) grow2_reachable Hin).
  reflexivity.
Defined.

(** ** Winning and losing *)

(** After a move that was accepted: if every tile is clicked or a mine,
    the game has ended, and it has ended as won unless a mine was
    clicked; and a game that has ended and is not won has a clicked
    mine. *)
Theorem game_win_detection s fuel now x y flag s' :
  reachable s -> 0 <= x < 65536 -> 0 <= y < 65536 ->
  ClickTile fuel now x y flag s = Ret None s' ->
  (Forall (fun t => done_tile t = true) (grid (game s')) ->
   endTime (game s) = None /\ endTime (game s') <> None
   /\ ((forall t, t ∈ grid (game s') -> clicked t = true -> value t <> 9) ->
       won (game s') = true))
  /\ (endTime (game s') <> None -> won (game s') = false ->
      exists t, t ∈ grid (game s') /\ clicked t = true /\ value t = 9).
Proof.
  intros Hr Hx Hy Hrun. pose proof (game_reachable_Inv s Hr) as HI. destruct s as [g rs].
  cbn [game rand] in *.
  destruct (game_ClickTile_cases fuel now x y flag g rs None s' HI (proj1 Hx) (proj1 Hy) Hrun)
    as [(He & _) | (_ & _ & [HI' Hch] & Hfull' & _ & Hcase)]; [done |].
  pose proof (full_not_empty _ (inv_wf _ HI') Hfull') as Hne.
  split; [| apply (inv_lost _ HI')].
  intros Hdone.
  assert (endTime g = None) as Hen0.
  { destruct (endTime g) eqn:E; [| done]. exfalso.
    destruct Hcase as [(_ & _ & _ & Hen) | (_ & ts & _ & _ & Hen)];
      by destruct Hen as [Hen _]. }
  split; [done |].
  assert (endTime (game s') <> None) as Hen'.
  { destruct Hch as [Hch | [Hch | Hch]]; [done | done |]. exfalso. apply Hch.
    by apply scan_all. }
  split; [done |]. intros Hsafe.
  destruct (won (game s')) eqn:Hw; [done |]. exfalso.
  destruct (inv_lost _ HI' Hen' Hw) as (t & Ht & Hc & Hv). by apply (Hsafe t).
Qed.

Lemma grow3_lost : endTime (game grow3) <> None /\ won (game grow3) = false.
Proof. vm_compute. split; [discriminate | reflexivity]. Qed.

Lemma game_win_detection_witness :
  exists t, t ∈ grid (game grow3) /\ clicked t = true /\ value t = 9.
Proof.
  destruct grow3_lost as [Hen Hwon].
  destruct (game_win_detection grow2 2 103 1 0 false grow3 grow2_reachable) as [_ Hlost].
  - lia.
  - lia.
  - exact grow3_run.
  - exact (Hlost Hen Hwon).
Defined.

End GameRules.

(** * Package game: opening a safe tile never loses the game *)

Lemma countb_none {A} (p : A -> bool) (l : list A) a :
  countb p l = 0%nat -> a ∈ l -> p a = false.
Proof.
  induction l as [| b l IH]; intros Hc Hin; [by apply elem_of_nil in Hin |].
  simpl in Hc. destruct (p b) eqn:E; [done |].
  apply elem_of_cons in Hin as [-> | Hin]; [done | by apply IH].
Qed.

Module GameSafe.
Import Game GameSpec GameGenerate GameRun GameMono GameTop GameRules.

(** No mine is clicked. *)
Definition clean (g : Game) : Prop :=
  Forall (fun t => clicked t = true -> value t <> 9) (grid g).

(** The state the calls of a cascade work on. *)
Record sound (g : Game) : Prop := {
  sound_wf : WF g;
  sound_full : full g;
  sound_numbered : numbered (boardWidth g) (boardHeight g) (grid g);
  sound_clean : clean g
}.

(** A call for a click that returns has moved the game by steps that
    open tiles. *)
Lemma run_steps fuel now x y g rs e s' :
  WF g -> full g -> 0 <= x < boardWidth g -> 0 <= y < boardHeight g ->
  ClickTile fuel now x y false (World g rs) = Ret e s' ->
  rand s' = rs /\ rsteps g (game s').
Proof.
  intros Hwf Hfull Hx Hy Hrun.
  set (big := (fuel + S (length (grid g)))%nat).
  pose proof (game_ClickTile_mono now fuel big ltac:(lia) _ _ _ _ _ _ Hrun) as Hbig.
  destruct (game_ClickTile_ok now big g rs x y Hwf Hfull Hx Hy) as (e' & g' & Hrun' & Hpost).
  { left. pose proof (MinesTop.unclicked_le_length (grid g)). lia. }
  rewrite Hbig in Hrun'. injection Hrun' as -> ->. split; [done | apply Hpost].
Qed.

Lemma ext_sound g g' : ext g g' -> sound g -> clean g' -> sound g'.
Proof.
  intros He [Hwf Hfull Hnum _] Hcl. split; [by apply (ext_WF g) | by apply (ext_full g) | | done].
  rewrite (ext_width _ _ He), (ext_height _ _ He).
  eapply numbered_values; [| exact Hnum].
  by apply MinesTop.tiles_le_fmap_value, He.
Qed.

Lemma clean_opened i g t :
  clean g -> grid g !! Z.to_nat i = Some t -> value t <> 9 -> clean (opened i g).
Proof.
  intros Hcl Ht Hv. unfold clean. rewrite grid_opened.
  apply Forall_alter; [done |]. intros t0 Ht0 _. assert (t0 = t) as -> by congruence. done.
Qed.

Lemma clean_winCheck now g : clean g -> clean (winCheck now g).
Proof.
  unfold clean, winCheck. destruct (IsZero (endTime g)); [| done].
  by destruct (scan (grid g) =? Z.of_nat (length (grid g))).
Qed.

(** Around a tile with the number 0 there is no mine. *)
Lemma zero_neighbors g x y t i j t2 :
  sound g -> 0 <= x < boardWidth g -> 0 <= y < boardHeight g ->
  tile_at g x y = Some t -> value t = 0 ->
  (i, j) ∈ offsets ->
  0 <= x + i < boardWidth g -> 0 <= y + j < boardHeight g ->
  tile_at g (x + i) (y + j) = Some t2 -> value t2 <> 9.
Proof.
  intros Hs Hx Hy Ht Hv Hin Hxi Hyj Ht2 H9.
  destruct (sound_numbered _ Hs x y Hx Hy) as (t0 & Ht0 & Hnum).
  unfold tile_at in Ht. assert (t0 = t) as -> by congruence.
  assert (isMine t = false) as Hm by (unfold isMine; by rewrite Hv).
  specialize (Hnum Hm). rewrite Hv in Hnum. unfold mines_around in Hnum.
  assert (countb (fun '(i0, j0) => mine_at (boardWidth g) (boardHeight g) (grid g)
                                     (x + i0) (y + j0)) offsets = 0%nat) as Hc by lia.
  pose proof (countb_none _ _ (i, j) Hc Hin) as Hnone. cbn beta iota in Hnone.
  unfold mine_at in Hnone.
  assert (outside (boardWidth g) (boardHeight g) (x + i) (y + j) = false) as Eout
    by (by apply outside_false).
  rewrite Eout in Hnone. unfold tile_at in Ht2. rewrite Ht2 in Hnone. unfold isMine in Hnone.
  rewrite H9 in Hnone. done.
Qed.

Section Cascade.

Variable now : Z.
Variable n : nat.

(** What the induction gives for the nested calls. *)
Hypothesis IH : forall g rs x y t e s',
  sound g -> 0 <= x < boardWidth g -> 0 <= y < boardHeight g ->
  tile_at g x y = Some t -> clicked t = false -> value t <> 9 ->
  ClickTile n now x y false (World g rs) = Ret e s' ->
  clean (game s').

Lemma neighbors_safe g0 x y t0 :
  sound g0 -> 0 <= x < boardWidth g0 -> 0 <= y < boardHeight g0 ->
  tile_at g0 x y = Some t0 -> value t0 = 0 ->
  forall l, (forall a, a ∈ l -> a ∈ offsets) ->
  forall g rs s',
    ext g0 g -> clean g ->
    for_each_res l (clickNeighbor (ClickTile n now) (boardWidth g0) (boardHeight g0) x y)
                 (World g rs) = Ret tt s' ->
    clean (game s').
Proof.
  intros Hs0 Hx Hy Ht0 Hv0. induction l as [| [i j] l IHl]; intros Hsub g rs s' Hext Hcl Hrun.
  { cbn [for_each_res] in Hrun. by injection Hrun as <-. }
  pose proof (ext_sound _ _ Hext Hs0 Hcl) as Hs.
  pose proof (sound_wf _ Hs0) as Hwf0.
  pose proof (wf_width _ Hwf0) as Hw0. pose proof (wf_height _ Hwf0) as Hh0.
  assert (forall a, a ∈ l -> a ∈ offsets) as Hsub' by (intros a Ha; apply Hsub; by right).
  cbn [for_each_res] in Hrun. unfold clickNeighbor at 1 in Hrun.
  destruct (outside (boardWidth g0) (boardHeight g0) (x + i) (y + j)) eqn:Hout.
  { by apply (IHl Hsub' g rs s'). }
  apply outside_false in Hout as [Hxi Hyj]. cbn [game rand] in Hrun.
  rewrite (ext_width _ _ Hext) in Hrun. rewrite !u16_small in Hrun by lia.
  rewrite (index16_small _ (boardHeight g0)) in Hrun by lia.
  assert (tile_at g (x + i) (y + j) = idx (grid g) (index (boardWidth g0) (x + i) (y + j)))
    as Eta by (unfold tile_at; by rewrite (ext_width _ _ Hext)).
  rewrite <- Eta in Hrun.
  destruct (tile_at g (x + i) (y + j)) as [t |] eqn:Ht; [| done].
  destruct (negb (clicked t) && negb (flagged t)) eqn:Hcond.
  2: { by apply (IHl Hsub' g rs s'). }
  apply andb_true_iff in Hcond as [Hc _]. apply negb_true_iff in Hc.
  destruct (ClickTile n now (x + i) (y + j) false (World g rs)) as [e1 s1 | | |] eqn:Hcall;
    try done.
  assert (0 <= x + i < boardWidth g /\ 0 <= y + j < boardHeight g) as [Hxi' Hyj']
    by (by rewrite (ext_width _ _ Hext), (ext_height _ _ Hext)).
  assert (value t <> 9) as Hv.
  { destruct (game_ext_tile_at _ _ _ _ _ Hext Ht0) as (t0' & Ht0' & Hv0' & _).
    apply (zero_neighbors g x y t0' i j t); try done.
    - by rewrite (ext_width _ _ Hext).
    - by rewrite (ext_height _ _ Hext).
    - congruence.
    - apply Hsub. by left. }
  pose proof (IH g rs (x + i) (y + j) t e1 s1 Hs Hxi' Hyj' Ht Hc Hv Hcall) as Hcl1.
  destruct (run_steps n now (x + i) (y + j) g rs e1 s1 (sound_wf _ Hs) (sound_full _ Hs)
              Hxi' Hyj' Hcall) as [Hrs Hst].
  destruct s1 as [g1 rs1]. cbn [game rand] in *. subst rs1.
  apply (IHl Hsub' g1 rs s'); [| done | done].
  eapply game_ext_trans; [exact Hext | by apply game_rsteps_ext].
Qed.

End Cascade.

(** A call for a click on a tile that is neither clicked nor a mine
    leaves no mine clicked. *)
Lemma click_safe now n : forall g rs x y t e s',
  sound g -> 0 <= x < boardWidth g -> 0 <= y < boardHeight g ->
  tile_at g x y = Some t -> clicked t = false -> value t <> 9 ->
  ClickTile n now x y false (World g rs) = Ret e s' ->
  clean (game s').
Proof.
  induction n as [| n IH]; intros g rs x y t e s' Hs Hx Hy Ht Hc Hv Hrun; [done |].
  pose proof (sound_wf _ Hs) as Hwf. pose proof (sound_full _ Hs) as Hfull.
  pose proof (wf_width _ Hwf) as Hw. pose proof (wf_height _ Hwf) as Hh.
  rewrite game_ClickTile_unfold, ClickTile_body_full in Hrun by done.
  destruct (endTime g) as [tm |] eqn:Hen; cbn [IsZero negb] in Hrun.
  { injection Hrun as _ <-. apply Hs. }
  unfold act in Hrun. cbn [game rand] in Hrun.
  rewrite (index16_small _ (boardHeight g)) in Hrun by lia.
  fold (tile_at g x y) in Hrun. rewrite Ht, Hc in Hrun. cbn [negb andb] in Hrun.
  destruct (flagged t) eqn:Hf; cbn [negb andb] in Hrun.
  { injection Hrun as _ <-. cbn [on_game game]. apply clean_winCheck, Hs. }
  destruct (Z.eqb_spec 9 (value t)) as [E | _]; [congruence |].
  unfold on_game in Hrun. cbn [game rand] in Hrun.
  change (upd_tile (index (boardWidth g) x y) (set_clicked true) g)
    with (opened (index (boardWidth g) x y) g) in Hrun.
  assert (grid g !! Z.to_nat (index (boardWidth g) x y) = Some t) as Hlook.
  { unfold tile_at in Ht. by apply idx_Some_inv in Ht as [_ Ht]. }
  pose proof (clean_opened _ g t (sound_clean _ Hs) Hlook Hv) as Hcl2.
  destruct (Z.eqb_spec 0 (value t)) as [H0 | H0].
  - unfold clickNeighbors in Hrun. cbn [game rand] in Hrun.
    set (g2 := opened (index (boardWidth g) x y) g) in *.
    destruct (for_each_res offsets
                (clickNeighbor (ClickTile n now) (boardWidth g2) (boardHeight g2) x y)
                (World g2 rs)) as [u s3 | | |] eqn:Hloop; try done.
    injection Hrun as _ <-. cbn [game]. apply clean_winCheck.
    assert (rstep g g2) as Hstep by (eapply rs_click; try done).
    pose proof (game_rstep_ext _ _ Hstep) as Hext2.
    pose proof (ext_sound _ _ Hext2 Hs Hcl2) as Hs2.
    destruct u.
    apply (neighbors_safe now n IH g2 x y (set_clicked true t) Hs2 Hx Hy) with
      (l := offsets) (g := g2) (rs := rs); try done.
    + unfold tile_at, g2. rewrite grid_opened.
      change (boardWidth (opened _ g)) with (boardWidth g).
      rewrite idx_lookup by (pose proof (index_bound _ _ _ _ Hx Hy); lia).
      by rewrite list_lookup_alter_eq, Hlook.
    + apply game_ext_refl.
  - injection Hrun as _ <-. cbn [on_game game]. by apply clean_winCheck.
Qed.

End GameSafe.

(** * Package game: safe reveals, the view, and the two packages side by side *)

Module GameMore.
Import Game GameSpec GameGenerate GameRun GameMono GameTop GameRules GameSafe.

(** In package game a click on a tile that is neither clicked nor a mine,
    in a game that goes on, never loses the game: the call returns with
    no mine clicked, so if the game has ended it is won. *)
Theorem game_reveal_safe s fuel now x y t :
  reachable s -> endTime (game s) = None ->
  0 <= x < boardWidth (game s) -> 0 <= y < boardHeight (game s) ->
  tile_at (game s) x y = Some t -> clicked t = false -> value t <> 9 ->
  (unclicked (grid (game s)) < fuel)%nat ->
  exists s',
    ClickTile fuel now x y false s = Ret None s'
    /\ (forall tm, tm ∈ grid (game s') -> clicked tm = true -> value tm <> 9)
    /\ (endTime (game s') <> None -> won (game s') = true).
Proof.
  intros Hr Hen Hx Hy Ht Hc Hv Hfuel. pose proof (game_reachable_Inv s Hr) as HI.
  destruct s as [g rs]. cbn [game rand] in *. pose proof (inv_wf _ (proj1 HI)) as Hwf.
  assert (grid g <> []) as Hne.
  { intros E. unfold tile_at in Ht. rewrite E in Ht. unfold idx in Ht.
    destruct (index (boardWidth g) x y <? 0); [done |]. by rewrite lookup_nil in Ht. }
  pose proof (WF_full g Hwf Hne) as Hfull.
  destruct (game_ClickTile_placed fuel now x y false g rs HI Hfull Hx Hy Hfuel)
    as (e & g' & Hrun & HI' & _ & He & _).
  rewrite (He Hen) in Hrun. exists (World g' rs). split; [exact Hrun |].
  assert (sound g) as Hs.
  { split; [done | done | by apply (inv_numbered _ (proj1 HI)) |].
    apply Forall_forall. intros tm Hin Hcm H9.
    by apply (inv_boom _ (proj1 HI) tm Hin Hcm H9). }
  pose proof (click_safe now fuel g rs x y t None (World g' rs) Hs Hx Hy Ht Hc Hv Hrun) as Hcl.
  cbn [game] in *. unfold clean in Hcl. rewrite Forall_forall in Hcl.
  split; [exact Hcl |]. intros Hen'.
  destruct (won g') eqn:Hw; [done |]. exfalso.
  destruct (inv_lost _ (proj1 HI') Hen' Hw) as (tm & Hin & Hcm & H9). by apply (Hcl tm).
Qed.

(** The row of [grow0] with the middle tile flagged by the first move. *)
Definition gflag1 : world := gnext 101 1 0 true grow0.

Lemma gflag1_reachable : reachable gflag1.
Proof. apply gnext_reachable; [apply grow0_reachable | lia | lia]. Qed.

Lemma gflag1_shape :
  boardWidth (game gflag1) = 3 /\ boardHeight (game gflag1) = 1
  /\ endTime (game gflag1) = None
  /\ grid (game gflag1) = [Tile 0 false false; Tile 1 true false; Tile 9 false false].
Proof. vm_compute. repeat split. Qed.

Lemma game_reveal_safe_witness :
  exists s',
    ClickTile 4 102 0 0 false gflag1 = Ret None s'
    /\ (forall tm, tm ∈ grid (game s') -> clicked tm = true -> value tm <> 9)
    /\ (endTime (game s') <> None -> won (game s') = true).
Proof.
  destruct gflag1_shape as (Hw & Hh & Hen & Hg).
  apply (game_reveal_safe gflag1 4 102 0 0 (Tile 0 false false) gflag1_reachable Hen).
  - lia.
  - lia.
  - unfold tile_at. rewrite Hw, Hg. reflexivity.
  - reflexivity.
  - discriminate.
  - rewrite Hg. cbn. lia.
Defined.

(** ** The view *)

Lemma game_JSON_total g :
  WF g ->
  exists v, JSON g = Some v
    /\ Z.of_nat (length (v_grid v)) = boardWidth g * boardHeight g
    /\ forall i t, grid g !! i = Some t ->
         v_grid v !! i
         = Some (label (negb (won g) && negb (IsZero (endTime g))) (won g) t).
Proof.
  intros Hwf. pose proof (wf_width _ Hwf) as Hw. pose proof (wf_height _ Hwf) as Hh.
  assert (Z.of_nat (length (grid g)) <= boardWidth g * boardHeight g) as Hlen.
  { destruct (wf_grid _ Hwf) as [E | E]; [rewrite E; simpl; nia | lia]. }
  unfold JSON, labels. rewrite u16_small by nia. rewrite length_make.
  destruct (Z.leb_spec (Z.of_nat (length (grid g)))
              (Z.of_nat (Z.to_nat (boardHeight g * boardWidth g)))); [| lia].
  eexists. split; [done |]. cbn [v_grid]. split.
  - rewrite copy_length; rewrite length_make, ?length_fmap; lia.
  - intros i t Hi. apply copy_lookup.
    + rewrite length_make, length_fmap. lia.
    + by rewrite list_lookup_fmap, Hi.
Qed.

(** The outcome of a game of package game. *)
Definition outcome_of (g : Game) : outcome :=
  if IsZero (endTime g) then InProgress else if won g then Won else Lost.

(** [JSON] can be called on every reachable game; it does not fail, its
    grid has [boardWidth*boardHeight] entries, the entry of every tile of
    the grid is the symbol of the one row of the disclosure table that
    applies to the tile, and before the first turn, when the grid is not
    laid yet, every entry is the empty string. *)
Theorem game_view_table s :
  reachable s ->
  exists v, JSON (game s) = Some v
    /\ Z.of_nat (length (v_grid v)) = boardWidth (game s) * boardHeight (game s)
    /\ (forall i t, grid (game s) !! i = Some t ->
         exists sym, disclosure (outcome_of (game s)) t sym
                     /\ v_grid v !! i = Some (encode sym))
    /\ (grid (game s) = [] ->
        v_grid v = replicate (Z.to_nat (boardWidth (game s) * boardHeight (game s)))
                     (encode EmptyOpened)).
Proof.
  intros Hr. destruct (game_reachable_Inv s Hr) as [HI _]. pose proof (inv_wf _ HI) as Hwf.
  destruct (game_JSON_total (game s) Hwf) as (v & Hv & Hlen & Hgrid).
  exists v. split; [done |]. split; [done |]. split.
  - intros i t Hi.
    destruct (label_disclosure (outcome_of (game s))
                (negb (won (game s)) && negb (IsZero (endTime (game s)))) (won (game s)) t)
      as (sym & Hd & Hl).
    + unfold outcome_of.
      destruct (endTime (game s)) eqn:E, (won (game s)) eqn:E'; done.
    + unfold outcome_of. pose proof (inv_won _ HI) as Hw. unfold ended in Hw.
      destruct (endTime (game s)) eqn:E, (won (game s)) eqn:E'; try done.
      exfalso. by apply Hw.
    + pose proof (inv_values _ HI) as Hvals. by apply (Forall_lookup_1 _ _ _ _ Hvals Hi).
    + intros Hc H9. pose proof (inv_boom _ HI t (list_elem_of_lookup_2 _ _ _ Hi) Hc H9) as He.
      unfold outcome_of, ended in *.
      destruct (endTime (game s)); [by destruct (won (game s)) | done].
    + exists sym. split; [done |]. by rewrite (Hgrid i t Hi), Hl.
  - intros Hg. pose proof (wf_width _ Hwf) as Hw. pose proof (wf_height _ Hwf) as Hh.
    unfold JSON, labels in Hv. rewrite Hg in Hv.
    rewrite u16_small in Hv by nia. rewrite length_make in Hv.
    cbn [length fmap list_fmap] in Hv.
    destruct (Z.leb_spec (Z.of_nat 0)
                (Z.of_nat (Z.to_nat (boardHeight (game s) * boardWidth (game s))))); [| lia].
    injection Hv as <-. cbn [v_grid encode]. unfold copy, make.
    rewrite take_nil, drop_0, Z.mul_comm. done.
Qed.

Lemma game_view_table_witness :
  exists v, JSON (game grow3) = Some v
    /\ Z.of_nat (length (v_grid v)) = boardWidth (game grow3) * boardHeight (game grow3)
    /\ (forall i t, grid (game grow3) !! i = Some t ->
         exists sym, disclosure (outcome_of (game grow3)) t sym
                     /\ v_grid v !! i = Some (encode sym))
    /\ (grid (game grow3) = [] ->
        v_grid v = replicate (Z.to_nat (boardWidth (game grow3) * boardHeight (game grow3)))
                     (encode EmptyOpened)).
Proof. apply (game_view_table grow3), grow3_reachable. Defined.

(** [End] sets [won] whatever its argument is, in package game too: the
    view of a game ended with [End(false)] reports it as won, with the
    mine count as its flag count. *)
Theorem game_End_view b now g :
  endTime (End b now g) = Some now /\ won (End b now g) = true
  /\ forall v, JSON (End b now g) = Some v ->
       v_won v = Some true /\ v_flags v = totalMines g /\ v_ended_at v = Some now.
Proof.
  split; [done |]. split; [done |]. unfold JSON.
  cbn [End set_won set_endTime endTime won IsZero negb andb totalMines].
  intros v. destruct (labels _ _ _ _); [| done]. by intros [= <-].
Qed.

Lemma game_End_view_witness :
  exists v, JSON (End false 100 (game grow0)) = Some v
    /\ v_won v = Some true /\ v_flags v = 1 /\ v_ended_at v = Some 100.
Proof.
  destruct (game_End_view false 100 (game grow0)) as (_ & _ & H).
  assert (exists v, JSON (End false 100 (game grow0)) = Some v) as [v Hv]
    by (vm_compute; eexists; reflexivity).
  exists v. split; [exact Hv |]. apply (H v Hv).
Defined.

(** ** The two packages side by side *)

(** [NewGame] of package game and of package mines take the same
    decision on every input, with the same message when they refuse, and
    return games with the same fields when they accept. *)
Theorem NewGame_agree uid now w h m :
  match NewGame uid now w h m, Mines.NewGame uid now w h m with
  | inl msg, inl msg' => msg = msg'
  | inr g, inr g' => as_mines g = g'
  | _, _ => False
  end.
Proof.
  unfold NewGame, Mines.NewGame.
  destruct (250 <? w); [done |]. destruct (250 <? h); [done |].
  by destruct (w * h - 2 <? m).
Qed.

(** Two grids painted on the same tiles of the mines loop, both
    numbered, are the same grid. *)
Lemma numbered_unique w h ts1 ts ts' :
  1 <= w -> 1 <= h -> Z.of_nat (length ts1) = w * h ->
  Forall2 painted ts1 ts -> Forall2 painted ts1 ts' ->
  numbered w h ts -> numbered w h ts' -> ts = ts'.
Proof.
  intros Hw Hh Hlen Hp Hp' Hn Hn'.
  assert (forall a, Forall2 painted ts1 a ->
            Forall2 (fun t t' => isMine t' = isMine t) ts1 a) as Hsame.
  { intros a H. eapply Forall2_impl; [exact H |]. by intros t t' (_ & _ & Hm & _). }
  apply list_eq. intros i.
  destruct (ts1 !! i) as [t1 |] eqn:E1.
  2: { apply lookup_ge_None in E1.
       rewrite (proj2 (lookup_ge_None ts i)) by (rewrite <- (Forall2_length _ _ _ Hp); lia).
       by rewrite (proj2 (lookup_ge_None ts' i)) by (rewrite <- (Forall2_length _ _ _ Hp'); lia). }
  destruct (Forall2_lookup_l _ _ _ _ _ Hp E1) as (t & Ht & Hf & Hc & Hm & Hr).
  destruct (Forall2_lookup_l _ _ _ _ _ Hp' E1) as (t' & Ht' & Hf' & Hc' & Hm' & Hr').
  rewrite Ht, Ht'. f_equal.
  apply lookup_lt_Some in E1.
  set (x := Z.of_nat i mod w). set (y := Z.of_nat i / w).
  assert (0 <= x < w) as Hx by (apply Z.mod_pos_bound; lia).
  assert (0 <= y < h) as Hy
    by (split; [apply Z.div_pos; lia | apply Z.div_lt_upper_bound; lia]).
  assert (index w x y = Z.of_nat i) as Hi
    by (unfold index, x, y; rewrite <- Z.div_mod by lia; done).
  destruct (Hn x y Hx Hy) as (u & Hu & Hnum). destruct (Hn' x y Hx Hy) as (u' & Hu' & Hnum').
  rewrite Hi, idx_lookup, Nat2Z.id in Hu, Hu' by lia.
  assert (u = t) as -> by congruence. assert (u' = t') as -> by congruence.
  assert (value t = value t') as Hv.
  { destruct (isMine t1) eqn:Em.
    - unfold isMine in Hm, Hm'.
      apply Z.eqb_eq in Hm, Hm'. congruence.
    - rewrite (Hnum Hm), (Hnum' Hm').
      rewrite (mines_around_same_mines w h ts1 ts (Hsame ts Hp)).
      by rewrite (mines_around_same_mines w h ts1 ts' (Hsame ts' Hp')). }
  destruct t as [v f c], t' as [v' f' c']. simpl in *. congruence.
Qed.

(** The two packages lay the same grid from the same draws:
    [addMinesToGrid], which numbers a tile with [countMines], and
    [generateTiles], which counts the mines around a tile one by one. *)
Theorem grids_agree g x y rs :
  WF g -> 0 <= x < boardWidth g -> 0 <= y < boardHeight g ->
  match addMinesToGrid x y (World g rs), Mines.generateTiles (as_mines g) x y rs with
  | Ret _ s', Ret ts rs' => game s' = set_grid ts g /\ rand s' = rs'
  | Starved, Starved => True
  | _, _ => False
  end.
Proof.
  intros Hwf Hx Hy. pose proof (wf_width _ Hwf) as Hw.
  pose proof (wf_height _ Hwf) as Hh. pose proof (wf_mines _ Hwf) as Hm.
  unfold addMinesToGrid, Mines.generateTiles. cbn [game rand].
  set (g1 := set_grid (make zero_tile (u16 (boardHeight g * boardWidth g))) g).
  rewrite (placeMines_same x y (length rs) rs 0 g1 (le_n _)).
  change (as_mines g1) with (as_mines g). cbn [grid g1 set_grid].
  cbn [Mines.width Mines.height as_mines].
  pose proof (MinesGenerate.placeMines_post (as_mines g) x y Hw Hh ltac:(simpl; nia) Hx
                (length rs) rs 0 (make zero_tile (u16 (boardHeight g * boardWidth g)))
                (le_n _) ltac:(simpl; lia)
                (MinesGenerate.placing_make (as_mines g) x y Hw Hh Hx Hy)) as Hpl.
  destruct (Mines.placeMines (as_mines g) x y 0
              (make zero_tile (u16 (boardHeight g * boardWidth g))) rs)
    as [ts1 rs1 | | |]; try done.
  destruct Hpl as [Hl1 Hp1 _ _]. cbn [Mines.width Mines.height as_mines] in *.
  destruct (numberGrid_post (set_grid ts1 g1)) as (g2 & Hrun & Hg2 & Hlen2 & Hp2 & Hnum2);
    try done.
  destruct (MinesGenerate.numberTiles_post (boardWidth g) (boardHeight g) Hw Hh ts1)
    as (ts2 & Hrun' & Hlen' & Hp'); [done | done |].
  pose proof (MinesNumbers.numberTiles_numbered _ _ ts1 ts2 Hw Hh Hl1 Hp1 Hrun') as Hnum'.
  rewrite Hrun, Hrun'. cbn [game rand]. split; [| done].
  cbn [boardWidth boardHeight set_grid g1 grid] in *.
  rewrite Hg2.
  rewrite (numbered_unique (boardWidth g) (boardHeight g) ts1 (grid g2) ts2); try done; lia.
Qed.

Lemma grids_agree_witness :
  (exists u s', addMinesToGrid 1 0 grow0 = Ret u s')
  /\ match addMinesToGrid 1 0 grow0,
          Mines.generateTiles (as_mines (game grow0)) 1 0 (rand grow0) with
     | Ret _ s', Ret ts rs' => game s' = set_grid ts (game grow0) /\ rand s' = rs'
     | Starved, Starved => True
     | _, _ => False
     end.
Proof.
  split.
  - vm_compute. eexists _, _. reflexivity.
  - apply (grids_agree (game grow0) 1 0 (rand grow0)).
    + split; cbn; (lia || by left).
    + cbn. lia.
    + cbn. lia.
Defined.

End GameMore.
